(** * The query client of src/data-fetching.ts, as a transition system

    The client is a keyed cache of remotely fetched values.  Its code is
    asynchronous JavaScript running on one thread: every public call, every
    settled promise and every timer runs to completion before the next one
    starts.  The development below embeds it as a deterministic step
    function on an explicit runtime state:

    - the cache maps a serialized key to a reference to an entry object, and
      the entry objects live in a heap, because a suspended [fetchQuery]
      keeps the reference it obtained before it was suspended;
    - a suspended [fetchQuery] call is a frame: the captured entry reference,
      the options, the abort signal handed to [executeWithRetry] and the
      retry counter;
    - the user's query function, the timers and the microtask queue belong to
      the environment: they appear as events ([FnSettles], [DelayElapses],
      [TimerFires], [MicrotaskFlush]);
    - observer callbacks and option callbacks are user code: the model
      records each call in a log and runs nothing for them.

    Beside the client, the file embeds the mutation executor of
    [useMutation] (module [Mutation]), the key factories (module [Keys])
    and the state initializer of [useQuery].

    The cache is the external lru-cache package.  In the runs of the
    transition system it is a finite map whose removals call [dispose]:
    these are the runs in which the cache holds fewer keys than its
    capacity, no key that is looked up has outlived the time to live, and
    every option callback returns.  The lookup with the time to live is in
    module [Lru]; the flush of deferred callbacks that may throw is
    [microtaskFlushWith]. *)

From Stdlib Require Import ZArith Lia Ascii.
From stdpp Require Import gmap strings list pretty.

Set Warnings "-register-all".
Local Open Scope Z_scope.

(* ================================================================== *)
(** ** JSON values and key serialization *)
(* ================================================================== *)

(** The fragment of JavaScript values the model ranges over.  Numbers are
    integers; object fields keep their insertion order. *)
Inductive JSON : Type :=
| JNull
| JBool (b : bool)
| JNum (n : Z)
| JStr (s : string)
| JArr (items : list JSON)
| JObj (fields : list (string * JSON)).

(** [type QueryKey = string | readonly unknown[]] *)
Inductive QueryKey : Type :=
| KeyString (s : string)
| KeyArray (items : list JSON).

Module Json.

Definition quote_char : ascii := ascii_of_nat 34.
Definition backslash : ascii := ascii_of_nat 92.

Definition hex_digit (n : nat) : ascii :=
  if (n <? 10)%nat then ascii_of_nat (48 + n) else ascii_of_nat (87 + n).

(** One character of a string literal, escaped as JSON.stringify does. *)
Definition escape_char (c : ascii) : string :=
  let n := nat_of_ascii c in
  if (n =? 34)%nat then String backslash (String quote_char EmptyString)
  else if (n =? 92)%nat then String backslash (String backslash EmptyString)
  else if (n =? 8)%nat then String backslash "b"
  else if (n =? 9)%nat then String backslash "t"
  else if (n =? 10)%nat then String backslash "n"
  else if (n =? 12)%nat then String backslash "f"
  else if (n =? 13)%nat then String backslash "r"
  else if (n <? 32)%nat then
    String backslash
      (String "u" (String "0" (String "0"
        (String (hex_digit (n / 16)) (String (hex_digit (n mod 16)) EmptyString)))))
  else String c EmptyString.

Fixpoint escape (s : string) : string :=
  match s with
  | EmptyString => EmptyString
  | String c rest => escape_char c +:+ escape rest
  end.

Definition quote (s : string) : string :=
  String quote_char (escape s +:+ String quote_char EmptyString).

Fixpoint join (sep : string) (parts : list string) : string :=
  match parts with
  | [] => EmptyString
  | [p] => p
  | p :: rest => p +:+ sep +:+ join sep rest
  end.

Fixpoint stringify (v : JSON) : string :=
  match v with
  | JNull => "null"
  | JBool true => "true"
  | JBool false => "false"
  | JNum n => pretty n
  | JStr s => quote s
  | JArr items => "[" +:+ join "," (List.map stringify items) +:+ "]"
  | JObj fields =>
      "{" +:+ join ","
               (List.map (fun kv => quote (fst kv) +:+ ":" +:+ stringify (snd kv)) fields)
          +:+ "}"
  end.

End Json.

(** [JSON.stringify(queryKey)] *)
Definition JSON_stringify (k : QueryKey) : string :=
  match k with
  | KeyString s => Json.quote s
  | KeyArray items => Json.stringify (JArr items)
  end.

(** [if (queryKey)]: a key is falsy when it is the empty string. *)
Definition truthy (k : QueryKey) : bool :=
  match k with
  | KeyString EmptyString => false
  | _ => true
  end.

Definition getQueryKey (queryKey : QueryKey) : string := JSON_stringify queryKey.

(* ================================================================== *)
(** ** Data model *)
(* ================================================================== *)

(** [type QueryStatus = 'pending' | 'error' | 'success'] *)
Inductive QueryStatus : Type := StatusPending | StatusError | StatusSuccess.

(** [type FetchStatus = 'fetching' | 'paused' | 'idle'] *)
Inductive FetchStatus : Type := Fetching | Paused | Idle.

#[global] Instance QueryStatus_eq_dec : EqDecision QueryStatus.
Proof. solve_decision. Defined.

#[global] Instance FetchStatus_eq_dec : EqDecision FetchStatus.
Proof. solve_decision. Defined.

(** What a promise can be rejected with: an [Error] object, or any other
    value. *)
Inductive Thrown : Type :=
| ErrorObject (name message : string)
| NonError (v : JSON).

(** [error instanceof Error && error.name === 'AbortError'] *)
Definition is_AbortError (err : Thrown) : bool :=
  match err with
  | ErrorObject name _ => String.eqb name "AbortError"
  | NonError _ => false
  end.

(** The value an [error] field holds after [error: err]: [None] is the
    JavaScript [null]. *)
Definition error_field (err : Thrown) : option Thrown :=
  match err with
  | NonError JNull => None
  | _ => Some err
  end.

(** [interface QueryState].  In [data], [None] is [undefined]; in [error]
    and [failureReason], [None] is [null]. *)
Record QueryState : Type := mkQueryState {
  data : option JSON;
  dataUpdatedAt : Z;
  error : option Thrown;
  errorUpdatedAt : Z;
  failureCount : nat;
  failureReason : option Thrown;
  fetchStatus : FetchStatus;
  isInvalidated : bool;
  status : QueryStatus
}.

Inductive RetryOption : Type :=
| RetryCount (n : Z)
| RetryBool (b : bool)
| RetryFn (f : nat -> Thrown -> bool).

Inductive RetryDelayOption : Type :=
| DelayMs (ms : Z)
| DelayFn (f : nat -> Thrown -> Z).

(** [interface QueryOptions], the fields the client reads.  [queryFn] is the
    identity of the user's function; a callback field says whether the
    callback was given.  [refetchInterval = None] is [undefined] or
    [false]. *)
Record QueryOptions : Type := mkQueryOptions {
  queryKey : QueryKey;
  queryFn : nat;
  enabled : option bool;
  retry : option RetryOption;
  retryDelay : option RetryDelayOption;
  staleTime : option Z;
  gcTime : option Z;
  refetchInterval : option Z;
  select : option (JSON -> JSON);
  meta : option JSON;
  onSuccess : bool;
  onError : bool;
  onSettled : bool
}.

(** [interface UseQueryResult]: the spread state with [data] replaced, and
    the derived flags.  The [refetch] closure is the event [CallRefetch]. *)
Record UseQueryResult : Type := mkUseQueryResult {
  resultState : QueryState;
  isLoading : bool;
  isPending_ : bool;
  isSuccess : bool;
  isError : bool;
  isFetching : bool;
  isPlaceholderData : bool;
  isRefetching : bool;
  isStale_ : bool
}.

(** [class QueryObserver]: an object with an identity. *)
Record QueryObserver : Type := mkQueryObserver {
  observerId : nat;
  observerOptions : QueryOptions
}.

(** [interface QueryCacheEntry].  Controllers and timers are references. *)
Record QueryCacheEntry : Type := mkQueryCacheEntry {
  state : QueryState;
  observers : list QueryObserver;
  promise : option nat;
  abortController : option nat;
  gcTimeout : option nat;
  entryRefetchInterval : option nat
}.

(** Who called [fetchQuery], which decides who holds the returned promise:
    an outside caller (also [refetch] and the prefetch helper) keeps it;
    [subscribeToQuery] and the interval callback drop it. *)
Inductive Caller : Type := External | Subscription | Interval.

Inductive Outcome : Type :=
| Resolved (v : option JSON)
| Rejected (err : Thrown).

(** Where [executeWithRetry] is suspended. *)
Inductive Phase : Type :=
| AwaitingFn
| AwaitingDelay (ms : Z).

(** A suspended [fetchQuery] call. *)
Record Frame : Type := mkFrame {
  frameEntry : nat;
  frameOptions : QueryOptions;
  frameSignal : nat;
  frameAttempt : nat;
  framePhase : Phase;
  frameCaller : Caller
}.

(** The three closures the client hands to [setInterval]/[setTimeout]. *)
Inductive Timer : Type :=
| RefetchTimer (options : QueryOptions) (ms : Z)
| GcAfterFetch (entry : nat) (options : QueryOptions) (ms : Z)
| GcAfterUnsubscribe (options : QueryOptions) (ms : Z).

(** A closure handed to [defer]. *)
Inductive Task : Type :=
| TaskOnSuccess (options : QueryOptions) (d : option JSON)
| TaskOnError (options : QueryOptions) (err : Thrown)
| TaskOnSettled (options : QueryOptions) (entry : nat).

(** A call to one of the user's option callbacks. *)
Inductive CallbackCall : Type :=
| CalledOnSuccess (key : QueryKey) (d : option JSON)
| CalledOnError (key : QueryKey) (err : Thrown)
| CalledOnSettled (key : QueryKey) (d : option JSON) (err : option Thrown).

(** A call to the user's query function, with its context. *)
Record Invocation : Type := mkInvocation {
  invokedFn : nat;
  invokedKey : QueryKey;
  invokedSignal : nat;
  invokedMeta : option JSON
}.

(** The client and the part of the runtime it talks to. *)
Record System : Type := mkSystem {
  cache : gmap string nat;
  heap : gmap nat QueryCacheEntry;
  aborted : gmap nat bool;
  frames : gmap nat Frame;
  timers : gmap nat Timer;
  nextId : nat;
  calls : list Invocation;
  notified : list (nat * UseQueryResult);
  queue : list Task;
  isPending : bool;
  fired : list CallbackCall;
  promises : list (nat * Caller * Outcome)
}.

(** [new QueryClient()] in a fresh runtime. *)
Definition newQueryClient : System :=
  {| cache := ∅; heap := ∅; aborted := ∅; frames := ∅; timers := ∅;
     nextId := 0%nat; calls := []; notified := []; queue := [];
     isPending := false; fired := []; promises := [] |}.

(** Field updates. *)

Definition upd_cache (f : gmap string nat -> gmap string nat) (s : System) : System :=
  {| cache := f (cache s); heap := heap s; aborted := aborted s; frames := frames s;
     timers := timers s; nextId := nextId s; calls := calls s; notified := notified s;
     queue := queue s; isPending := isPending s; fired := fired s;
     promises := promises s |}.

Definition upd_heap (f : gmap nat QueryCacheEntry -> gmap nat QueryCacheEntry)
    (s : System) : System :=
  {| cache := cache s; heap := f (heap s); aborted := aborted s; frames := frames s;
     timers := timers s; nextId := nextId s; calls := calls s; notified := notified s;
     queue := queue s; isPending := isPending s; fired := fired s;
     promises := promises s |}.

Definition upd_aborted (f : gmap nat bool -> gmap nat bool) (s : System) : System :=
  {| cache := cache s; heap := heap s; aborted := f (aborted s); frames := frames s;
     timers := timers s; nextId := nextId s; calls := calls s; notified := notified s;
     queue := queue s; isPending := isPending s; fired := fired s;
     promises := promises s |}.

Definition upd_frames (f : gmap nat Frame -> gmap nat Frame) (s : System) : System :=
  {| cache := cache s; heap := heap s; aborted := aborted s; frames := f (frames s);
     timers := timers s; nextId := nextId s; calls := calls s; notified := notified s;
     queue := queue s; isPending := isPending s; fired := fired s;
     promises := promises s |}.

Definition upd_timers (f : gmap nat Timer -> gmap nat Timer) (s : System) : System :=
  {| cache := cache s; heap := heap s; aborted := aborted s; frames := frames s;
     timers := f (timers s); nextId := nextId s; calls := calls s;
     notified := notified s; queue := queue s; isPending := isPending s;
     fired := fired s; promises := promises s |}.

Definition upd_nextId (f : nat -> nat) (s : System) : System :=
  {| cache := cache s; heap := heap s; aborted := aborted s; frames := frames s;
     timers := timers s; nextId := f (nextId s); calls := calls s;
     notified := notified s; queue := queue s; isPending := isPending s;
     fired := fired s; promises := promises s |}.

Definition upd_calls (f : list Invocation -> list Invocation) (s : System) : System :=
  {| cache := cache s; heap := heap s; aborted := aborted s; frames := frames s;
     timers := timers s; nextId := nextId s; calls := f (calls s);
     notified := notified s; queue := queue s; isPending := isPending s;
     fired := fired s; promises := promises s |}.

Definition upd_notified (f : list (nat * UseQueryResult) -> list (nat * UseQueryResult))
    (s : System) : System :=
  {| cache := cache s; heap := heap s; aborted := aborted s; frames := frames s;
     timers := timers s; nextId := nextId s; calls := calls s;
     notified := f (notified s); queue := queue s; isPending := isPending s;
     fired := fired s; promises := promises s |}.

Definition upd_queue (f : list Task -> list Task) (s : System) : System :=
  {| cache := cache s; heap := heap s; aborted := aborted s; frames := frames s;
     timers := timers s; nextId := nextId s; calls := calls s;
     notified := notified s; queue := f (queue s); isPending := isPending s;
     fired := fired s; promises := promises s |}.

Definition upd_isPending (b : bool) (s : System) : System :=
  {| cache := cache s; heap := heap s; aborted := aborted s; frames := frames s;
     timers := timers s; nextId := nextId s; calls := calls s;
     notified := notified s; queue := queue s; isPending := b;
     fired := fired s; promises := promises s |}.

Definition upd_fired (f : list CallbackCall -> list CallbackCall) (s : System) : System :=
  {| cache := cache s; heap := heap s; aborted := aborted s; frames := frames s;
     timers := timers s; nextId := nextId s; calls := calls s;
     notified := notified s; queue := queue s; isPending := isPending s;
     fired := f (fired s); promises := promises s |}.

Definition upd_promises (f : list (nat * Caller * Outcome) -> list (nat * Caller * Outcome))
    (s : System) : System :=
  {| cache := cache s; heap := heap s; aborted := aborted s; frames := frames s;
     timers := timers s; nextId := nextId s; calls := calls s;
     notified := notified s; queue := queue s; isPending := isPending s;
     fired := fired s; promises := f (promises s) |}.

Definition upd_state (f : QueryState -> QueryState) (e : QueryCacheEntry) : QueryCacheEntry :=
  {| state := f (state e); observers := observers e; promise := promise e;
     abortController := abortController e; gcTimeout := gcTimeout e;
     entryRefetchInterval := entryRefetchInterval e |}.

Definition upd_observers (f : list QueryObserver -> list QueryObserver)
    (e : QueryCacheEntry) : QueryCacheEntry :=
  {| state := state e; observers := f (observers e); promise := promise e;
     abortController := abortController e; gcTimeout := gcTimeout e;
     entryRefetchInterval := entryRefetchInterval e |}.

Definition upd_abortController (c : option nat) (e : QueryCacheEntry) : QueryCacheEntry :=
  {| state := state e; observers := observers e; promise := promise e;
     abortController := c; gcTimeout := gcTimeout e;
     entryRefetchInterval := entryRefetchInterval e |}.

Definition upd_gcTimeout (t : option nat) (e : QueryCacheEntry) : QueryCacheEntry :=
  {| state := state e; observers := observers e; promise := promise e;
     abortController := abortController e; gcTimeout := t;
     entryRefetchInterval := entryRefetchInterval e |}.

Definition upd_entryRefetchInterval (t : option nat) (e : QueryCacheEntry) : QueryCacheEntry :=
  {| state := state e; observers := observers e; promise := promise e;
     abortController := abortController e; gcTimeout := gcTimeout e;
     entryRefetchInterval := t |}.

(* ================================================================== *)
(** ** A state monad for the client's methods *)
(* ================================================================== *)

Definition M (A : Type) : Type := System -> A * System.

Definition ret {A : Type} (a : A) : M A := fun s => (a, s).

Definition bind {A B : Type} (m : M A) (k : A -> M B) : M B :=
  fun s => let (a, s') := m s in k a s'.

Definition gets {A : Type} (f : System -> A) : M A := fun s => (f s, s).

Definition modify (f : System -> System) : M unit := fun s => (tt, f s).

Notation "'let*' x ':=' m 'in' k" := (bind m (fun x => k))
  (at level 10, x name, m at level 100, k at level 200, only parsing).
Notation "m1 ;; m2" := (bind m1 (fun _ => m2))
  (at level 100, m2 at level 200, right associativity, only parsing).

Definition when (b : bool) (m : M unit) : M unit := if b then m else ret tt.

(** Run [k] on the value of an optional field, as [if (x) { ... }] does. *)
Definition whenSome {A : Type} (o : option A) (k : A -> M unit) : M unit :=
  match o with
  | Some a => k a
  | None => ret tt
  end.

Definition exec {A : Type} (m : M A) (s : System) : System := snd (m s).
Definition eval {A : Type} (m : M A) (s : System) : A := fst (m s).

(** *** Runtime primitives *)

(** A fresh reference: for an entry object, an abort controller, a timer, an
    observer or a frame. *)
Definition fresh : M nat :=
  fun s => (nextId s, upd_nextId S s).

Definition deref (e : nat) : M (option QueryCacheEntry) :=
  gets (fun s => heap s !! e).

(** An assignment to a field of the entry object [e]. *)
Definition assign (e : nat) (f : QueryCacheEntry -> QueryCacheEntry) : M unit :=
  modify (upd_heap (alter f e)).

(** [controller.abort()] *)
Definition abort (c : nat) : M unit :=
  modify (upd_aborted <[c := true]>).

(** [new AbortController()] *)
Definition newAbortController : M nat :=
  let* c := fresh in
  modify (upd_aborted <[c := false]>) ;;
  ret c.

(** [signal?.aborted] *)
Definition signalAborted (c : nat) : M bool :=
  gets (fun s => match aborted s !! c with Some b => b | None => false end).

(** [setTimeout] and [setInterval] *)
Definition setTimer (t : Timer) : M nat :=
  let* id := fresh in
  modify (upd_timers <[id := t]>) ;;
  ret id.

(** [clearTimeout] and [clearInterval] *)
Definition clearTimer (id : nat) : M unit :=
  modify (upd_timers (delete id)).

(** batching.ts, [defer]: the callback joins the queue, and the first one of
    a turn schedules the flush. *)
Definition defer (t : Task) : M unit :=
  modify (upd_queue (fun q => q ++ [t])) ;;
  let* p := gets isPending in
  when (negb p) (modify (upd_isPending true)).

(* ================================================================== *)
(** ** The client *)
(* ================================================================== *)

Definition initialState : QueryState :=
  {| data := None; dataUpdatedAt := 0; error := None; errorUpdatedAt := 0;
     failureCount := 0%nat; failureReason := None; fetchStatus := Idle;
     isInvalidated := false; status := StatusPending |}.

Definition initialEntry : QueryCacheEntry :=
  {| state := initialState; observers := []; promise := None;
     abortController := None; gcTimeout := None; entryRefetchInterval := None |}.

Definition cleanupQuery (e : nat) : M unit :=
  let* entry := deref e in
  whenSome entry (fun en =>
    whenSome (abortController en) abort ;;
    whenSome (gcTimeout en) clearTimer ;;
    whenSome (entryRefetchInterval en) clearTimer).

(** The cache's [delete]: the dropped entry goes through [dispose], which
    the constructor sets to [cleanupQuery]. *)
Definition cacheDelete (key : string) : M unit :=
  let* found := gets (fun s => cache s !! key) in
  whenSome found (fun e =>
    cleanupQuery e ;;
    modify (upd_cache (delete key))).

(** The cache's [clear]: every entry is disposed of. *)
Definition cacheClear : M unit :=
  let* all := gets (fun s => map_to_list (cache s)) in
  foldr (fun kv rest => cleanupQuery (snd kv) ;; rest) (ret tt) all ;;
  modify (upd_cache (fun _ => ∅)).

(** [getQueryEntry] in a cache that is not full, for a key that has not
    outlived its age limit: the [set] of a missing key evicts no other
    ([cacheMax] below). *)
Definition getQueryEntry (k : QueryKey) : M nat :=
  let key := getQueryKey k in
  let* found := gets (fun s => cache s !! key) in
  match found with
  | Some e => ret e
  | None =>
      let* e := fresh in
      modify (upd_heap <[e := initialEntry]>) ;;
      modify (upd_cache <[key := e]>) ;;
      ret e
  end.

Definition isStale (now : Z) (st : QueryState) (options : QueryOptions) : bool :=
  let staleTime := default 0 (staleTime options) in
  bool_decide (now - dataUpdatedAt st > staleTime).

Definition buildQueryResult (now : Z) (st : QueryState) (options : QueryOptions)
    : UseQueryResult :=
  let transformedData :=
    match select options, data st with
    | Some f, Some d => Some (f d)
    | _, _ => data st
    end in
  let isLoading :=
    bool_decide (status st = StatusPending) && bool_decide (fetchStatus st = Fetching) in
  let isPending := bool_decide (status st = StatusPending) in
  let isSuccess := bool_decide (status st = StatusSuccess) in
  let isError := bool_decide (status st = StatusError) in
  let isFetching := bool_decide (fetchStatus st = Fetching) in
  let isStale := isStale now st options in
  {| resultState :=
       {| data := transformedData; dataUpdatedAt := dataUpdatedAt st;
          error := error st; errorUpdatedAt := errorUpdatedAt st;
          failureCount := failureCount st; failureReason := failureReason st;
          fetchStatus := fetchStatus st; isInvalidated := isInvalidated st;
          status := status st |};
     isLoading := isLoading;
     isPending_ := isPending;
     isSuccess := isSuccess;
     isError := isError;
     isFetching := isFetching;
     isPlaceholderData := false;
     isRefetching := isFetching && negb isLoading;
     isStale_ := isStale |}.

(** Every observer's callback is called with its own projection of the
    state; the call is recorded. *)
Definition notifyObservers (now : Z) (e : nat) : M unit :=
  let* entry := deref e in
  whenSome entry (fun en =>
    modify (upd_notified (fun log =>
      log ++ List.map (fun ob =>
                (observerId ob, buildQueryResult now (state en) (observerOptions ob)))
              (observers en)))).

(** [options.queryFn(context)]: the call is recorded; its promise settles
    later, by [FnSettles]. *)
Definition invokeQueryFn (options : QueryOptions) (signal : nat) : M unit :=
  modify (upd_calls (fun log =>
    log ++ [{| invokedFn := queryFn options; invokedKey := queryKey options;
               invokedSignal := signal; invokedMeta := meta options |}])).

(** [fetchQuery] up to its first suspension, inside [executeWithRetry] at
    [await fn()].  The result names the suspended call. *)
Definition fetchQuery (now : Z) (caller : Caller) (options : QueryOptions) : M nat :=
  let* e := getQueryEntry (queryKey options) in
  let* entry := deref e in
  whenSome (entry ≫= abortController) abort ;;
  let* c := newAbortController in
  assign e (upd_abortController (Some c)) ;;
  assign e (upd_state (fun st =>
    {| data := data st; dataUpdatedAt := dataUpdatedAt st; error := error st;
       errorUpdatedAt := errorUpdatedAt st; failureCount := failureCount st;
       failureReason := failureReason st; fetchStatus := Fetching;
       isInvalidated := isInvalidated st; status := status st |})) ;;
  notifyObservers now e ;;
  let* fid := fresh in
  invokeQueryFn options c ;;
  modify (upd_frames <[fid :=
    {| frameEntry := e; frameOptions := options; frameSignal := c;
       frameAttempt := 0%nat; framePhase := AwaitingFn; frameCaller := caller |}]>) ;;
  ret fid.

(** The [shouldRetry] of [executeWithRetry]. *)
Definition shouldRetry (r : RetryOption) (attempt : nat) (err : Thrown) : bool :=
  match r with
  | RetryFn f => f attempt err
  | RetryBool b => b && (attempt <? 3)%nat
  | RetryCount n => Z.of_nat attempt <? n
  end.

(** The [delay] of [executeWithRetry]. *)
Definition retryDelayOf (d : option RetryDelayOption) (attempt : nat) (err : Thrown) : Z :=
  match d with
  | Some (DelayFn f) => f attempt err
  | Some (DelayMs ms) => ms
  | None => Z.min (1000 * 2 ^ Z.of_nat attempt) 30000
  end.

(** The [fetchQuery] promise settles and the call is over. *)
Definition settle (fid : nat) (fr : Frame) (o : Outcome) : M unit :=
  modify (upd_frames (delete fid)) ;;
  modify (upd_promises (fun log => log ++ [(fid, frameCaller fr, o)])).

(** The [finally] block. *)
Definition fetchFinally (fr : Frame) : M unit :=
  when (onSettled (frameOptions fr))
    (defer (TaskOnSettled (frameOptions fr) (frameEntry fr))).

(** [fetchQuery] after [executeWithRetry] returned [d]. *)
Definition fetchSucceeded (now : Z) (fid : nat) (fr : Frame) (d : option JSON) : M unit :=
  let e := frameEntry fr in
  let options := frameOptions fr in
  assign e (upd_state (fun st =>
    {| data := d; dataUpdatedAt := now; error := None; errorUpdatedAt := 0;
       failureCount := 0%nat; failureReason := None; fetchStatus := Idle;
       isInvalidated := isInvalidated st; status := StatusSuccess |})) ;;
  whenSome (refetchInterval options) (fun ms =>
    when (bool_decide (ms > 0))
      (let* t := setTimer (RefetchTimer options ms) in
       assign e (upd_entryRefetchInterval (Some t)))) ;;
  (let gcTime := default (5 * 60 * 1000) (gcTime options) in
   when (bool_decide (gcTime > 0))
     (let* t := setTimer (GcAfterFetch e options gcTime) in
      assign e (upd_gcTimeout (Some t)))) ;;
  notifyObservers now e ;;
  when (onSuccess options) (defer (TaskOnSuccess options d)) ;;
  fetchFinally fr ;;
  settle fid fr (Resolved d).

(** [fetchQuery]'s [catch] block, after [executeWithRetry] threw [err]. *)
Definition fetchFailed (now : Z) (fid : nat) (fr : Frame) (err : Thrown) : M unit :=
  let e := frameEntry fr in
  let options := frameOptions fr in
  if is_AbortError err then
    let* entry := deref e in
    fetchFinally fr ;;
    settle fid fr (Resolved (entry ≫= fun en => data (state en)))
  else
    assign e (upd_state (fun st =>
      {| data := data st; dataUpdatedAt := dataUpdatedAt st; error := error_field err;
         errorUpdatedAt := now; failureCount := S (failureCount st);
         failureReason := error_field err; fetchStatus := Idle;
         isInvalidated := isInvalidated st; status := StatusError |})) ;;
    notifyObservers now e ;;
    when (onError options) (defer (TaskOnError options err)) ;;
    fetchFinally fr ;;
    settle fid fr (Rejected err).

(** [executeWithRetry]'s [catch] block: the promise of [fn()] was rejected
    with [err]. *)
Definition executeWithRetry_catch (now : Z) (fid : nat) (fr : Frame) (err : Thrown)
    : M unit :=
  let options := frameOptions fr in
  let* isAborted := signalAborted (frameSignal fr) in
  if isAborted then fetchFailed now fid fr err
  else if shouldRetry (default (RetryCount 3) (retry options)) (frameAttempt fr) err then
    let delay := retryDelayOf (retryDelay options) (frameAttempt fr) err in
    modify (upd_frames <[fid :=
      {| frameEntry := frameEntry fr; frameOptions := options;
         frameSignal := frameSignal fr; frameAttempt := frameAttempt fr;
         framePhase := AwaitingDelay delay; frameCaller := frameCaller fr |}]>)
  else fetchFailed now fid fr err.

(** The promise of the query function of the suspended call [fid] settles. *)
Definition fnSettles (now : Z) (fid : nat) (o : Outcome) : M unit :=
  let* found := gets (fun s => frames s !! fid) in
  whenSome found (fun fr =>
    match framePhase fr with
    | AwaitingFn =>
        match o with
        | Resolved d => fetchSucceeded now fid fr d
        | Rejected err => executeWithRetry_catch now fid fr err
        end
    | AwaitingDelay _ => ret tt
    end).

(** The back-off delay of the suspended call [fid] is over: [attempt++] and
    the loop calls [fn()] again. *)
Definition delayElapses (fid : nat) : M unit :=
  let* found := gets (fun s => frames s !! fid) in
  whenSome found (fun fr =>
    match framePhase fr with
    | AwaitingDelay _ =>
        invokeQueryFn (frameOptions fr) (frameSignal fr) ;;
        modify (upd_frames <[fid :=
          {| frameEntry := frameEntry fr; frameOptions := frameOptions fr;
             frameSignal := frameSignal fr; frameAttempt := S (frameAttempt fr);
             framePhase := AwaitingFn; frameCaller := frameCaller fr |}]>)
    | AwaitingFn => ret tt
    end).

(** [options.enabled !== false] *)
Definition enabledNotFalse (options : QueryOptions) : bool :=
  match enabled options with
  | Some false => false
  | _ => true
  end.

(** [subscribeToQuery]: the result is what the returned closure captured,
    the observer and the entry. *)
Definition subscribeToQuery (now : Z) (options : QueryOptions) : M (nat * nat) :=
  let* e := getQueryEntry (queryKey options) in
  let* ob := fresh in
  assign e (upd_observers (fun obs =>
    obs ++ [{| observerId := ob; observerOptions := options |}])) ;;
  let* entry := deref e in
  whenSome (entry ≫= gcTimeout) (fun t =>
    clearTimer t ;;
    assign e (upd_gcTimeout None)) ;;
  let* entry := deref e in
  when (enabledNotFalse options
        && match entry with
           | Some en => bool_decide (status (state en) = StatusPending)
           | None => false
           end)
    (let* fid := fetchQuery now Subscription options in ret tt) ;;
  ret (ob, e).

(** The closure [subscribeToQuery] returned, for the observer [ob] of the
    entry [e]. *)
Definition unsubscribe (e ob : nat) (options : QueryOptions) : M unit :=
  assign e (upd_observers (filter (fun o => observerId o ≠ ob))) ;;
  let* entry := deref e in
  whenSome entry (fun en =>
    when (bool_decide (length (observers en) = 0%nat))
      (let gcTime := default (5 * 60 * 1000) (gcTime options) in
       when (bool_decide (gcTime > 0))
         (let* t := setTimer (GcAfterUnsubscribe options gcTime) in
          assign e (upd_gcTimeout (Some t))))).

(** [entry.state.isInvalidated = true; this.notifyObservers(entry)] *)
Definition invalidateEntry (now : Z) (e : nat) : M unit :=
  assign e (upd_state (fun st =>
    {| data := data st; dataUpdatedAt := dataUpdatedAt st; error := error st;
       errorUpdatedAt := errorUpdatedAt st; failureCount := failureCount st;
       failureReason := failureReason st; fetchStatus := fetchStatus st;
       isInvalidated := true; status := status st |})) ;;
  notifyObservers now e.

(** The argument is optional; the test [if (queryKey)] also sends the empty
    string to the second branch, which walks the whole cache. *)
Definition invalidateQueries (now : Z) (k : option QueryKey) : M unit :=
  match k with
  | Some qk =>
      if truthy qk then
        let key := getQueryKey qk in
        let* found := gets (fun s => cache s !! key) in
        whenSome found (invalidateEntry now)
      else
        let* all := gets (fun s => map_to_list (cache s)) in
        foldr (fun kv rest => invalidateEntry now (snd kv) ;; rest) (ret tt) all
  | None =>
      let* all := gets (fun s => map_to_list (cache s)) in
      foldr (fun kv rest => invalidateEntry now (snd kv) ;; rest) (ret tt) all
  end.

Definition setQueryData (now : Z) (k : QueryKey) (d : option JSON) : M unit :=
  let* e := getQueryEntry k in
  assign e (upd_state (fun st =>
    {| data := d; dataUpdatedAt := now; error := error st;
       errorUpdatedAt := errorUpdatedAt st; failureCount := failureCount st;
       failureReason := failureReason st; fetchStatus := fetchStatus st;
       isInvalidated := isInvalidated st; status := StatusSuccess |})) ;;
  notifyObservers now e.

(** [getQueryData] of a key that has not outlived the age limit of the
    cache; [Lru.getQueryData] below has the limit. *)
Definition getQueryData (k : QueryKey) : M (option JSON) :=
  let* found := gets (fun s => cache s !! getQueryKey k) in
  match found with
  | Some e =>
      let* entry := deref e in
      ret (entry ≫= fun en => data (state en))
  | None => ret None
  end.

Definition removeQueries (k : option QueryKey) : M unit :=
  match k with
  | Some qk =>
      if truthy qk then
        let key := getQueryKey qk in
        let* found := gets (fun s => cache s !! key) in
        whenSome found (fun e =>
          cleanupQuery e ;;
          cacheDelete key)
      else cacheClear
  | None => cacheClear
  end.

Definition clear : M unit := cacheClear.

(** A timer fires.  A timeout is gone once it has fired; an interval stays. *)
Definition timerFires (now : Z) (id : nat) : M unit :=
  let* found := gets (fun s => timers s !! id) in
  whenSome found (fun t =>
    match t with
    | RefetchTimer options _ =>
        let* fid := fetchQuery now Interval options in ret tt
    | GcAfterFetch e options _ =>
        clearTimer id ;;
        let* entry := deref e in
        whenSome entry (fun en =>
          when (bool_decide (length (observers en) = 0%nat))
            (cacheDelete (getQueryKey (queryKey options))))
    | GcAfterUnsubscribe options _ =>
        clearTimer id ;;
        cacheDelete (getQueryKey (queryKey options))
    end).

(** One deferred callback runs. *)
Definition runTask (t : Task) : M unit :=
  match t with
  | TaskOnSuccess options d =>
      modify (upd_fired (fun log => log ++ [CalledOnSuccess (queryKey options) d]))
  | TaskOnError options err =>
      modify (upd_fired (fun log => log ++ [CalledOnError (queryKey options) err]))
  | TaskOnSettled options e =>
      let* entry := deref e in
      modify (upd_fired (fun log =>
        log ++ [CalledOnSettled (queryKey options)
                  (entry ≫= fun en => data (state en))
                  (entry ≫= fun en => error (state en))]))
  end.

(** batching.ts, the microtask, when every callback it calls returns: each
    queued callback runs, in order, and the queue is cleared.
    [microtaskFlushWith] below is the microtask with callbacks that may
    throw. *)
Definition microtaskFlush : M unit :=
  let* p := gets isPending in
  when p
    (modify (upd_isPending false) ;;
     let* q := gets queue in
     foldr (fun t rest => runTask t ;; rest) (ret tt) q ;;
     modify (upd_queue (fun _ => []))).

(* ================================================================== *)
(** ** Events and runs *)
(* ================================================================== *)

Inductive Event : Type :=
| CallFetchQuery (options : QueryOptions)
| CallRefetch (options : QueryOptions)
| CallSubscribeToQuery (options : QueryOptions)
| CallUnsubscribe (entry observer : nat) (options : QueryOptions)
| CallInvalidateQueries (k : option QueryKey)
| CallSetQueryData (k : QueryKey) (d : option JSON)
| CallGetQueryData (k : QueryKey)
| CallRemoveQueries (k : option QueryKey)
| CallClear
| FnSettles (frame : nat) (o : Outcome)
| DelayElapses (frame : nat)
| TimerFires (timer : nat)
| MicrotaskFlush.

(** One turn of the event loop at time [now]. *)
Definition step (now : Z) (ev : Event) (s : System) : System :=
  match ev with
  | CallFetchQuery options => exec (fetchQuery now External options) s
  | CallRefetch options => exec (fetchQuery now External options) s
  | CallSubscribeToQuery options => exec (subscribeToQuery now options) s
  | CallUnsubscribe e ob options => exec (unsubscribe e ob options) s
  | CallInvalidateQueries k => exec (invalidateQueries now k) s
  | CallSetQueryData k d => exec (setQueryData now k d) s
  | CallGetQueryData k => exec (getQueryData k) s
  | CallRemoveQueries k => exec (removeQueries k) s
  | CallClear => exec clear s
  | FnSettles fid o => exec (fnSettles now fid o) s
  | DelayElapses fid => exec (delayElapses fid) s
  | TimerFires id => exec (timerFires now id) s
  | MicrotaskFlush => exec microtaskFlush s
  end.

Fixpoint run (trace : list (Z * Event)) (s : System) : System :=
  match trace with
  | [] => s
  | (now, ev) :: rest => run rest (step now ev s)
  end.

(** *** Observations *)

(** The state of the entry stored under a key. *)
Definition stateOf (k : QueryKey) (s : System) : option QueryState :=
  e ← cache s !! getQueryKey k; en ← heap s !! e; Some (state en).


(** How many times the query function [fn] has been called. *)
Definition invocations (fn : nat) (s : System) : nat :=
  length (filter (fun c => invokedFn c = fn) (calls s)).

(** A rejected promise nobody holds: [fetchQuery] was called by
    [subscribeToQuery] or by the interval callback, which drop the promise. *)
Definition dropped (c : Caller) : bool :=
  match c with
  | External => false
  | Subscription | Interval => true
  end.

Definition unhandledRejections (s : System) : list Thrown :=
  omap (fun p =>
          match p with
          | (_, c, Rejected err) => if dropped c then Some err else None
          | _ => None
          end) (promises s).

(** Options with only [queryKey] and [queryFn] given. *)
Definition optionsFor (k : QueryKey) (fn : nat) : QueryOptions :=
  {| queryKey := k; queryFn := fn; enabled := None; retry := None;
     retryDelay := None; staleTime := None; gcTime := None;
     refetchInterval := None; select := None; meta := None;
     onSuccess := false; onError := false; onSettled := false |}.

Definition withRetry (r : RetryOption) (o : QueryOptions) : QueryOptions :=
  {| queryKey := queryKey o; queryFn := queryFn o; enabled := enabled o;
     retry := Some r; retryDelay := retryDelay o; staleTime := staleTime o;
     gcTime := gcTime o; refetchInterval := refetchInterval o; select := select o;
     meta := meta o; onSuccess := onSuccess o; onError := onError o;
     onSettled := onSettled o |}.

Definition withCallbacks (o : QueryOptions) : QueryOptions :=
  {| queryKey := queryKey o; queryFn := queryFn o; enabled := enabled o;
     retry := retry o; retryDelay := retryDelay o; staleTime := staleTime o;
     gcTime := gcTime o; refetchInterval := refetchInterval o; select := select o;
     meta := meta o; onSuccess := true; onError := true; onSettled := true |}.

(* ================================================================== *)
(** ** Vocabulary of the statements *)
(* ================================================================== *)

(** [m] leaves the observation [f] of the system as it was. *)
Definition preserves {A B : Type} (f : System -> A) (m : M B) : Prop :=
  forall s, f (exec m s) = f s.

(** The reference [e] denotes an entry object. *)
Definition live (e : nat) (s : System) : Prop := is_Some (heap s !! e).

(** Every reference held by the cache or by a suspended call denotes an
    entry object. *)
Record closed (s : System) : Prop := mkClosed {
  closed_cache : forall key e, cache s !! key = Some e -> live e s;
  closed_frames : forall fid fr, frames s !! fid = Some fr -> live (frameEntry fr) s
}.

(** [closed], and the references in [L], held by the running method, are
    live. *)
Definition safe (L : list nat) (s : System) : Prop :=
  closed s /\ forall e, e ∈ L -> live e s.

Definition keeps {B : Type} (P : System -> Prop) (m : M B) : Prop :=
  forall s, P s -> P (exec m s).

(** The states the client can be in: those a run from a new client reaches. *)
Definition reachable (s : System) : Prop :=
  exists trace, s = run trace newQueryClient.

(** The key is stored in the cache. *)
Definition stores (key : string) (s : System) : Prop := is_Some (cache s !! key).

(** [m] ends in a system that satisfies [P], wherever it starts. *)
Definition establishes {B : Type} (P : System -> Prop) (m : M B) : Prop :=
  forall s, P (exec m s).

(** The three writes of [fetchQuery] to an entry's state. *)
Definition setFetching (st : QueryState) : QueryState :=
  {| data := data st; dataUpdatedAt := dataUpdatedAt st; error := error st;
     errorUpdatedAt := errorUpdatedAt st; failureCount := failureCount st;
     failureReason := failureReason st; fetchStatus := Fetching;
     isInvalidated := isInvalidated st; status := status st |}.

Definition setSuccess (now : Z) (d : option JSON) (st : QueryState) : QueryState :=
  {| data := d; dataUpdatedAt := now; error := None; errorUpdatedAt := 0;
     failureCount := 0%nat; failureReason := None; fetchStatus := Idle;
     isInvalidated := isInvalidated st; status := StatusSuccess |}.

Definition setError (now : Z) (err : Thrown) (st : QueryState) : QueryState :=
  {| data := data st; dataUpdatedAt := dataUpdatedAt st; error := error_field err;
     errorUpdatedAt := now; failureCount := S (failureCount st);
     failureReason := error_field err; fetchStatus := Idle;
     isInvalidated := isInvalidated st; status := StatusError |}.

(** The write of [invalidateQueries]. *)
Definition setInvalidated (st : QueryState) : QueryState :=
  {| data := data st; dataUpdatedAt := dataUpdatedAt st; error := error st;
     errorUpdatedAt := errorUpdatedAt st; failureCount := failureCount st;
     failureReason := failureReason st; fetchStatus := fetchStatus st;
     isInvalidated := true; status := status st |}.

(** The call of the query function that a fetch with these options and this
    signal makes. *)
Definition invocationOf (options : QueryOptions) (signal : nat) : Invocation :=
  {| invokedFn := queryFn options; invokedKey := queryKey options;
     invokedSignal := signal; invokedMeta := meta options |}.

(** An environment in which the query function of the suspended call [fid]
    always rejects with [err]: while the call is suspended, its pending
    promise is rejected and its back-off delay elapses.  [fuel] bounds the
    number of events. *)
Fixpoint alwaysRejects (fuel : nat) (now : Z) (fid : nat) (err : Thrown) (s : System)
    : System :=
  match fuel with
  | O => s
  | S fuel' =>
      match frames s !! fid with
      | None => s
      | Some fr =>
          match framePhase fr with
          | AwaitingFn =>
              alwaysRejects fuel' now fid err (step now (FnSettles fid (Rejected err)) s)
          | AwaitingDelay ms =>
              alwaysRejects fuel' (now + ms) fid err (step (now + ms) (DelayElapses fid) s)
          end
      end
  end.

(** The call [fid] is suspended in phase [ph] of attempt [a], on the entry
    [e], with a signal [c] that is not aborted. *)
Definition inflight (fid e c : nat) (options : QueryOptions) (caller : Caller)
    (a : nat) (ph : Phase) (s : System) : Prop :=
  frames s !! fid =
    Some {| frameEntry := e; frameOptions := options; frameSignal := c;
            frameAttempt := a; framePhase := ph; frameCaller := caller |}
  /\ aborted s !! c = Some false
  /\ is_Some (heap s !! e).

(** The events left before a call in attempt [a] of [n] retries gives up. *)
Definition eventsLeft (n a : nat) (ph : Phase) : nat :=
  match ph with
  | AwaitingFn => 2 * (n - a) + 1
  | AwaitingDelay _ => 2 * (n - a)
  end.

(** The status of the entry of a key; an entry that does not exist yet is
    created pending. *)
Definition statusOf (k : QueryKey) (s : System) : QueryStatus :=
  default StatusPending (status <$> stateOf k s).



Definition withRefetchInterval (ms : Z) (o : QueryOptions) : QueryOptions :=
  {| queryKey := queryKey o; queryFn := queryFn o; enabled := enabled o;
     retry := retry o; retryDelay := retryDelay o; staleTime := staleTime o;
     gcTime := gcTime o; refetchInterval := Some ms; select := select o;
     meta := meta o; onSuccess := onSuccess o; onError := onError o;
     onSettled := onSettled o |}.

(** Every result an observer has been notified with was built by
    [buildQueryResult]. *)
Definition built (s : System) : Prop :=
  Forall (fun p => exists now st options, snd p = buildQueryResult now st options)
         (notified s).

(** The retry policy allows exactly the first [n] failures with [err] to be
    retried: the reading of [options.retry ?? 3] by [executeWithRetry]. *)
Definition retryBudget (r : option RetryOption) (err : Thrown) (n : nat) : Prop :=
  match r with
  | None => n = 3%nat
  | Some (RetryCount z) => n = Z.to_nat z
  | Some (RetryBool b) => n = if b then 3%nat else 0%nat
  | Some (RetryFn f) => forall a, f a err = bool_decide (a < n)%nat
  end.

(** The call a deferred callback makes when it runs against the heap [h]:
    [onSettled] reads the entry's data and error at that moment. *)
Definition callOf (h : gmap nat QueryCacheEntry) (t : Task) : CallbackCall :=
  match t with
  | TaskOnSuccess options d => CalledOnSuccess (queryKey options) d
  | TaskOnError options err => CalledOnError (queryKey options) err
  | TaskOnSettled options e =>
      CalledOnSettled (queryKey options)
        (h !! e ≫= fun en => data (state en))
        (h !! e ≫= fun en => error (state en))
  end.

(** A queued callback has a flush scheduled. *)
Definition scheduled (s : System) : Prop :=
  queue s = [] \/ isPending s = true.

(** [clearTimeout(t)] on an optional handle, and [controller.abort()] on an
    optional controller: the writes of [cleanupQuery]. *)
Definition clearSome (o : option nat) (tm : gmap nat Timer) : gmap nat Timer :=
  match o with
  | Some t => delete t tm
  | None => tm
  end.

Definition abortSome (o : option nat) (ab : gmap nat bool) : gmap nat bool :=
  match o with
  | Some c => <[c := true]> ab
  | None => ab
  end.

(** The entry [e] was made for the key of [options]: the reference is older
    than the next one, and the cache stores it under no other key. *)
Definition owned (e : nat) (options : QueryOptions) (s : System) : Prop :=
  (e < nextId s)%nat
  /\ forall key, cache s !! key = Some e -> key = getQueryKey (queryKey options).

(** References are handed out once.  The ones the cache and the entries
    hold, and those of the observers, are older than the next one, two keys
    never share an entry object,
    and the entry of a suspended call is stored, if at all, under the key of
    the call. *)
Record tidy (s : System) : Prop := mkTidy {
  tidy_cache : forall key e, cache s !! key = Some e -> (e < nextId s)%nat;
  tidy_apart : forall k1 k2 e,
    cache s !! k1 = Some e -> cache s !! k2 = Some e -> k1 = k2;
  tidy_controllers : forall e en c,
    heap s !! e = Some en -> abortController en = Some c -> (c < nextId s)%nat;
  tidy_observers : forall e en ob,
    heap s !! e = Some en -> ob ∈ observers en -> (observerId ob < nextId s)%nat;
  tidy_frames : forall fid fr,
    frames s !! fid = Some fr -> owned (frameEntry fr) (frameOptions fr) s
}.

(** [tidy], with the references [L] and the entries [W] that the running
    method holds. *)
Definition neat (L : list nat) (W : list (nat * QueryOptions)) (s : System) : Prop :=
  tidy s
  /\ (forall x, x ∈ L -> (x < nextId s)%nat)
  /\ (forall e o, (e, o) ∈ W -> owned e o s).

(** The entry object stored under a serialized key. *)
Definition entryOf (key : string) (s : System) : option QueryCacheEntry :=
  e ← cache s !! key; heap s !! e.

(** The cache is [c0] and the entry object [e'] is [h0]. *)
Definition aside (c0 : gmap string nat) (e' : nat) (h0 : option QueryCacheEntry)
    (s : System) : Prop :=
  cache s = c0 /\ heap s !! e' = h0.

(** The serialized keys an event is about: the key of the options or of the
    argument of a call ([getQueryData] drops its key when the key has
    outlived the age limit of the cache), every key for a call without one, the key of the
    entry an [unsubscribe] closure holds, the key of the options of a
    suspended call or of a timer. *)
Definition concerns (ev : Event) (s : System) (key : string) : bool :=
  match ev with
  | CallFetchQuery o | CallRefetch o | CallSubscribeToQuery o =>
      bool_decide (key = getQueryKey (queryKey o))
  | CallUnsubscribe e _ _ => bool_decide (cache s !! key = Some e)
  | CallInvalidateQueries k | CallRemoveQueries k =>
      match k with
      | Some qk => if truthy qk then bool_decide (key = getQueryKey qk) else true
      | None => true
      end
  | CallSetQueryData k _ => bool_decide (key = getQueryKey k)
  | CallGetQueryData k => bool_decide (key = getQueryKey k)
  | CallClear => true
  | FnSettles fid _ =>
      match frames s !! fid with
      | Some fr => bool_decide (key = getQueryKey (queryKey (frameOptions fr)))
      | None => false
      end
  | DelayElapses _ => false
  | TimerFires t =>
      match timers s !! t with
      | Some (RefetchTimer o _) | Some (GcAfterFetch _ o _)
      | Some (GcAfterUnsubscribe o _) =>
          bool_decide (key = getQueryKey (queryKey o))
      | None => false
      end
  | MicrotaskFlush => false
  end.

(* ================================================================== *)
(** ** The mutation executor of [useMutation] *)
(* ================================================================== *)

(** One component that called [useMutation].  Its state is a React state
    written through functional updates, which React applies in the order
    they were queued; the model applies each one where it is queued.
    [executeMutation] is suspended at [await onMutate(...)], at
    [await fn()] and at the back-off delay of the module-level
    [executeWithRetry].  The callbacks are user code: the model records the
    tasks handed to [defer], and [callsOf] lists the calls a task makes when
    it runs. *)
Module Mutation.

(** [status: 'idle' | 'pending' | 'error' | 'success'] *)
Inductive MutationStatus : Type :=
| MutationIdle | MutationPending | MutationError | MutationSuccess.

#[global] Instance MutationStatus_eq_dec : EqDecision MutationStatus.
Proof. solve_decision. Defined.

(** [interface MutationState] *)
Record MutationState : Type := mkMutationState {
  data : option JSON;
  error : option Thrown;
  failureCount : nat;
  failureReason : option Thrown;
  isError : bool;
  isIdle : bool;
  isPending : bool;
  isSuccess : bool;
  status : MutationStatus;
  variables : option JSON;
  submittedAt : Z;
  context : option JSON
}.

(** [interface MutationOptions], the fields [executeMutation] reads.
    [mutationFn] is the identity of the user's function; a callback field
    says whether the callback was given. *)
Record MutationOptions : Type := mkMutationOptions {
  mutationFn : nat;
  onMutate : bool;
  onSuccess : bool;
  onError : bool;
  onSettled : bool;
  retry : option RetryOption;
  retryDelay : option RetryDelayOption
}.

(** [interface MutateOptions], the second argument of [mutate]. *)
Record MutateOptions : Type := mkMutateOptions {
  mutateOnSuccess : bool;
  mutateOnError : bool;
  mutateOnSettled : bool
}.

(** Whose callback is called: one of the hook's options, or one of the
    options of the [mutate] call. *)
Inductive Owner : Type := OfHook | OfCall.

Inductive CallbackCall : Type :=
| CalledOnSuccess (owner : Owner) (d variables context : option JSON)
| CalledOnError (owner : Owner) (err : Thrown) (variables context : option JSON)
| CalledOnSettled (owner : Owner) (d : option JSON) (err : option Thrown)
    (variables context : option JSON).

(** The two functions handed to [defer]. *)
Inductive Task : Type :=
| TaskSucceeded (options : MutationOptions) (mutateOptions : option MutateOptions)
    (d variables context : option JSON)
| TaskFailed (options : MutationOptions) (mutateOptions : option MutateOptions)
    (err : Thrown) (variables context : option JSON).

(** [mutateOptions?.onSuccess] and its like *)
Definition given (f : MutateOptions -> bool) (mutateOptions : option MutateOptions) : bool :=
  match mutateOptions with
  | Some o => f o
  | None => false
  end.

(** The calls of a deferred function, in the order of its [if]s. *)
Definition chainOf (t : Task) : list CallbackCall :=
  match t with
  | TaskSucceeded options mo d v ctx =>
      (if onSuccess options then [CalledOnSuccess OfHook d v ctx] else [])
      ++ (if given mutateOnSuccess mo then [CalledOnSuccess OfCall d v ctx] else [])
      ++ (if onSettled options then [CalledOnSettled OfHook d None v ctx] else [])
      ++ (if given mutateOnSettled mo then [CalledOnSettled OfCall d None v ctx] else [])
  | TaskFailed options mo err v ctx =>
      (if onError options then [CalledOnError OfHook err v ctx] else [])
      ++ (if given mutateOnError mo then [CalledOnError OfCall err v ctx] else [])
      ++ (if onSettled options then [CalledOnSettled OfHook None (error_field err) v ctx]
          else [])
      ++ (if given mutateOnSettled mo
          then [CalledOnSettled OfCall None (error_field err) v ctx] else [])
  end.

(** Each call is awaited: a callback that throws, or whose promise is
    rejected, ends the deferred function. *)
Fixpoint upToThrow (throws : CallbackCall -> bool) (chain : list CallbackCall)
    : list CallbackCall :=
  match chain with
  | [] => []
  | c :: rest => c :: (if throws c then [] else upToThrow throws rest)
  end.

(** The calls the deferred function makes when it runs. *)
Definition callsOf (throws : CallbackCall -> bool) (t : Task) : list CallbackCall :=
  upToThrow throws (chainOf t).

Inductive Phase : Type :=
| AwaitingOnMutate
| AwaitingFn
| AwaitingDelay (ms : Z).

(** [mutate] or [mutateAsync] *)
Inductive Kind : Type := Mutate | MutateAsync.

(** A suspended [executeMutation] call. *)
Record Frame : Type := mkFrame {
  frameOptions : MutationOptions;
  frameMutateOptions : option MutateOptions;
  frameVariables : option JSON;
  frameContext : option JSON;
  frameAttempt : nat;
  framePhase : Phase;
  frameKind : Kind
}.

(** The component: its state, [isMountedRef.current], the suspended calls,
    and the logs of what it did: the calls of [onMutate] and of
    [mutationFn], the functions handed to [defer], and how the promise of
    each [executeMutation] call settled. *)
Record Hook : Type := mkHook {
  state : MutationState;
  isMounted : bool;
  frames : gmap nat Frame;
  nextId : nat;
  onMutateCalls : list (option JSON);
  calls : list (nat * option JSON);
  deferred : list Task;
  promises : list (nat * Kind * Outcome)
}.

(** The argument of [useState]; [reset] writes it again. *)
Definition initialState : MutationState :=
  {| data := None; error := None; failureCount := 0; failureReason := None;
     isError := false; isIdle := true; isPending := false; isSuccess := false;
     status := MutationIdle; variables := None; submittedAt := 0; context := None |}.

Definition useMutation : Hook :=
  {| state := initialState; isMounted := true; frames := ∅; nextId := 0;
     onMutateCalls := []; calls := []; deferred := []; promises := [] |}.

(** The three functional updates of [executeMutation]. *)
Definition toPending (now : Z) (v ctx : option JSON) (prev : MutationState)
    : MutationState :=
  {| data := data prev; error := error prev; failureCount := failureCount prev;
     failureReason := failureReason prev; isError := isError prev; isIdle := false;
     isPending := true; isSuccess := isSuccess prev; status := MutationPending;
     variables := v; submittedAt := now; context := ctx |}.

Definition toSuccess (d : option JSON) (prev : MutationState) : MutationState :=
  {| data := d; error := None; failureCount := 0; failureReason := None;
     isError := false; isIdle := isIdle prev; isPending := false; isSuccess := true;
     status := MutationSuccess; variables := variables prev;
     submittedAt := submittedAt prev; context := context prev |}.

Definition toError (err : Thrown) (prev : MutationState) : MutationState :=
  {| data := data prev; error := error_field err;
     failureCount := S (failureCount prev); failureReason := error_field err;
     isError := true; isIdle := isIdle prev; isPending := false; isSuccess := false;
     status := MutationError; variables := variables prev;
     submittedAt := submittedAt prev; context := context prev |}.

Definition setState (f : MutationState -> MutationState) (h : Hook) : Hook :=
  {| state := f (state h); isMounted := isMounted h; frames := frames h;
     nextId := nextId h; onMutateCalls := onMutateCalls h; calls := calls h;
     deferred := deferred h; promises := promises h |}.

Definition setMounted (b : bool) (h : Hook) : Hook :=
  {| state := state h; isMounted := b; frames := frames h;
     nextId := nextId h; onMutateCalls := onMutateCalls h; calls := calls h;
     deferred := deferred h; promises := promises h |}.

Definition setFrames (f : gmap nat Frame -> gmap nat Frame) (h : Hook) : Hook :=
  {| state := state h; isMounted := isMounted h; frames := f (frames h);
     nextId := nextId h; onMutateCalls := onMutateCalls h; calls := calls h;
     deferred := deferred h; promises := promises h |}.

(** [onMutate(variables)] is called. *)
Definition callOnMutate (v : option JSON) (h : Hook) : Hook :=
  {| state := state h; isMounted := isMounted h; frames := frames h;
     nextId := nextId h; onMutateCalls := onMutateCalls h ++ [v]; calls := calls h;
     deferred := deferred h; promises := promises h |}.

(** [mutationFn(variables)] is called. *)
Definition callMutationFn (options : MutationOptions) (v : option JSON) (h : Hook) : Hook :=
  {| state := state h; isMounted := isMounted h; frames := frames h;
     nextId := nextId h; onMutateCalls := onMutateCalls h;
     calls := calls h ++ [(mutationFn options, v)];
     deferred := deferred h; promises := promises h |}.

Definition defer (t : Task) (h : Hook) : Hook :=
  {| state := state h; isMounted := isMounted h; frames := frames h;
     nextId := nextId h; onMutateCalls := onMutateCalls h; calls := calls h;
     deferred := deferred h ++ [t]; promises := promises h |}.

(** The promise of the call [fid] settles and the call is over. *)
Definition settle (fid : nat) (kind : Kind) (o : Outcome) (h : Hook) : Hook :=
  {| state := state h; isMounted := isMounted h; frames := delete fid (frames h);
     nextId := nextId h; onMutateCalls := onMutateCalls h; calls := calls h;
     deferred := deferred h; promises := promises h ++ [(fid, kind, o)] |}.

Definition whenMounted (f : MutationState -> MutationState) (h : Hook) : Hook :=
  if isMounted h then setState f h else h.

(** [executeMutation] from the write of the pending state to its
    suspension in [executeWithRetry], at [await fn()]. *)
Definition start (now : Z) (fid : nat) (fr : Frame) (ctx : option JSON) (h : Hook) : Hook :=
  let h1 := setState (toPending now (frameVariables fr) ctx) h in
  let h2 := callMutationFn (frameOptions fr) (frameVariables fr) h1 in
  setFrames <[fid :=
    {| frameOptions := frameOptions fr; frameMutateOptions := frameMutateOptions fr;
       frameVariables := frameVariables fr; frameContext := ctx;
       frameAttempt := 0; framePhase := AwaitingFn; frameKind := frameKind fr |}]> h2.

(** [mutate(variables, mutateOptions)] or [mutateAsync(...)], while the
    component renders with [options]: [executeMutation] up to its first
    suspension. *)
Definition call (now : Z) (kind : Kind) (options : MutationOptions) (v : option JSON)
    (mo : option MutateOptions) (h : Hook) : Hook :=
  let fid := nextId h in
  let h0 :=
    {| state := state h; isMounted := isMounted h; frames := frames h;
       nextId := S (nextId h); onMutateCalls := onMutateCalls h; calls := calls h;
       deferred := deferred h; promises := promises h |} in
  let fr :=
    {| frameOptions := options; frameMutateOptions := mo; frameVariables := v;
       frameContext := None; frameAttempt := 0; framePhase := AwaitingOnMutate;
       frameKind := kind |} in
  if negb (isMounted h) then
    settle fid kind (Rejected (ErrorObject "Error" "Component unmounted")) h0
  else if onMutate options then
    setFrames <[fid := fr]> (callOnMutate v h0)
  else start now fid fr None h0.

(** The promise of [onMutate] settles.  A rejection leaves
    [executeMutation] before its [try]. *)
Definition onMutateSettles (now : Z) (fid : nat) (o : Outcome) (h : Hook) : Hook :=
  match frames h !! fid with
  | Some fr =>
      match framePhase fr with
      | AwaitingOnMutate =>
          match o with
          | Resolved ctx => start now fid fr ctx h
          | Rejected err => settle fid (frameKind fr) (Rejected err) h
          end
      | _ => h
      end
  | None => h
  end.

(** After [executeWithRetry] returned [d]. *)
Definition succeeded (fid : nat) (fr : Frame) (d : option JSON) (h : Hook) : Hook :=
  let h1 := whenMounted (toSuccess d) h in
  let h2 := defer (TaskSucceeded (frameOptions fr) (frameMutateOptions fr) d
                     (frameVariables fr) (frameContext fr)) h1 in
  settle fid (frameKind fr) (Resolved d) h2.

(** The [catch] block, after [executeWithRetry] threw [err]. *)
Definition failed (fid : nat) (fr : Frame) (err : Thrown) (h : Hook) : Hook :=
  let h1 := whenMounted (toError err) h in
  let h2 := defer (TaskFailed (frameOptions fr) (frameMutateOptions fr) err
                     (frameVariables fr) (frameContext fr)) h1 in
  settle fid (frameKind fr) (Rejected err) h2.

(** The promise of [mutationFn] settles: the [try] and the [catch] of the
    module-level [executeWithRetry], called with [retry ?? false]. *)
Definition fnSettles (fid : nat) (o : Outcome) (h : Hook) : Hook :=
  match frames h !! fid with
  | Some fr =>
      match framePhase fr with
      | AwaitingFn =>
          match o with
          | Resolved d => succeeded fid fr d h
          | Rejected err =>
              let options := frameOptions fr in
              if shouldRetry (default (RetryBool false) (retry options))
                   (frameAttempt fr) err
              then
                let delay := retryDelayOf (retryDelay options) (frameAttempt fr) err in
                setFrames <[fid :=
                  {| frameOptions := options;
                     frameMutateOptions := frameMutateOptions fr;
                     frameVariables := frameVariables fr;
                     frameContext := frameContext fr;
                     frameAttempt := frameAttempt fr;
                     framePhase := AwaitingDelay delay; frameKind := frameKind fr |}]> h
              else failed fid fr err h
          end
      | _ => h
      end
  | None => h
  end.

(** The back-off delay is over: [attempt++] and the loop calls [fn()]
    again. *)
Definition delayElapses (fid : nat) (h : Hook) : Hook :=
  match frames h !! fid with
  | Some fr =>
      match framePhase fr with
      | AwaitingDelay _ =>
          setFrames <[fid :=
            {| frameOptions := frameOptions fr;
               frameMutateOptions := frameMutateOptions fr;
               frameVariables := frameVariables fr;
               frameContext := frameContext fr;
               frameAttempt := S (frameAttempt fr);
               framePhase := AwaitingFn; frameKind := frameKind fr |}]>
            (callMutationFn (frameOptions fr) (frameVariables fr) h)
      | _ => h
      end
  | None => h
  end.

Definition reset (h : Hook) : Hook := setState (fun _ => initialState) h.

Inductive Event : Type :=
| Call (kind : Kind) (options : MutationOptions) (variables : option JSON)
    (mutateOptions : option MutateOptions)
| OnMutateSettles (frame : nat) (o : Outcome)
| FnSettles (frame : nat) (o : Outcome)
| DelayElapses (frame : nat)
| Reset
| Mount
| Unmount.

Definition step (now : Z) (ev : Event) (h : Hook) : Hook :=
  match ev with
  | Call kind options v mo => call now kind options v mo h
  | OnMutateSettles fid o => onMutateSettles now fid o h
  | FnSettles fid o => fnSettles fid o h
  | DelayElapses fid => delayElapses fid h
  | Reset => reset h
  | Mount => setMounted true h
  | Unmount => setMounted false h
  end.

Fixpoint run (trace : list (Z * Event)) (h : Hook) : Hook :=
  match trace with
  | [] => h
  | (now, ev) :: rest => run rest (step now ev h)
  end.

(** The states the component can be in. *)
Definition reachable (h : Hook) : Prop :=
  exists trace, h = run trace useMutation.

(** How many times the mutation function [fn] has been called. *)
Definition invocations (fn : nat) (h : Hook) : nat :=
  length (filter (fun c => fst c = fn) (calls h)).

(** The rejections the caller of [mutateAsync] gets.  [mutate] chains
    [.catch(() => {})] and returns nothing. *)
Definition rejections (h : Hook) : list (nat * Thrown) :=
  omap (fun p =>
          match p with
          | (fid, MutateAsync, Rejected err) => Some (fid, err)
          | _ => None
          end) (promises h).

(** The flags of a state say what its status says. *)
Definition settledFlags (st : MutationState) : Prop :=
  (isPending st = true <-> status st = MutationPending)
  /\ (status st = MutationIdle -> st = initialState)
  /\ (status st = MutationSuccess ->
      isSuccess st = true /\ isError st = false /\ error st = None
      /\ failureCount st = 0%nat)
  /\ (status st = MutationError ->
      isError st = true /\ isSuccess st = false /\ (0 < failureCount st)%nat).

(** The frame of a call that is in attempt [a] and phase [ph]. *)
Definition frameAt (options : MutationOptions) (mo : option MutateOptions)
    (v ctx : option JSON) (kind : Kind) (a : nat) (ph : Phase) : Frame :=
  {| frameOptions := options; frameMutateOptions := mo; frameVariables := v;
     frameContext := ctx; frameAttempt := a; framePhase := ph; frameKind := kind |}.

(** An environment in which the mutation function of the suspended call
    [fid] always rejects with [err]. *)
Fixpoint alwaysRejects (fuel : nat) (fid : nat) (err : Thrown) (h : Hook) : Hook :=
  match fuel with
  | O => h
  | S fuel' =>
      match frames h !! fid with
      | None => h
      | Some fr =>
          match framePhase fr with
          | AwaitingOnMutate => h
          | AwaitingFn => alwaysRejects fuel' fid err (fnSettles fid (Rejected err) h)
          | AwaitingDelay _ => alwaysRejects fuel' fid err (delayElapses fid h)
          end
      end
  end.

End Mutation.

(* ================================================================== *)
(** ** Key factories and the first render of [useQuery] *)
(* ================================================================== *)

(** [[...key]]: the elements of an array key; a string spreads into its
    characters. *)
Definition spread (k : QueryKey) : list JSON :=
  match k with
  | KeyArray items => items
  | KeyString s => (fun c => JStr (String c EmptyString)) <$> String.list_ascii_of_string s
  end.


Module Keys.

(** [interface QueryKeyManager] *)
Record QueryKeyManager : Type := mkQueryKeyManager {
  all : QueryKey;
  lists : unit -> QueryKey;
  list : JSON -> QueryKey;
  details : unit -> QueryKey;
  detail : JSON -> QueryKey;
  infinite : JSON -> QueryKey
}.

Definition createQueryKeys (resource : string) : QueryKeyManager :=
  {| all := KeyArray [JStr resource];
     lists := fun _ => KeyArray [JStr resource; JStr "list"];
     list := fun filters => KeyArray [JStr resource; JStr "list"; filters];
     details := fun _ => KeyArray [JStr resource; JStr "detail"];
     detail := fun id => KeyArray [JStr resource; JStr "detail"; id];
     infinite := fun filters => KeyArray [JStr resource; JStr "infinite"; filters] |}.

(** The exported [queryKeys]: each key is built from the one before it. *)
Definition queryKeys : QueryKeyManager :=
  let all_ := KeyArray [JStr "queries"] in
  let lists_ := fun _ : unit => KeyArray (spread all_ ++ [JStr "list"]) in
  let details_ := fun _ : unit => KeyArray (spread all_ ++ [JStr "detail"]) in
  {| all := all_;
     lists := lists_;
     list := fun filters => KeyArray (spread (lists_ tt) ++ [filters]);
     details := details_;
     detail := fun id => KeyArray (spread (details_ tt) ++ [id]);
     infinite := fun filters => KeyArray (spread all_ ++ [JStr "infinite"; filters]) |}.

(** The six keys of a factory, serialized. *)
Definition serialized (m : QueryKeyManager) (filters id filters' : JSON)
    : Datatypes.list string :=
  [getQueryKey (all m); getQueryKey (lists m tt); getQueryKey (list m filters);
   getQueryKey (details m tt); getQueryKey (detail m id);
   getQueryKey (infinite m filters')].

End Keys.

(* ================================================================== *)
(** ** The limits of the cache *)
(* ================================================================== *)

(** The constructor builds the cache as
    [new LRUCache({ max, ttl, dispose })], with [max] 1000 and [ttl] five
    minutes unless the configuration gives other values, and [dispose] the
    client's [cleanupQuery].  The package stamps a key with the time of its
    [set].  Its [get] of a key that is older than [ttl] deletes the key,
    which disposes of the entry, and returns [undefined]; its [set] of a new
    key into a cache that holds [max] keys evicts one.  The client above is
    the client as long as the key looked up has not reached that age and the
    cache is not full. *)
Definition defaultTtl : Z := 5 * 60 * 1000.

Definition cacheMax : nat := 1000.

(** The lookups of the client with the age limit of the cache: [ttl] is the
    limit, [starts] the time at which each key was set and [now] the time of
    the lookup, all on the clock of the cache. *)
Module Lru.
Section Aged.
Variable ttl : Z.
Variable starts : gmap string Z.
Variable now : Z.

(** A [ttl] of zero sets no limit. *)
Definition isStale (key : string) : bool :=
  match starts !! key with
  | Some start => bool_decide (0 < ttl) && bool_decide (now - start > ttl)
  | None => false
  end.

(** The cache's [get]. *)
Definition get (key : string) : M (option nat) :=
  let* found := gets (fun s => cache s !! key) in
  match found with
  | Some e =>
      if isStale key then cacheDelete key ;; ret None
      else ret (Some e)
  | None => ret None
  end.

Definition getQueryData (k : QueryKey) : M (option JSON) :=
  let* found := get (getQueryKey k) in
  match found with
  | Some e =>
      let* entry := deref e in
      ret (entry ≫= fun en => data (state en))
  | None => ret None
  end.
End Aged.
End Lru.

(* ================================================================== *)
(** ** A deferred callback that throws *)
(* ================================================================== *)

(** [queue.forEach(cb => cb())] with callbacks that may throw: [throws]
    tells of which ones the call ends in an exception.  The callbacks are
    called in order up to the first that throws; the result tells whether
    all of them returned. *)
Fixpoint queueForEach (throws : Task -> bool) (q : list Task) : M bool :=
  match q with
  | [] => ret true
  | t :: rest =>
      runTask t ;;
      if throws t then ret false else queueForEach throws rest
  end.

(** batching.ts, the microtask.  An exception leaves [forEach] and the
    microtask at once, so [queue.clear()] is reached only when every
    callback has returned. *)
Definition microtaskFlushWith (throws : Task -> bool) : M unit :=
  let* p := gets isPending in
  when p
    (modify (upd_isPending false) ;;
     let* q := gets queue in
     let* returned := queueForEach throws q in
     when returned (modify (upd_queue (fun _ => [])))).

(** A turn of the event loop: an event whose callbacks return, or a flush
    with callbacks that may throw. *)
Inductive Turn : Type :=
| Plain (now : Z) (ev : Event)
| Flush (throws : Task -> bool).

Definition turn (t : Turn) (s : System) : System :=
  match t with
  | Plain now ev => step now ev s
  | Flush throws => exec (microtaskFlushWith throws) s
  end.

Fixpoint turns (ts : list Turn) (s : System) : System :=
  match ts with
  | [] => s
  | t :: rest => turns rest (turn t s)
  end.

(** No callback the flush calls throws. *)
Definition returns (throws : Task -> bool) (s : System) : Prop :=
  forall task, task ∈ queue s -> throws task = false.

(** No callback throws in the course of the turns [ts] from [s]. *)
Fixpoint calm (ts : list Turn) (s : System) : Prop :=
  match ts with
  | [] => True
  | t :: rest =>
      match t with
      | Plain _ _ => True
      | Flush throws => returns throws s
      end
      /\ calm rest (turn t s)
  end.

(** The callbacks of a queue up to and with the first one that throws. *)
Fixpoint calledUpToThrow (throws : Task -> bool) (q : list Task) : list Task :=
  match q with
  | [] => []
  | t :: rest => t :: (if throws t then [] else calledUpToThrow throws rest)
  end.

(* ================================================================== *)
(** ** Reasoning about the monad *)
(* ================================================================== *)

Lemma exec_bind {A B : Type} (m : M A) (k : A -> M B) (s : System) :
  exec (bind m k) s = exec (k (eval m s)) (exec m s).
Proof. unfold exec, eval, bind. destruct (m s); reflexivity. Qed.

Lemma eval_bind {A B : Type} (m : M A) (k : A -> M B) (s : System) :
  eval (bind m k) s = eval (k (eval m s)) (exec m s).
Proof. unfold exec, eval, bind. destruct (m s); reflexivity. Qed.

Lemma exec_ret {A : Type} (a : A) (s : System) : exec (ret a) s = s.
Proof. reflexivity. Qed.

Lemma exec_gets {A : Type} (f : System -> A) (s : System) : exec (gets f) s = s.
Proof. reflexivity. Qed.

Lemma eval_gets {A : Type} (f : System -> A) (s : System) : eval (gets f) s = f s.
Proof. reflexivity. Qed.

Lemma exec_modify (f : System -> System) (s : System) : exec (modify f) s = f s.
Proof. reflexivity. Qed.

Section Preserves.
Context {A : Type} (f : System -> A).

Lemma preserves_ret {B : Type} (b : B) : preserves f (ret b).
Proof. intros s; reflexivity. Qed.

Lemma preserves_gets {B : Type} (g : System -> B) : preserves f (gets g).
Proof. intros s; reflexivity. Qed.

Lemma preserves_bind {B C : Type} (m : M B) (k : B -> M C) :
  preserves f m -> (forall b, preserves f (k b)) -> preserves f (bind m k).
Proof. intros Hm Hk s. rewrite exec_bind, Hk, Hm. reflexivity. Qed.

Lemma preserves_when (b : bool) (m : M unit) :
  preserves f m -> preserves f (when b m).
Proof. intros Hm. destruct b; [exact Hm | apply preserves_ret]. Qed.

Lemma preserves_whenSome {B : Type} (o : option B) (k : B -> M unit) :
  (forall b, preserves f (k b)) -> preserves f (whenSome o k).
Proof. intros Hk. destruct o; [apply Hk | apply preserves_ret]. Qed.

Lemma preserves_foldr {B : Type} (body : B -> M unit) (l : list B) :
  (forall b, preserves f (body b)) ->
  preserves f (foldr (fun b rest => bind (body b) (fun _ => rest)) (ret tt) l).
Proof.
  intros Hb. induction l as [|b l IH]; simpl.
  - apply preserves_ret.
  - apply preserves_bind; [apply Hb | intros _; exact IH].
Qed.
End Preserves.

Ltac head_of t :=
  lazymatch t with
  | ?f _ => head_of f
  | _ => t
  end.

(** Decompose a frame goal along the structure of the method. *)
Ltac frame :=
  lazymatch goal with
  | |- preserves _ (bind _ _) => apply preserves_bind; [frame | intros; frame]
  | |- preserves _ (ret _) => apply preserves_ret
  | |- preserves _ (gets _) => apply preserves_gets
  | |- preserves _ (when _ _) => apply preserves_when; frame
  | |- preserves _ (whenSome _ _) => apply preserves_whenSome; intros; frame
  | |- preserves _ (foldr _ _ _) => apply preserves_foldr; intros; frame
  | |- preserves _ (modify _) => intros ?; reflexivity
  | |- preserves _ fresh => intros ?; reflexivity
  | |- preserves _ (match ?x with _ => _ end) => destruct x; frame
  | |- preserves _ ?m =>
      let h := head_of m in unfold h; frame
  end.

(* ================================================================== *)
(** ** References stay valid *)
(* ================================================================== *)

Section Keeps.
Context (P : System -> Prop).

Lemma keeps_ret {B : Type} (b : B) : keeps P (ret b).
Proof. intros s H; exact H. Qed.

Lemma keeps_gets {B : Type} (g : System -> B) : keeps P (gets g).
Proof. intros s H; exact H. Qed.

Lemma keeps_bind {B C : Type} (m : M B) (k : B -> M C) :
  keeps P m -> (forall b, keeps P (k b)) -> keeps P (bind m k).
Proof. intros Hm Hk s H. rewrite exec_bind. apply Hk, Hm, H. Qed.

Lemma keeps_when (b : bool) (m : M unit) : keeps P m -> keeps P (when b m).
Proof. intros Hm. destruct b; [exact Hm | apply keeps_ret]. Qed.

Lemma keeps_whenSome {B : Type} (o : option B) (k : B -> M unit) :
  (forall b, keeps P (k b)) -> keeps P (whenSome o k).
Proof. intros Hk. destruct o; [apply Hk | apply keeps_ret]. Qed.

Lemma keeps_foldr {B : Type} (body : B -> M unit) (l : list B) :
  (forall b, keeps P (body b)) ->
  keeps P (foldr (fun b rest => bind (body b) (fun _ => rest)) (ret tt) l).
Proof.
  intros Hb. induction l as [|b l IH]; simpl.
  - apply keeps_ret.
  - apply keeps_bind; [apply Hb | intros _; exact IH].
Qed.
End Keeps.

Section Safe.
Context (L : list nat).









End Safe.


(** Decompose an invariance goal along the structure of the method; [leaf]
    settles the primitive steps. *)
Ltac walk leaf :=
  lazymatch goal with
  | |- keeps _ (bind _ _) => apply keeps_bind; [walk leaf | intros; walk leaf]
  | |- keeps _ (ret _) => apply keeps_ret
  | |- keeps _ (gets _) => apply keeps_gets
  | |- keeps _ (when _ _) => apply keeps_when; walk leaf
  | |- keeps _ (whenSome _ _) => apply keeps_whenSome; intros; walk leaf
  | |- keeps _ (foldr _ _ _) => apply keeps_foldr; intros; walk leaf
  | |- keeps _ (match ?x with _ => _ end) => destruct x; walk leaf
  | |- keeps _ ?m =>
      first [ solve [leaf] | let h := head_of m in unfold h; walk leaf ]
  end.












Lemma closed_safe (s : System) : closed s <-> safe [] s.
Proof.
  split; [intros H; split; [exact H | intros e He; inversion He] | intros [H _]; exact H].
Qed.

Lemma closed_newQueryClient : closed newQueryClient.
Proof. split; intros *; simpl; rewrite lookup_empty; discriminate. Qed.




(* ================================================================== *)
(** ** What the methods do to the store *)
(* ================================================================== *)

Lemma getQueryEntry_found (k : QueryKey) (s : System) (e : nat) :
  cache s !! getQueryKey k = Some e -> getQueryEntry k s = (e, s).
Proof. intros H. unfold getQueryEntry, bind, gets, ret. rewrite H. reflexivity. Qed.

Lemma getQueryEntry_missing (k : QueryKey) (s : System) :
  cache s !! getQueryKey k = None ->
  getQueryEntry k s =
    (nextId s,
     upd_cache <[getQueryKey k := nextId s]>
       (upd_heap <[nextId s := initialEntry]> (upd_nextId S s))).
Proof. intros H. unfold getQueryEntry, bind, gets, ret. rewrite H. reflexivity. Qed.

(** After [getQueryEntry] the key is stored, and it is bound to the result. *)
Lemma getQueryEntry_stored (k : QueryKey) (s : System) :
  cache (exec (getQueryEntry k) s) !! getQueryKey k = Some (eval (getQueryEntry k) s).
Proof.
  unfold exec, eval. destruct (cache s !! getQueryKey k) as [e|] eqn:H.
  - rewrite (getQueryEntry_found _ _ _ H). exact H.
  - rewrite (getQueryEntry_missing _ _ H). simpl. apply lookup_insert_eq.
Qed.

(** The entry [getQueryEntry] returns: the stored one, or a new one. *)
Lemma getQueryEntry_entry (k : QueryKey) (s : System) :
  closed s ->
  heap (exec (getQueryEntry k) s) !! eval (getQueryEntry k) s =
    Some (match cache s !! getQueryKey k with
          | Some e => default initialEntry (heap s !! e)
          | None => initialEntry
          end)
  /\ (forall e, cache s !! getQueryKey k = Some e -> is_Some (heap s !! e)).
Proof.
  intros Hc. split.
  - unfold exec, eval. destruct (cache s !! getQueryKey k) as [e|] eqn:H.
    + rewrite (getQueryEntry_found _ _ _ H). simpl.
      destruct (closed_cache _ Hc _ _ H) as [en Hen]. rewrite Hen. reflexivity.
    + rewrite (getQueryEntry_missing _ _ H). simpl. apply lookup_insert_eq.
  - intros e He. exact (closed_cache _ Hc _ _ He).
Qed.

Lemma establishes_bind {B C : Type} (P : System -> Prop) (m : M B) (k : B -> M C) :
  establishes P m -> (forall b, keeps P (k b)) -> establishes P (bind m k).
Proof. intros Hm Hk s. rewrite exec_bind. apply Hk, Hm. Qed.

Ltac stores_leaf :=
  idtac;
  lazymatch goal with
  | |- keeps (stores _) (modify (upd_cache (insert _ _))) =>
      let s := fresh "s" in
      let H := fresh "H" in
      intros s H; unfold stores in *; rewrite exec_modify; simpl;
      rewrite lookup_insert; case_decide; [eexists; reflexivity | exact H]
  | |- keeps (stores _) (modify (upd_cache _)) => fail
  | |- keeps (stores _) (modify _) =>
      let s := fresh "s" in
      let H := fresh "H" in
      intros s H; exact H
  | |- keeps (stores _) fresh =>
      let s := fresh "s" in
      let H := fresh "H" in
      intros s H; exact H
  end.

Lemma getQueryEntry_stores (k : QueryKey) :
  establishes (stores (getQueryKey k)) (getQueryEntry k).
Proof. intros s. unfold stores. rewrite getQueryEntry_stored. eexists; reflexivity. Qed.

Lemma fetchQuery_stores (now : Z) (c : Caller) (options : QueryOptions) :
  establishes (stores (getQueryKey (queryKey options))) (fetchQuery now c options).
Proof.
  unfold fetchQuery.
  apply establishes_bind; [apply getQueryEntry_stores | intros; walk stores_leaf].
Qed.

Lemma setQueryData_stores (now : Z) (k : QueryKey) (d : option JSON) :
  establishes (stores (getQueryKey k)) (setQueryData now k d).
Proof.
  unfold setQueryData.
  apply establishes_bind; [apply getQueryEntry_stores | intros; walk stores_leaf].
Qed.

Lemma subscribeToQuery_stores (now : Z) (options : QueryOptions) :
  establishes (stores (getQueryKey (queryKey options))) (subscribeToQuery now options).
Proof.
  unfold subscribeToQuery.
  apply establishes_bind; [apply getQueryEntry_stores | intros; walk stores_leaf].
Qed.

(* ================================================================== *)
(** ** Reading the cache *)
(* ================================================================== *)

Lemma getQueryData_exec (k : QueryKey) (s : System) : exec (getQueryData k) s = s.
Proof.
  unfold exec, getQueryData, bind, gets, deref, ret. simpl.
  destruct (cache s !! getQueryKey k); reflexivity.
Qed.

Lemma getQueryData_eval (k : QueryKey) (s : System) :
  eval (getQueryData k) s = stateOf k s ≫= data.
Proof.
  unfold eval, getQueryData, stateOf, bind, gets, deref, ret. simpl.
  destruct (cache s !! getQueryKey k) as [e|]; simpl; [| reflexivity].
  destruct (heap s !! e); reflexivity.
Qed.

(* ================================================================== *)
(** ** The derived flags of a result *)
(* ================================================================== *)

(** C10: in a result built from an entry's state, [isLoading] holds exactly
    when the status is pending and the fetch status is fetching;
    [isRefetching] holds exactly when the fetch status is fetching and
    [isLoading] is false; the two are never both true and their disjunction
    is [isFetching]. *)
Theorem buildQueryResult_flags (now : Z) (st : QueryState) (options : QueryOptions) :
  let r := buildQueryResult now st options in
  status (resultState r) = status st
  /\ fetchStatus (resultState r) = fetchStatus st
  /\ (isLoading r = true <->
      status (resultState r) = StatusPending /\ fetchStatus (resultState r) = Fetching)
  /\ (isRefetching r = true <->
      fetchStatus (resultState r) = Fetching /\ isLoading r = false)
  /\ isLoading r && isRefetching r = false
  /\ isLoading r || isRefetching r = isFetching r.
Proof.
  simpl. destruct (status st), (fetchStatus st); simpl;
    repeat split; intros; try destruct_and?; congruence.
Qed.

(* ================================================================== *)
(** ** Writing the cache by hand *)
(* ================================================================== *)

Lemma notifyObservers_heap (now : Z) (e : nat) : preserves heap (notifyObservers now e).
Proof. frame. Qed.

Lemma notifyObservers_cache (now : Z) (e : nat) : preserves cache (notifyObservers now e).
Proof. frame. Qed.

Lemma notifyObservers_calls (now : Z) (e : nat) : preserves calls (notifyObservers now e).
Proof. frame. Qed.

Lemma getQueryEntry_calls (k : QueryKey) : preserves calls (getQueryEntry k).
Proof. frame. Qed.

Lemma setQueryData_calls (now : Z) (k : QueryKey) (d : option JSON) :
  preserves calls (setQueryData now k d).
Proof. frame. Qed.

(** The state [setQueryData] leaves in the entry. *)
Lemma setQueryData_state (now : Z) (k : QueryKey) (d : option JSON) (s : System) :
  closed s ->
  exists st,
    stateOf k (exec (setQueryData now k d) s) =
      Some {| data := d; dataUpdatedAt := now; error := error st;
              errorUpdatedAt := errorUpdatedAt st; failureCount := failureCount st;
              failureReason := failureReason st; fetchStatus := fetchStatus st;
              isInvalidated := isInvalidated st; status := StatusSuccess |}
    /\ st = default initialState (stateOf k s).
Proof.
  intros Hc. destruct (getQueryEntry_entry k s Hc) as [Hen Hlive].
  pose proof (getQueryEntry_stored k s) as Hst.
  eexists. split; [| reflexivity].
  unfold setQueryData, stateOf. rewrite exec_bind.
  set (e := eval (getQueryEntry k) s) in *.
  set (s1 := exec (getQueryEntry k) s) in *.
  rewrite exec_bind, notifyObservers_heap, notifyObservers_cache.
  unfold assign. rewrite exec_modify. simpl.
  rewrite Hst. simpl. rewrite lookup_alter_eq, Hen. simpl.
  destruct (cache s !! getQueryKey k) as [e0|] eqn:Hk; simpl; [| reflexivity].
  destruct (Hlive e0 eq_refl) as [en0 Hen0]. rewrite Hen0. reflexivity.
Qed.

(** C7: after [setQueryData(key, X)], [getQueryData(key)] returns [X] and
    the entry's status is success; neither call invokes a query function. *)
Theorem setQueryData_then_getQueryData
    (now : Z) (k : QueryKey) (X : option JSON) (s : System) :
  closed s ->
  let s' := exec (setQueryData now k X) s in
  eval (getQueryData k) s' = X
  /\ status <$> stateOf k s' = Some StatusSuccess
  /\ calls s' = calls s
  /\ calls (exec (getQueryData k) s') = calls s.
Proof.
  intros Hc s'. destruct (setQueryData_state now k X s Hc) as (st & Hst & _).
  fold s' in Hst. repeat split.
  - rewrite getQueryData_eval, Hst. reflexivity.
  - rewrite Hst. reflexivity.
  - apply setQueryData_calls.
  - rewrite getQueryData_exec. apply setQueryData_calls.
Qed.

Lemma setQueryData_then_getQueryData_witness :
  closed newQueryClient
  /\ eval (getQueryData (KeyArray [JStr "post"; JNum 7]))
       (exec (setQueryData 1000 (KeyArray [JStr "post"; JNum 7]) (Some (JStr "X")))
          newQueryClient)
     = Some (JStr "X").
Proof.
  split; [apply closed_newQueryClient |].
  apply (setQueryData_then_getQueryData 1000 (KeyArray [JStr "post"; JNum 7])
           (Some (JStr "X")) newQueryClient closed_newQueryClient).
Defined.

(* ================================================================== *)
(** ** Starting a fetch *)
(* ================================================================== *)

Lemma notifyObservers_aborted (now : Z) (e : nat) :
  preserves aborted (notifyObservers now e).
Proof. frame. Qed.

Lemma notifyObservers_frames (now : Z) (e : nat) :
  preserves frames (notifyObservers now e).
Proof. frame. Qed.

(** What [fetchQuery] leaves behind when it suspends: a frame at attempt 0
    on the entry of the key, a signal that is not aborted, the entry marked
    as fetching with its other fields as before, and one more call of the
    query function. *)
Lemma fetchQuery_spec (now : Z) (caller : Caller) (options : QueryOptions) (s : System) :
  closed s ->
  exists e c en0,
    let s1 := exec (fetchQuery now caller options) s in
    let fid := eval (fetchQuery now caller options) s in
    frames s1 !! fid =
      Some {| frameEntry := e; frameOptions := options; frameSignal := c;
              frameAttempt := 0%nat; framePhase := AwaitingFn; frameCaller := caller |}
    /\ aborted s1 !! c = Some false
    /\ cache s1 !! getQueryKey (queryKey options) = Some e
    /\ en0 = match cache s !! getQueryKey (queryKey options) with
             | Some e0 => default initialEntry (heap s !! e0)
             | None => initialEntry
             end
    /\ heap s1 !! e = Some (upd_state setFetching (upd_abortController (Some c) en0))
    /\ calls s1 = calls s ++ [{| invokedFn := queryFn options;
                                 invokedKey := queryKey options;
                                 invokedSignal := c; invokedMeta := meta options |}].
Proof.
  intros Hc.
  destruct (getQueryEntry_entry (queryKey options) s Hc) as [Hen _].
  pose proof (getQueryEntry_stored (queryKey options) s) as Hst.
  pose proof (getQueryEntry_calls (queryKey options) s) as Hcalls.
  unfold fetchQuery. rewrite !exec_bind, !eval_bind.
  set (e := eval (getQueryEntry (queryKey options)) s) in *.
  set (s0 := exec (getQueryEntry (queryKey options)) s) in *.
  set (sA := exec (whenSome _ abort) _).
  set (c := eval newAbortController sA).
  set (sB := exec newAbortController sA).
  set (sC := exec (assign e (upd_state _)) _).
  set (sD := exec (notifyObservers now e) sC).
  assert (HA : heap sA = heap s0 /\ cache sA = cache s0 /\ calls sA = calls s0).
  { subst sA. unfold deref. rewrite exec_gets, eval_gets.
    destruct (heap s0 !! e ≫= abortController); repeat split. }
  destruct HA as (HAh & HAc & HAl).
  assert (HC : heap sC = alter (upd_state setFetching)  e
                         (alter (upd_abortController (Some c)) e (heap s0))
               /\ cache sC = cache s0 /\ calls sC = calls s0
               /\ aborted sC = <[c := false]> (aborted sA)
               /\ nextId sC = S c).
  { subst sC sB c. unfold assign, newAbortController.
    rewrite !exec_modify, !exec_bind, !exec_modify, exec_ret. simpl.
    rewrite HAh, HAc, HAl. repeat split. }
  destruct HC as (HCh & HCc & HCl & HCa & HCn).
  exists e, c, (match cache s !! getQueryKey (queryKey options) with
                | Some e0 => default initialEntry (heap s !! e0)
                | None => initialEntry
                end).
  cbv zeta. unfold invokeQueryFn, fresh.
  rewrite exec_ret, !exec_modify. unfold eval, exec, ret. simpl.
  fold (exec (notifyObservers now e) sC). fold sD.
  assert (HD : heap sD = heap sC /\ cache sD = cache sC /\ calls sD = calls sC
               /\ aborted sD = aborted sC).
  { subst sD. repeat split;
      [apply notifyObservers_heap | apply notifyObservers_cache
       | apply notifyObservers_calls | apply notifyObservers_aborted]. }
  destruct HD as (HDh & HDc & HDl & HDa).
  rewrite HDh, HDc, HDl, HDa, HCh, HCc, HCl, HCa.
  repeat split.
  - apply lookup_insert_eq.
  - apply lookup_insert_eq.
  - exact Hst.
  - rewrite lookup_alter_eq, lookup_alter_eq, Hen. reflexivity.
  - rewrite Hcalls. reflexivity.
Qed.

(* ================================================================== *)
(** ** Rejections and retries *)
(* ================================================================== *)

Lemma invocations_app (fn : nat) (s : System) (extra : list Invocation) (s' : System) :
  calls s' = calls s ++ extra ->
  invocations fn s' =
    (invocations fn s + length (filter (fun c => invokedFn c = fn) extra))%nat.
Proof. intros H. unfold invocations. rewrite H, filter_app, length_app. reflexivity. Qed.

Lemma invocations_same (fn : nat) (s s' : System) :
  calls s' = calls s -> invocations fn s' = invocations fn s.
Proof. intros H. unfold invocations. rewrite H. reflexivity. Qed.

Lemma invocations_one (options : QueryOptions) (c : nat) (s s' : System) :
  calls s' = calls s ++ [invocationOf options c] ->
  invocations (queryFn options) s' = S (invocations (queryFn options) s).
Proof.
  intros H. rewrite (invocations_app _ _ _ _ H).
  rewrite filter_cons_True by reflexivity. simpl. lia.
Qed.

Section Resume.
Context (now : Z) (fid : nat) (fr : Frame) (err : Thrown) (s : System).
Hypothesis Hfr : frames s !! fid = Some fr.

(** The rejection is retried: the call now waits for the back-off delay. *)
Lemma reject_retry :
  framePhase fr = AwaitingFn ->
  aborted s !! frameSignal fr = Some false ->
  shouldRetry (default (RetryCount 3) (retry (frameOptions fr))) (frameAttempt fr) err
    = true ->
  step now (FnSettles fid (Rejected err)) s =
    upd_frames <[fid :=
      {| frameEntry := frameEntry fr; frameOptions := frameOptions fr;
         frameSignal := frameSignal fr; frameAttempt := frameAttempt fr;
         framePhase :=
           AwaitingDelay (retryDelayOf (retryDelay (frameOptions fr)) (frameAttempt fr) err);
         frameCaller := frameCaller fr |}]> s.
Proof.
  intros Hph Hab Hre. simpl.
  unfold exec, fnSettles, bind, gets. rewrite Hfr. simpl. rewrite Hph.
  unfold executeWithRetry_catch, bind, signalAborted, gets. rewrite Hab, Hre.
  reflexivity.
Qed.

(** The delay is over: the query function is called again. *)
Lemma delay_over (ms : Z) :
  framePhase fr = AwaitingDelay ms ->
  step now (DelayElapses fid) s =
    upd_frames <[fid :=
      {| frameEntry := frameEntry fr; frameOptions := frameOptions fr;
         frameSignal := frameSignal fr; frameAttempt := S (frameAttempt fr);
         framePhase := AwaitingFn; frameCaller := frameCaller fr |}]>
      (upd_calls (fun log => log ++ [invocationOf (frameOptions fr) (frameSignal fr)]) s).
Proof.
  intros Hph. simpl.
  unfold exec, delayElapses, bind, gets. rewrite Hfr. simpl. rewrite Hph.
  reflexivity.
Qed.

(** The rejection is not retried and [fetchQuery]'s catch block runs. *)
Lemma reject_gives_up :
  framePhase fr = AwaitingFn ->
  (aborted s !! frameSignal fr = Some true
   \/ shouldRetry (default (RetryCount 3) (retry (frameOptions fr))) (frameAttempt fr) err
      = false) ->
  step now (FnSettles fid (Rejected err)) s = exec (fetchFailed now fid fr err) s.
Proof.
  intros Hph Hcase. simpl.
  unfold exec at 1. unfold fnSettles, bind, gets. rewrite Hfr. simpl. rewrite Hph.
  unfold executeWithRetry_catch, bind, signalAborted, gets.
  destruct Hcase as [Hab | Hre].
  - rewrite Hab. reflexivity.
  - rewrite Hre. destruct (aborted s !! frameSignal fr) as [[]|]; reflexivity.
Qed.
End Resume.

(** The catch block on an error that is not an abort: the error is written
    to the entry and the promise is rejected. *)
Lemma fetchFailed_error (now : Z) (fid : nat) (fr : Frame) (err : Thrown) (s : System) :
  is_AbortError err = false ->
  let s' := exec (fetchFailed now fid fr err) s in
  heap s' = alter (upd_state (setError now err)) (frameEntry fr) (heap s)
  /\ cache s' = cache s
  /\ calls s' = calls s
  /\ aborted s' = aborted s
  /\ frames s' = delete fid (frames s)
  /\ promises s' = promises s ++ [(fid, frameCaller fr, Rejected err)].
Proof.
  intros Hab. unfold fetchFailed. rewrite Hab. cbv zeta.
  rewrite !exec_bind.
  set (s1 := exec (assign _ _) s).
  set (s2 := exec (notifyObservers _ _) s1).
  set (s3 := exec (when _ _) s2).
  set (s4 := exec (fetchFinally fr) s3).
  assert (H4 : forall {A} (f : System -> A),
             preserves f (when (onError (frameOptions fr))
                            (defer (TaskOnError (frameOptions fr) err))) ->
             preserves f (fetchFinally fr) ->
             preserves f (notifyObservers now (frameEntry fr)) ->
             f s4 = f s1).
  { intros A f H1 H2 H3. subst s4 s3 s2. rewrite H2, H1, H3. reflexivity. }
  unfold settle. rewrite exec_bind, !exec_modify. simpl.
  rewrite !H4 by frame. subst s1. unfold assign. rewrite exec_modify. simpl.
  repeat split.
Qed.

Lemma alwaysRejects_settled (fuel : nat) (now : Z) (fid : nat) (err : Thrown) (s : System) :
  frames s !! fid = None -> alwaysRejects fuel now fid err s = s.
Proof. intros H. destruct fuel; simpl; [| rewrite H]; reflexivity. Qed.

Section Retries.
Context (n : nat) (options : QueryOptions) (err : Thrown).
Context (fid e c : nat) (caller : Caller).
Hypothesis Hretry : default (RetryCount 3) (retry options) = RetryCount (Z.of_nat n).
Hypothesis Hnoabort : is_AbortError err = false.

Let fn := queryFn options.

Lemma shouldRetry_count (a : nat) :
  shouldRetry (default (RetryCount 3) (retry options)) a err = bool_decide (a < n)%nat.
Proof.
  rewrite Hretry. simpl. destruct (Z.ltb_spec (Z.of_nat a) (Z.of_nat n));
    [rewrite bool_decide_eq_true_2 | rewrite bool_decide_eq_false_2]; try reflexivity; lia.
Qed.

(** The run of a call against a query function that always rejects:
    before the last event the call is still suspended, the heap and the
    cache are as they were and the query function has been called once per
    elapsed delay; from the last event on, the call has given up, the
    entry holds the error and the query function has been called once for
    each attempt that was left. *)
Lemma alwaysRejects_run (fuel : nat) :
  forall (a : nat) (ph : Phase) (s : System) (now : Z),
    inflight fid e c options caller a ph s ->
    (a <= n)%nat ->
    (forall ms, ph = AwaitingDelay ms -> (a < n)%nat) ->
    let s' := alwaysRejects fuel now fid err s in
    ((fuel < eventsLeft n a ph)%nat ->
       is_Some (frames s' !! fid) /\ heap s' = heap s /\ cache s' = cache s
       /\ exists j, invocations fn s' = (invocations fn s + j)%nat
                    /\ (eventsLeft n a ph - fuel = 2 * (n - a - j)
                        \/ eventsLeft n a ph - fuel = 2 * (n - a - j) + 1)%nat
                    /\ (j <= n - a)%nat)
    /\ ((eventsLeft n a ph <= fuel)%nat ->
       frames s' !! fid = None /\ cache s' = cache s
       /\ invocations fn s' = (invocations fn s + (n - a))%nat
       /\ exists t,
            heap s' = alter (upd_state (setError t err)) e (heap s)
            /\ promises s' = promises s ++ [(fid, caller, Rejected err)]).
Proof.
  induction fuel as [|fuel IH]; intros a ph s now (Hfr & Hab & Hlive) Han Hdelay.
  - simpl. split.
    + intros Hlt. repeat split; [eexists; exact Hfr |].
      exists 0%nat. destruct ph; simpl in *; lia.
    + intros Hle. destruct ph as [|ms]; simpl in Hle; [lia |].
      specialize (Hdelay ms eq_refl). lia.
  - cbn [alwaysRejects]. rewrite Hfr. cbn [framePhase].
    destruct ph as [|ms].
    + (* the promise of the query function is rejected *)
      destruct (decide (a < n)%nat) as [Hlt | Hge].
      * rewrite (reject_retry now fid _ err s Hfr eq_refl Hab)
          by (cbn; rewrite shouldRetry_count; apply bool_decide_eq_true_2, Hlt).
        cbn [frameEntry frameOptions frameSignal frameAttempt frameCaller].
        set (ms := retryDelayOf _ _ _).
        set (s1 := upd_frames _ s).
        assert (H1 : inflight fid e c options caller a (AwaitingDelay ms) s1).
        { subst s1. repeat split; simpl; [apply lookup_insert_eq | exact Hab | exact Hlive]. }
        destruct (IH a (AwaitingDelay ms) s1 now H1 Han ltac:(intros; exact Hlt))
          as [IH1 IH2].
        cbn [eventsLeft] in *. split.
        -- intros Hf. destruct IH1 as (Hs & Hh & Hc & j & Hj & Hpar & Hjle); [lia |].
           repeat split; try assumption. exists j. repeat split; [exact Hj | lia | lia].
        -- intros Hf. destruct IH2 as (Hs & Hc & Hi & t & Hh & Hp); [lia |].
           repeat split; try assumption. exists t. split; assumption.
      * assert (Han' : a = n) by lia. subst a.
        rewrite (reject_gives_up now fid _ err s Hfr eq_refl)
          by (right; cbn; rewrite shouldRetry_count; apply bool_decide_eq_false_2; lia).
        destruct (fetchFailed_error now fid
                    {| frameEntry := e; frameOptions := options; frameSignal := c;
                       frameAttempt := n; framePhase := AwaitingFn;
                       frameCaller := caller |} err s Hnoabort)
          as (Hh & Hc & Hl & _ & Hf & Hp).
        cbn [frameEntry frameCaller] in *.
        set (s1 := exec (fetchFailed _ _ _ _) s) in *.
        assert (Hgone : frames s1 !! fid = None) by (rewrite Hf; apply lookup_delete_eq).
        rewrite (alwaysRejects_settled _ _ _ _ _ Hgone).
        cbn [eventsLeft]. split; [intros; lia |]. intros _.
        repeat split; [exact Hgone | exact Hc | |].
        -- rewrite (invocations_same _ _ _ Hl). lia.
        -- exists now. split; assumption.
    + (* the back-off delay elapses *)
      specialize (Hdelay ms eq_refl).
      rewrite (delay_over (now + ms) fid _ s Hfr ms eq_refl).
      cbn [frameEntry frameOptions frameSignal frameAttempt frameCaller].
      set (s1 := upd_frames _ _).
      assert (H1 : inflight fid e c options caller (S a) AwaitingFn s1).
      { subst s1. repeat split; simpl; [apply lookup_insert_eq | exact Hab | exact Hlive]. }
      assert (Hcalls : invocations fn s1 = S (invocations fn s)).
      { apply (invocations_one options c). reflexivity. }
      destruct (IH (S a) AwaitingFn s1 (now + ms) H1 ltac:(lia) ltac:(intros; discriminate))
        as [IH1 IH2].
      cbn [eventsLeft] in *. split.
      * intros Hf. destruct IH1 as (Hs & Hh & Hc & j & Hj & Hpar & Hjle); [lia |].
        repeat split; try assumption. exists (S j). rewrite Hj, Hcalls.
        repeat split; lia.
      * intros Hf. destruct IH2 as (Hs & Hc & Hi & t & Hh & Hp); [lia |].
        repeat split; try assumption.
        -- rewrite Hi, Hcalls. lia.
        -- exists t. split; assumption.
Qed.
End Retries.

(** C5: a fetch with [retry = n] whose query function always rejects, with
    an error that is not an abort and a signal that is not aborted, calls
    the query function exactly [n + 1] times before the entry's status
    becomes error; with [retry] unset the count is that of [n = 3], four
    calls.  Until the last rejection the call stays suspended and the
    entry's state is the one [fetchQuery] left when it started; just before
    the last rejection the [n + 1] calls have all been made; once the last
    rejection has arrived the status is error and no further call is made,
    however long the environment goes on. *)
Theorem retry_count_invocations
    (n : nat) (now : Z) (caller : Caller) (options : QueryOptions) (err : Thrown)
    (s : System) :
  closed s ->
  (retry options = Some (RetryCount (Z.of_nat n)) \/ (retry options = None /\ n = 3%nat)) ->
  is_AbortError err = false ->
  let fn := queryFn options in
  let fid := eval (fetchQuery now caller options) s in
  let s1 := exec (fetchQuery now caller options) s in
  (forall fuel, (fuel <= 2 * n)%nat ->
     let s' := alwaysRejects fuel now fid err s1 in
     is_Some (frames s' !! fid)
     /\ stateOf (queryKey options) s' = stateOf (queryKey options) s1
     /\ (invocations fn s' <= invocations fn s + n + 1)%nat)
  /\ invocations fn (alwaysRejects (2 * n) now fid err s1) = (invocations fn s + n + 1)%nat
  /\ (forall fuel, (2 * n + 1 <= fuel)%nat ->
     let s' := alwaysRejects fuel now fid err s1 in
     frames s' !! fid = None
     /\ invocations fn s' = (invocations fn s + n + 1)%nat
     /\ status <$> stateOf (queryKey options) s' = Some StatusError).
Proof.
  intros Hclosed Hretry Hnoabort fn fid s1.
  assert (Hdef : default (RetryCount 3) (retry options) = RetryCount (Z.of_nat n)).
  { destruct Hretry as [-> | [-> ->]]; reflexivity. }
  destruct (fetchQuery_spec now caller options s Hclosed)
    as (e & c & en0 & Hfr & Hab & Hcache & _ & Hheap & Hcalls).
  cbv zeta in Hfr, Hab, Hcache, Hheap, Hcalls. fold s1 fid in Hfr, Hab, Hcache, Hheap, Hcalls.
  assert (Hin : inflight fid e c options caller 0 AwaitingFn s1).
  { repeat split; [exact Hfr | exact Hab | rewrite Hheap; eexists; reflexivity]. }
  assert (Hone : invocations fn s1 = S (invocations fn s)).
  { apply (invocations_one options c). exact Hcalls. }
  pose proof (fun fuel =>
    alwaysRejects_run n options err fid e c caller Hdef Hnoabort fuel
      0%nat AwaitingFn s1 now Hin ltac:(lia) ltac:(intros; discriminate)) as Hrun.
  cbn [eventsLeft] in Hrun. split; [| split].
  - intros fuel Hfuel s'. destruct (Hrun fuel) as [H1 _].
    destruct H1 as (Hs & Hh & Hc & j & Hj & _ & Hjle); [lia |].
    fold s' in Hs, Hh, Hc, Hj. repeat split.
    + exact Hs.
    + unfold stateOf. rewrite Hh, Hc. reflexivity.
    + fold fn in Hj. rewrite Hj, Hone. lia.
  - destruct (Hrun (2 * n)%nat) as [H1 _].
    destruct H1 as (_ & _ & _ & j & Hj & Hpar & Hjle); [lia |].
    fold fn in Hj. rewrite Hj, Hone. lia.
  - intros fuel Hfuel s'. destruct (Hrun fuel) as [_ H2].
    destruct H2 as (Hs & Hc & Hi & t & Hh & _); [lia |].
    fold s' in Hs, Hc, Hi, Hh. repeat split.
    + exact Hs.
    + fold fn in Hi. rewrite Hi, Hone. lia.
    + unfold stateOf. rewrite Hc, Hcache. simpl.
      rewrite Hh, lookup_alter_eq, Hheap. reflexivity.
Qed.

Lemma retry_count_invocations_witness :
  let options := withRetry (RetryCount 2) (optionsFor (KeyArray [JStr "posts"]) 7) in
  let boom := ErrorObject "Error" "boom" in
  let fid := eval (fetchQuery 0 External options) newQueryClient in
  let s1 := exec (fetchQuery 0 External options) newQueryClient in
  closed newQueryClient
  /\ is_AbortError boom = false
  /\ invocations 7 (alwaysRejects 4 0 fid boom s1) = 3%nat
  /\ is_Some (frames (alwaysRejects 4 0 fid boom s1) !! fid)
  /\ invocations 7 (alwaysRejects 5 0 fid boom s1) = 3%nat
  /\ status <$> stateOf (KeyArray [JStr "posts"]) (alwaysRejects 5 0 fid boom s1)
     = Some StatusError.
Proof.
  intros options boom fid s1.
  destruct (retry_count_invocations 2 0 External options boom newQueryClient
              closed_newQueryClient (or_introl eq_refl) eq_refl) as (H1 & H2 & H3).
  destruct (H1 4%nat ltac:(lia)) as (Hs & _ & _).
  destruct (H3 5%nat ltac:(lia)) as (_ & Hi & Hst).
  split; [apply closed_newQueryClient |].
  split; [reflexivity |].
  split; [exact H2 |].
  split; [exact Hs |].
  split; [exact Hi | exact Hst].
Defined.

(* ================================================================== *)
(** ** Cancellation *)
(* ================================================================== *)




(* ================================================================== *)
(** ** Subscribing *)
(* ================================================================== *)

Lemma closed_exec {B : Type} (m : M B) (s : System) :
  keeps (safe []) m -> closed s -> closed (exec m s).
Proof. intros Hm Hs. apply closed_safe, Hm, closed_safe, Hs. Qed.

Lemma stateOf_statusOf (k : QueryKey) (s : System) (e : nat) (en : QueryCacheEntry) :
  cache s !! getQueryKey k = Some e -> heap s !! e = Some en ->
  statusOf k s = status (state en).
Proof. intros Hc Hh. unfold statusOf, stateOf. rewrite Hc. simpl. rewrite Hh. reflexivity. Qed.





(* ================================================================== *)
(** ** Invalidation *)
(* ================================================================== *)





(* ================================================================== *)
(** ** Where the code departs from its specification *)
(* ================================================================== *)

(** [invalidateQueries] with the exact key of an observed entry flags the
    entry and notifies its observer, and that is all: no fetch is started,
    although the repository's examples call it "to trigger refetch"
    (examples/spa-example/src/app/+route.tsx, line 53). *)
Example invalidate_exact_key_issues_no_fetch :
  let list := KeyArray [JStr "posts"; JStr "list"] in
  let options := optionsFor list 7 in
  let s := run [(0, CallSubscribeToQuery options);
                (10, FnSettles 3 (Resolved (Some (JStr "A"))))] newQueryClient in
  let s' := step 20 (CallInvalidateQueries (Some list)) s in
  isInvalidated <$> stateOf list s' = Some true
  /\ length (notified s') = S (length (notified s))
  /\ length (calls s') = length (calls s)
  /\ frames s' = ∅.
Proof. vm_compute. repeat split. Qed.

(** The signal is tested when the query function rejects and not after the
    back-off delay: a call superseded while it waits for its delay calls the
    query function once more, with a signal that is already aborted. *)
Example superseded_during_delay_calls_again :
  let k := KeyArray [JStr "posts"] in
  let options := optionsFor k 7 in
  let s := run [(0, CallFetchQuery options);
                (10, FnSettles 2 (Rejected (ErrorObject "Error" "boom")));
                (20, CallFetchQuery options)] newQueryClient in
  let s' := step 1010 (DelayElapses 2) s in
  (frameSignal <$> frames s !! 2%nat) ≫= (fun c => aborted s !! c) = Some true
  /\ invocations 7 s = 2%nat
  /\ invocations 7 s' = 3%nat
  /\ invokedSignal <$> last (calls s') = frameSignal <$> frames s !! 2%nat.
Proof. vm_compute. repeat split. Qed.

(** The success path writes the entry whatever the state of the call's
    signal: no test of the signal, and no test that the call is the latest
    one for its key, stands between the fulfilled promise and the write. *)
Lemma fulfilled_call_writes_entry
    (now : Z) (fid : nat) (fr : Frame) (d : option JSON) (en : QueryCacheEntry)
    (s : System) :
  frames s !! fid = Some fr ->
  framePhase fr = AwaitingFn ->
  heap s !! frameEntry fr = Some en ->
  state <$> heap (step now (FnSettles fid (Resolved d)) s) !! frameEntry fr
    = Some (setSuccess now d (state en)).
Proof.
  intros Hfr Hph Hen. cbn [step].
  unfold fnSettles. rewrite exec_bind, exec_gets, eval_gets, Hfr. cbn [whenSome].
  rewrite Hph. unfold fetchSucceeded. rewrite !exec_bind.
  set (e := frameEntry fr) in *.
  set (s1 := exec (assign e (upd_state _)) s).
  set (s2 := exec (whenSome (refetchInterval (frameOptions fr)) _) s1).
  set (s3 := exec (when _ _) s2).
  set (s4 := exec (notifyObservers now e) s3).
  set (s5 := exec (when (onSuccess (frameOptions fr)) _) s4).
  set (s6 := exec (fetchFinally fr) s5).
  assert (H6 : heap (exec (settle fid fr (Resolved d)) s6) = heap s3).
  { assert (K : preserves heap (settle fid fr (Resolved d))) by frame.
    rewrite K. subst s6 s5 s4.
    assert (K1 : preserves heap (fetchFinally fr)) by frame.
    assert (K2 : forall t, preserves heap (when (onSuccess (frameOptions fr)) (defer t)))
      by (intros; frame).
    rewrite K1, K2. apply notifyObservers_heap. }
  rewrite H6.
  assert (H1 : state <$> heap s1 !! e = Some (setSuccess now d (state en))).
  { subst s1. unfold assign. rewrite exec_modify. cbn [heap upd_heap].
    rewrite lookup_alter_eq, Hen. reflexivity. }
  assert (Hkeep : forall (m : M unit) (x : System),
            (exists l, heap (exec m x)
                       = foldr (fun f h => alter f e h) (heap x) l
                         /\ Forall (fun f => forall y, state (f y) = state y) l) ->
            state <$> heap (exec m x) !! e = state <$> heap x !! e).
  { intros m x (l & -> & Hl). induction Hl as [|f l Hf _ IH]; cbn [foldr]; [reflexivity |].
    rewrite lookup_alter_eq, <- IH. destruct (foldr _ _ _ !! e); cbn; [rewrite Hf |]; reflexivity. }
  subst s3. rewrite Hkeep, <- H1.
  - subst s2. apply Hkeep.
    destruct (refetchInterval (frameOptions fr)) as [ms|]; cbn [whenSome].
    + destruct (bool_decide (ms > 0)); cbn [when].
      * exists [upd_entryRefetchInterval (Some (nextId s1))]. split; [| repeat constructor].
        unfold setTimer, fresh, assign. reflexivity.
      * exists []. split; [reflexivity | constructor].
    + exists []. split; [reflexivity | constructor].
  - destruct (bool_decide (default (5 * 60 * 1000) (gcTime (frameOptions fr)) > 0));
      cbn [when].
    + exists [upd_gcTimeout (Some (nextId s2))]. split; [| repeat constructor].
      unfold setTimer, fresh, assign. reflexivity.
    + exists []. split; [reflexivity | constructor].
Qed.

(** C1: the last-issued fetch should determine the final state.  In the
    code it does not.  Fetch A is started, then fetch B for the same key,
    which aborts A's signal; B's query function resolves first and A's,
    which does not look at the signal, resolves later.  A's completion
    writes the entry: the final data is A's, not B's.  A superseded call
    whose query function rejects late, with an error that is not an abort,
    overwrites B's success with an error in the same way. *)
Example superseded_fetch_overwrites_later_fetch :
  let k := KeyArray [JStr "posts"] in
  let options := optionsFor k 7 in
  let started := run [(0, CallFetchQuery options); (1, CallFetchQuery options)]
                   newQueryClient in
  let afterB := step 11 (FnSettles 4 (Resolved (Some (JStr "B")))) started in
  let afterA := step 100 (FnSettles 2 (Resolved (Some (JStr "A")))) afterB in
  let afterA' := step 100 (FnSettles 2 (Rejected (ErrorObject "Error" "late"))) afterB in
  frameSignal <$> frames started !! 2%nat = Some 1%nat
  /\ aborted started !! 1%nat = Some true
  /\ frameSignal <$> frames started !! 4%nat = Some 3%nat
  /\ aborted started !! 3%nat = Some false
  /\ stateOf k afterB ≫= data = Some (JStr "B")
  /\ stateOf k afterA ≫= data = Some (JStr "A")
  /\ dataUpdatedAt <$> stateOf k afterA = Some 100
  /\ status <$> stateOf k afterA' = Some StatusError
  /\ stateOf k afterA' ≫= error = Some (ErrorObject "Error" "late").
Proof. vm_compute. repeat split. Qed.

(** C3: a rejection should not escape outside a direct [fetchQuery] call.
    In the code it does.  [subscribeToQuery] and the [refetchInterval]
    callback call [fetchQuery] and drop the promise; when the query
    function rejects, the error is written to the entry and the dropped
    promise is rejected as well, which nothing handles. *)
Example subscription_rejection_is_unhandled :
  let k := KeyArray [JStr "posts"] in
  let boom := ErrorObject "Error" "boom" in
  let options := withRetry (RetryCount 0) (optionsFor k 7) in
  let subscribed := run [(0, CallSubscribeToQuery options);
                         (10, FnSettles 3 (Rejected boom))] newQueryClient in
  let polling := withRefetchInterval 1000 options in
  let polled := run [(0, CallSubscribeToQuery polling);
                     (10, FnSettles 3 (Resolved (Some (JStr "A"))));
                     (1010, TimerFires 4);
                     (1020, FnSettles 7 (Rejected boom))] newQueryClient in
  let direct := run [(0, CallFetchQuery options);
                     (10, FnSettles 2 (Rejected boom))] newQueryClient in
  status <$> stateOf k subscribed = Some StatusError
  /\ unhandledRejections subscribed = [boom]
  /\ status <$> stateOf k polled = Some StatusError
  /\ unhandledRejections polled = [boom]
  /\ unhandledRejections direct = [].
Proof. vm_compute. repeat split. Qed.

(** C4: a success status should come with a null error.  In the code
    [setQueryData] keeps the error: called on an entry whose fetch has
    failed, it leaves the status at success and the error in place, where
    the success path of [fetchQuery] clears it. *)
Example setQueryData_keeps_error :
  let k := KeyArray [JStr "posts"] in
  let boom := ErrorObject "Error" "boom" in
  let options := withRetry (RetryCount 0) (optionsFor k 7) in
  let failed := run [(0, CallFetchQuery options);
                     (10, FnSettles 2 (Rejected boom))] newQueryClient in
  let patched := step 20 (CallSetQueryData k (Some (JStr "X"))) failed in
  let refetched := run [(30, CallFetchQuery options);
                        (40, FnSettles 4 (Resolved (Some (JStr "Y"))))] failed in
  status <$> stateOf k failed = Some StatusError
  /\ status <$> stateOf k patched = Some StatusSuccess
  /\ stateOf k patched ≫= data = Some (JStr "X")
  /\ stateOf k patched ≫= error = Some boom
  /\ failureCount <$> stateOf k patched = Some 1%nat
  /\ status <$> stateOf k refetched = Some StatusSuccess
  /\ stateOf k refetched ≫= error = None.
Proof. vm_compute. repeat split. Qed.

(* ================================================================== *)
(** ** The results observers receive *)
(* ================================================================== *)

Ltac built_leaf :=
  idtac;
  lazymatch goal with
  | |- keeps built (modify (upd_notified _)) =>
      let s := fresh "s" in
      let H := fresh "H" in
      intros s H; unfold built in *; rewrite exec_modify; cbn [notified upd_notified];
      apply Forall_app; split; [exact H |];
      apply Forall_forall; intros ? [? [<- _]]%list_elem_of_In%in_map_iff;
      cbn [snd]; eauto
  | |- keeps built (modify _) =>
      let s := fresh "s" in
      let H := fresh "H" in
      intros s H; exact H
  | |- keeps built fresh =>
      let s := fresh "s" in
      let H := fresh "H" in
      intros s H; exact H
  end.

Lemma built_step (now : Z) (ev : Event) (s : System) : built s -> built (step now ev s).
Proof.
  revert s. destruct ev; cbn [step];
    match goal with |- forall s, built s -> built (exec ?m s) => change (keeps built m) end;
    walk built_leaf.
Qed.

(** Every result in the notification log of a run has the derived flags of
    [buildQueryResult]. *)
Lemma notified_results_built (s : System) : reachable s -> built s.
Proof.
  intros [trace ->]. generalize newQueryClient (Forall_nil_2 _ : built newQueryClient).
  induction trace as [|[now ev] rest IH]; intros s Hs; simpl; [exact Hs |].
  apply IH, built_step, Hs.
Qed.

(* ================================================================== *)
(** ** Back-off delays *)
(* ================================================================== *)

Lemma defaultDelay_cases (a : nat) (err : Thrown) :
  ((a <= 4)%nat -> retryDelayOf None a err = 1000 * 2 ^ Z.of_nat a)
  /\ ((5 <= a)%nat -> retryDelayOf None a err = 30000).
Proof.
  unfold retryDelayOf. split; intros Ha.
  - assert (H : 2 ^ Z.of_nat a <= 2 ^ 4) by (apply Z.pow_le_mono_r; lia).
    change (2 ^ 4) with 16 in H. lia.
  - assert (H : 2 ^ 5 <= 2 ^ Z.of_nat a) by (apply Z.pow_le_mono_r; lia).
    change (2 ^ 5) with 32 in H. lia.
Qed.

(** When a rejection is retried and no [retryDelay] was given, the call
    waits for [min(1000 * 2^attempt, 30000)] milliseconds: one second
    after the first failure, doubling with each attempt, never less than one
    second and never more than thirty, which it reaches at the sixth
    failure; a later attempt never waits less than an earlier one. *)
Theorem default_backoff_bounds
    (now : Z) (fid : nat) (fr : Frame) (err : Thrown) (s : System) :
  frames s !! fid = Some fr ->
  framePhase fr = AwaitingFn ->
  aborted s !! frameSignal fr = Some false ->
  shouldRetry (default (RetryCount 3) (retry (frameOptions fr))) (frameAttempt fr) err
    = true ->
  retryDelay (frameOptions fr) = None ->
  exists ms,
    framePhase <$> frames (step now (FnSettles fid (Rejected err)) s) !! fid
      = Some (AwaitingDelay ms)
    /\ ms = Z.min (1000 * 2 ^ Z.of_nat (frameAttempt fr)) 30000
    /\ 1000 <= ms <= 30000
    /\ (frameAttempt fr = 0%nat -> ms = 1000)
    /\ ((5 <= frameAttempt fr)%nat -> ms = 30000)
    /\ (forall a, (frameAttempt fr <= a)%nat -> ms <= retryDelayOf None a err).
Proof.
  intros Hfr Hph Hab Hre Hnone.
  rewrite (reject_retry now fid fr err s Hfr Hph Hab Hre). cbn [frames upd_frames].
  rewrite lookup_insert_eq. cbn. rewrite Hnone.
  eexists. split; [reflexivity |]. split; [reflexivity |].
  assert (Hpos : 1 <= 2 ^ Z.of_nat (frameAttempt fr)).
  { change 1 with (2 ^ 0). apply Z.pow_le_mono_r; lia. }
  split; [unfold retryDelayOf; lia |]. split; [| split].
  - intros ->. reflexivity.
  - intros H5. apply (defaultDelay_cases _ err), H5.
  - intros a Ha. unfold retryDelayOf.
    assert (H : 2 ^ Z.of_nat (frameAttempt fr) <= 2 ^ Z.of_nat a)
      by (apply Z.pow_le_mono_r; lia).
    lia.
Qed.

Lemma default_backoff_bounds_witness :
  let options := optionsFor (KeyArray [JStr "posts"]) 7 in
  let s := run [(0, CallFetchQuery options)] newQueryClient in
  let boom := ErrorObject "Error" "boom" in
  framePhase <$> frames s !! 2%nat = Some AwaitingFn
  /\ framePhase <$> frames (step 10 (FnSettles 2 (Rejected boom)) s) !! 2%nat
     = Some (AwaitingDelay 1000).
Proof.
  intros options s boom.
  assert (Hfr : frames s !! 2%nat =
                Some {| frameEntry := 0; frameOptions := options; frameSignal := 1;
                        frameAttempt := 0; framePhase := AwaitingFn;
                        frameCaller := External |}) by (vm_compute; reflexivity).
  assert (Hab : aborted s !! 1%nat = Some false) by (vm_compute; reflexivity).
  destruct (default_backoff_bounds 10 2 _ boom s Hfr eq_refl Hab eq_refl eq_refl)
    as (ms & Hms & _ & _ & H0 & _).
  split; [rewrite Hfr; reflexivity |].
  rewrite Hms, (H0 eq_refl). reflexivity.
Defined.

(* ================================================================== *)
(** ** Retry policies *)
(* ================================================================== *)

Lemma retryBudget_shouldRetry (r : option RetryOption) (err : Thrown) (n a : nat) :
  retryBudget r err n ->
  shouldRetry (default (RetryCount 3) r) a err = bool_decide (a < n)%nat.
Proof.
  intros H. destruct (decide (a < n)%nat) as [Hlt | Hge];
    [rewrite bool_decide_eq_true_2 by exact Hlt | rewrite bool_decide_eq_false_2 by exact Hge];
    destruct r as [[z|[]|f]|]; cbn [retryBudget from_option id shouldRetry andb] in *;
    try subst n.
  - apply Z.ltb_lt. lia.
  - apply Nat.ltb_lt. lia.
  - lia.
  - rewrite H. apply bool_decide_eq_true_2, Hlt.
  - apply Z.ltb_lt. lia.
  - apply Z.ltb_ge. lia.
  - apply Nat.ltb_ge. lia.
  - reflexivity.
  - rewrite H. apply bool_decide_eq_false_2, Hge.
  - apply Z.ltb_ge. lia.
Qed.

Lemma invocations_replicate (options : QueryOptions) (c k : nat) (s s' : System) :
  calls s' = calls s ++ replicate k (invocationOf options c) ->
  invocations (queryFn options) s' = (invocations (queryFn options) s + k)%nat.
Proof.
  intros H. rewrite (invocations_app _ _ _ _ H).
  assert (Hk : length (filter (fun x => invokedFn x = queryFn options)
                         (replicate k (invocationOf options c))) = k).
  { clear H. induction k as [|k IH]; [reflexivity |].
    cbn [replicate]. rewrite filter_cons_True by reflexivity. cbn [length].
    rewrite IH. reflexivity. }
  rewrite Hk. reflexivity.
Qed.

Section Policy.
Context (n : nat) (options : QueryOptions) (err : Thrown).
Context (fid e c : nat) (caller : Caller).
Hypothesis Hbudget : retryBudget (retry options) err n.

(** The first failures are retried: after [k] rejections and [k] delays the
    call is suspended in attempt [a + k]; the query function has been called
    [k] more times, with the same signal, and nothing else has changed. *)
Lemma rejections_retried (k m : nat) :
  forall (a : nat) (s : System) (now : Z),
    inflight fid e c options caller a AwaitingFn s ->
    (a + k <= n)%nat ->
    exists now' s',
      alwaysRejects (2 * k + m) now fid err s = alwaysRejects m now' fid err s'
      /\ inflight fid e c options caller (a + k) AwaitingFn s'
      /\ heap s' = heap s /\ cache s' = cache s
      /\ calls s' = calls s ++ replicate k (invocationOf options c)
      /\ notified s' = notified s /\ promises s' = promises s
      /\ queue s' = queue s /\ timers s' = timers s.
Proof.
  induction k as [|k IH]; intros a s now Hin Hle.
  - exists now, s. rewrite Nat.add_0_r, app_nil_r. repeat split; try apply Hin.
  - destruct Hin as (Hfr & Hab & Hlive).
    replace (2 * S k + m)%nat with (S (S (2 * k + m))) by lia.
    cbn [alwaysRejects]. rewrite Hfr. cbn [framePhase].
    rewrite (reject_retry now fid _ err s Hfr eq_refl Hab)
      by (cbn; rewrite (retryBudget_shouldRetry _ _ n) by exact Hbudget;
          apply bool_decide_eq_true_2; lia).
    cbn [frameEntry frameOptions frameSignal frameAttempt frameCaller].
    set (ms := retryDelayOf _ _ _).
    set (s1 := upd_frames _ s).
    assert (Hfr1 : frames s1 !! fid =
                   Some {| frameEntry := e; frameOptions := options; frameSignal := c;
                           frameAttempt := a; framePhase := AwaitingDelay ms;
                           frameCaller := caller |})
      by (subst s1; apply lookup_insert_eq).
    rewrite Hfr1. cbn [framePhase].
    rewrite (delay_over (now + ms) fid _ s1 Hfr1 ms eq_refl).
    cbn [frameEntry frameOptions frameSignal frameAttempt frameCaller].
    set (s2 := upd_frames _ _).
    assert (H2 : inflight fid e c options caller (S a) AwaitingFn s2).
    { subst s2 s1. repeat split; cbn; [apply lookup_insert_eq | exact Hab | exact Hlive]. }
    destruct (IH (S a) s2 (now + ms) H2 ltac:(lia))
      as (now' & s' & Hrun & Hin' & Hh & Hc & Hl & Hn & Hp & Hq & Ht).
    exists now', s'. rewrite Hrun.
    replace (a + S k)%nat with (S a + k)%nat by lia.
    split; [reflexivity |]. split; [exact Hin' |].
    rewrite Hh, Hc, Hl, Hn, Hp, Hq, Ht. subst s2 s1. cbn.
    rewrite <- app_assoc. repeat split.
Qed.

(** The failure after the last retry: the catch block of [fetchQuery] runs
    and the call is over. *)
Lemma last_rejection (a : nat) (s : System) (now : Z) :
  inflight fid e c options caller a AwaitingFn s ->
  (n <= a)%nat ->
  step now (FnSettles fid (Rejected err)) s =
    exec (fetchFailed now fid
            {| frameEntry := e; frameOptions := options; frameSignal := c;
               frameAttempt := a; framePhase := AwaitingFn; frameCaller := caller |}
            err) s.
Proof.
  intros (Hfr & Hab & _) Hle.
  apply (reject_gives_up now fid _ err s Hfr eq_refl). right. cbn.
  rewrite (retryBudget_shouldRetry _ _ n) by exact Hbudget.
  apply bool_decide_eq_false_2. lia.
Qed.
End Policy.

(* ================================================================== *)
(** ** A fetch that succeeds *)
(* ================================================================== *)

(** A step that arms a timer for the entry [e] changes the timers, the
    counter of references and the timer fields of [e], and nothing else. *)
Lemma arming_timers_only (e : nat) (s : System) (m : M unit) :
  (m = ret tt
   \/ exists t f, m = (let* id := setTimer t in assign e (f id))
                  /\ forall id y, state (f id y) = state y /\ observers (f id y) = observers y) ->
  let s' := exec m s in
  cache s' = cache s /\ calls s' = calls s /\ aborted s' = aborted s
  /\ fired s' = fired s /\ frames s' = frames s /\ promises s' = promises s
  /\ queue s' = queue s /\ notified s' = notified s /\ isPending s' = isPending s
  /\ state <$> heap s' !! e = state <$> heap s !! e
  /\ observers <$> heap s' !! e = observers <$> heap s !! e.
Proof.
  intros [-> | (t & f & -> & Hf)]; cbv zeta.
  - rewrite exec_ret. repeat split.
  - cbv beta iota delta [setTimer fresh assign exec eval bind modify ret fst snd].
    cbn [cache heap calls aborted fired frames promises queue notified isPending
         upd_heap upd_timers upd_nextId].
    rewrite lookup_alter_eq.
    repeat split; destruct (heap s !! e) as [y|]; cbn [fmap option_fmap option_map];
      try reflexivity; f_equal; apply Hf.
Qed.

(** What the success path of [fetchQuery] does, field by field. *)
Lemma fetchSucceeded_run
    (now : Z) (fid : nat) (fr : Frame) (d : option JSON) (en : QueryCacheEntry)
    (s : System) :
  heap s !! frameEntry fr = Some en ->
  let s' := exec (fetchSucceeded now fid fr d) s in
  let st' := setSuccess now d (state en) in
  state <$> heap s' !! frameEntry fr = Some st'
  /\ observers <$> heap s' !! frameEntry fr = Some (observers en)
  /\ cache s' = cache s
  /\ calls s' = calls s
  /\ aborted s' = aborted s
  /\ fired s' = fired s
  /\ frames s' = delete fid (frames s)
  /\ promises s' = promises s ++ [(fid, frameCaller fr, Resolved d)]
  /\ queue s' =
       queue s
       ++ (if onSuccess (frameOptions fr) then [TaskOnSuccess (frameOptions fr) d] else [])
       ++ (if onSettled (frameOptions fr)
           then [TaskOnSettled (frameOptions fr) (frameEntry fr)] else [])
  /\ notified s' =
       notified s ++
       List.map (fun ob => (observerId ob, buildQueryResult now st' (observerOptions ob)))
                (observers en).
Proof.
  intros Hen. cbv zeta. unfold fetchSucceeded. rewrite !exec_bind.
  set (e := frameEntry fr) in *.
  set (s1 := exec (assign e (upd_state _)) s).
  set (s2 := exec (whenSome (refetchInterval (frameOptions fr)) _) s1).
  set (s3 := exec (when _ _) s2).
  set (s4 := exec (notifyObservers now e) s3).
  set (s5 := exec (when (onSuccess (frameOptions fr)) _) s4).
  set (s6 := exec (fetchFinally fr) s5).
  (* the write of the state *)
  assert (H1 : heap s1 !! e = Some (upd_state (setSuccess now d) en)
               /\ cache s1 = cache s /\ calls s1 = calls s /\ aborted s1 = aborted s
               /\ fired s1 = fired s /\ frames s1 = frames s /\ promises s1 = promises s
               /\ queue s1 = queue s /\ notified s1 = notified s
               /\ isPending s1 = isPending s).
  { subst s1. unfold assign. rewrite exec_modify. cbn [heap upd_heap].
    rewrite lookup_alter_eq, Hen. repeat split. }
  destruct H1 as (H1h & H1c & H1l & H1a & H1f & H1fr & H1p & H1q & H1n & H1i).
  (* the two timers *)
  pose proof (arming_timers_only e s1
                (whenSome (refetchInterval (frameOptions fr)) (fun ms =>
                   when (bool_decide (ms > 0))
                     (let* t := setTimer (RefetchTimer (frameOptions fr) ms) in
                      assign e (upd_entryRefetchInterval (Some t)))))) as H2.
  destruct H2 as (H2c & H2l & H2a & H2f & H2fr & H2p & H2q & H2n & H2i & H2s & H2o).
  { destruct (refetchInterval (frameOptions fr)) as [ms|]; cbn [whenSome]; [| left; reflexivity].
    destruct (bool_decide (ms > 0)); cbn [when]; [| left; reflexivity].
    right. exists (RefetchTimer (frameOptions fr) ms),
             (fun id => upd_entryRefetchInterval (Some id)).
    split; [reflexivity | intros; split; reflexivity]. }
  fold s2 in H2c, H2l, H2a, H2f, H2fr, H2p, H2q, H2n, H2i, H2s, H2o.
  pose proof (arming_timers_only e s2
                (when (bool_decide (default (5 * 60 * 1000) (gcTime (frameOptions fr)) > 0))
                   (let* t := setTimer (GcAfterFetch e (frameOptions fr)
                                          (default (5 * 60 * 1000) (gcTime (frameOptions fr)))) in
                    assign e (upd_gcTimeout (Some t))))) as H3.
  destruct H3 as (H3c & H3l & H3a & H3f & H3fr & H3p & H3q & H3n & H3i & H3s & H3o).
  { destruct (bool_decide (default (5 * 60 * 1000) (gcTime (frameOptions fr)) > 0));
      cbn [when]; [| left; reflexivity].
    right. exists (GcAfterFetch e (frameOptions fr)
                     (default (5 * 60 * 1000) (gcTime (frameOptions fr)))),
             (fun id => upd_gcTimeout (Some id)).
    split; [reflexivity | intros; split; reflexivity]. }
  fold s3 in H3c, H3l, H3a, H3f, H3fr, H3p, H3q, H3n, H3i, H3s, H3o.
  assert (H3st : state <$> heap s3 !! e = Some (setSuccess now d (state en)))
    by (rewrite H3s, H2s, H1h; reflexivity).
  assert (H3ob : observers <$> heap s3 !! e = Some (observers en))
    by (rewrite H3o, H2o, H1h; reflexivity).
  (* the notification *)
  assert (H4 : notified s4 =
               notified s3 ++
               List.map (fun ob => (observerId ob,
                                    buildQueryResult now (setSuccess now d (state en))
                                      (observerOptions ob))) (observers en)).
  { subst s4. unfold notifyObservers, deref. rewrite exec_bind, exec_gets, eval_gets.
    destruct (heap s3 !! e) as [en3|]; [| discriminate].
    cbn [fmap option_fmap option_map] in H3st, H3ob.
    injection H3st as H3st. injection H3ob as H3ob.
    cbn [whenSome]. rewrite exec_modify. cbn [notified upd_notified].
    rewrite H3st, H3ob. reflexivity. }
  (* the deferred callbacks and the promise *)
  assert (Hq : queue s6 =
               queue s4
               ++ (if onSuccess (frameOptions fr)
                   then [TaskOnSuccess (frameOptions fr) d] else [])
               ++ (if onSettled (frameOptions fr)
                   then [TaskOnSettled (frameOptions fr) e] else [])).
  { subst s6 s5. unfold fetchFinally, defer.
    destruct (onSuccess (frameOptions fr)), (onSettled (frameOptions fr)); cbn [when];
      rewrite ?exec_bind, ?exec_modify, ?exec_ret, ?eval_gets, ?exec_gets;
      repeat (match goal with
              | |- context [when ?b _] => destruct b; cbn [when]
              end; rewrite ?exec_modify, ?exec_ret);
      cbn [queue upd_queue upd_isPending]; rewrite ?app_nil_r, <- ?app_assoc; reflexivity. }
  assert (Htail : forall {A} (f : System -> A),
            preserves f (when (onSuccess (frameOptions fr))
                           (defer (TaskOnSuccess (frameOptions fr) d))) ->
            preserves f (fetchFinally fr) ->
            f s6 = f s4).
  { intros A f K1 K2. subst s6 s5. rewrite K2, K1. reflexivity. }
  unfold settle. rewrite exec_bind, !exec_modify.
  cbn [heap cache calls aborted fired frames promises queue notified
       upd_frames upd_promises].
  rewrite Hq, !Htail by frame.
  subst s4.
  rewrite notifyObservers_heap, notifyObservers_cache, notifyObservers_calls,
    notifyObservers_aborted, notifyObservers_frames.
  assert (K : forall {A} (f : System -> A), preserves f (notifyObservers now e) ->
                f (exec (notifyObservers now e) s3) = f s3) by (intros A f K; apply K).
  rewrite !K by frame. fold (exec (notifyObservers now e) s3) in H4. rewrite H4.
  rewrite H3st, H3ob, H3c, H3l, H3a, H3f, H3fr, H3p, H3q, H3n,
    H2c, H2l, H2a, H2f, H2fr, H2p, H2q, H2n, H1c, H1l, H1a, H1f, H1fr, H1p, H1q, H1n.
  repeat split.
Qed.

Lemma fetchQuery_promises (now : Z) (caller : Caller) (options : QueryOptions) :
  preserves promises (fetchQuery now caller options).
Proof. frame. Qed.

Lemma fetchQuery_queue (now : Z) (caller : Caller) (options : QueryOptions) :
  preserves queue (fetchQuery now caller options).
Proof. frame. Qed.

(** A fetch against a query function that rejects until the retry policy is
    exhausted, from its start to its end. *)
Lemma exhausted_fetch
    (n : nat) (now : Z) (caller : Caller) (options : QueryOptions) (err : Thrown)
    (s : System) (m : nat) :
  closed s ->
  retryBudget (retry options) err n ->
  is_AbortError err = false ->
  let fid := eval (fetchQuery now caller options) s in
  let s1 := exec (fetchQuery now caller options) s in
  let s' := alwaysRejects (2 * n + S m) now fid err s1 in
  exists e c t,
    frames s' !! fid = None
    /\ cache s' !! getQueryKey (queryKey options) = Some e
    /\ heap s' !! e =
         Some (upd_state (setError t err)
                 (upd_state setFetching
                    (upd_abortController (Some c)
                       match cache s !! getQueryKey (queryKey options) with
                       | Some e0 => default initialEntry (heap s !! e0)
                       | None => initialEntry
                       end)))
    /\ calls s' = calls s ++ replicate (S n) (invocationOf options c)
    /\ promises s' = promises s ++ [(fid, caller, Rejected err)].
Proof.
  intros Hclosed Hbudget Hnoabort fid s1 s'.
  destruct (fetchQuery_spec now caller options s Hclosed)
    as (e & c & en0 & Hfr & Hab & Hcache & -> & Hheap & Hcalls).
  cbv zeta in Hfr, Hab, Hcache, Hheap, Hcalls. fold s1 fid in Hfr, Hab, Hcache, Hheap, Hcalls.
  assert (Hin : inflight fid e c options caller 0 AwaitingFn s1).
  { repeat split; [exact Hfr | exact Hab | rewrite Hheap; eexists; reflexivity]. }
  destruct (rejections_retried n options err fid e c caller Hbudget n (S m) 0%nat s1 now
              Hin ltac:(lia))
    as (now' & s2 & Hrun & Hin2 & Hh & Hc & Hl & _ & Hp & _ & _).
  subst s'. rewrite Hrun. cbn [alwaysRejects].
  destruct Hin2 as (Hfr2 & Hab2 & Hlive2). rewrite Hfr2. cbn [framePhase].
  rewrite (last_rejection n options err fid e c caller Hbudget (0 + n) s2 now')
    by first [lia | split; [exact Hfr2 | split; [exact Hab2 | exact Hlive2]]].
  destruct (fetchFailed_error now' fid
              {| frameEntry := e; frameOptions := options; frameSignal := c;
                 frameAttempt := 0 + n; framePhase := AwaitingFn; frameCaller := caller |}
              err s2 Hnoabort)
    as (Hh3 & Hc3 & Hl3 & _ & Hf3 & Hp3).
  cbn [frameEntry frameCaller] in *.
  set (s3 := exec (fetchFailed _ _ _ _) s2) in *.
  assert (Hgone : frames s3 !! fid = None) by (rewrite Hf3; apply lookup_delete_eq).
  rewrite (alwaysRejects_settled _ _ _ _ _ Hgone).
  exists e, c, now'. split; [exact Hgone |].
  split; [rewrite Hc3, Hc; exact Hcache |].
  split; [rewrite Hh3, lookup_alter_eq, Hh, Hheap; reflexivity |].
  split.
  - rewrite Hl3, Hl, Hcalls, <- app_assoc. reflexivity.
  - rewrite Hp3, Hp. subst s1. rewrite fetchQuery_promises. reflexivity.
Qed.

(** Whatever form the retry option has, a fetch whose query function always
    rejects calls it once more than the policy allows retries: four times
    for [retry: true] or an unset option, once for [retry: false] and for a
    count that is zero or negative, [n + 1] times for the count [n] and for
    a predicate that accepts the first [n] failures only.  Then the status
    is error, and however long the environment goes on no further call is
    made. *)
Theorem retry_policy_invocations
    (n : nat) (now : Z) (caller : Caller) (options : QueryOptions) (err : Thrown)
    (s : System) :
  closed s ->
  retryBudget (retry options) err n ->
  is_AbortError err = false ->
  let fid := eval (fetchQuery now caller options) s in
  let s1 := exec (fetchQuery now caller options) s in
  forall fuel, (2 * n + 1 <= fuel)%nat ->
    let s' := alwaysRejects fuel now fid err s1 in
    frames s' !! fid = None
    /\ invocations (queryFn options) s' = (invocations (queryFn options) s + n + 1)%nat
    /\ status <$> stateOf (queryKey options) s' = Some StatusError.
Proof.
  intros Hclosed Hbudget Hnoabort fid s1 fuel Hfuel.
  destruct (Nat.le_exists_sub _ _ Hfuel) as (m & -> & _).
  replace (m + (2 * n + 1))%nat with (2 * n + S m)%nat by lia.
  intros s'.
  destruct (exhausted_fetch n now caller options err s m Hclosed Hbudget Hnoabort)
    as (e & c & t & Hgone & Hcache & Hheap & Hcalls & _).
  fold fid s1 s' in Hgone, Hcache, Hheap, Hcalls.
  split; [exact Hgone |]. split.
  - rewrite (invocations_replicate options c (S n) s s' Hcalls). lia.
  - unfold stateOf. rewrite Hcache. cbn [mbind option_bind]. rewrite Hheap. reflexivity.
Qed.

Lemma retry_policy_invocations_witness :
  let k := KeyArray [JStr "posts"] in
  let boom := ErrorObject "Error" "boom" in
  let never := withRetry (RetryBool false) (optionsFor k 7) in
  let always := withRetry (RetryBool true) (optionsFor k 7) in
  closed newQueryClient
  /\ retryBudget (retry never) boom 0
  /\ retryBudget (retry always) boom 3
  /\ invocations 7 (alwaysRejects 1 0 (eval (fetchQuery 0 External never) newQueryClient)
                      boom (exec (fetchQuery 0 External never) newQueryClient)) = 1%nat
  /\ invocations 7 (alwaysRejects 7 0 (eval (fetchQuery 0 External always) newQueryClient)
                      boom (exec (fetchQuery 0 External always) newQueryClient)) = 4%nat.
Proof.
  intros k boom never always.
  split; [apply closed_newQueryClient |].
  split; [reflexivity |].
  split; [reflexivity |].
  split.
  - apply (retry_policy_invocations 0 0 External never boom newQueryClient
             closed_newQueryClient eq_refl eq_refl 1%nat). lia.
  - apply (retry_policy_invocations 3 0 External always boom newQueryClient
             closed_newQueryClient eq_refl eq_refl 7%nat). lia.
Defined.



(** A fetch whose query function fails [k] times, within what the retry
    policy allows, and then resolves with [d] ends in success: the data is
    [d], stamped with the time of the resolution, the error is null, the
    failure count is zero, the fetch status is idle; the failed attempts
    leave no trace in the entry.  The query function has been called
    [k + 1] times, the promise of [fetchQuery] is fulfilled with [d], and
    [onSuccess] and [onSettled] are queued, each when it was given. *)
Theorem retried_fetch_succeeds
    (n k : nat) (now t : Z) (caller : Caller) (options : QueryOptions) (err : Thrown)
    (d : option JSON) (s : System) :
  closed s ->
  retryBudget (retry options) err n ->
  (k <= n)%nat ->
  let fid := eval (fetchQuery now caller options) s in
  let s1 := exec (fetchQuery now caller options) s in
  let s2 := alwaysRejects (2 * k) now fid err s1 in
  let s3 := step t (FnSettles fid (Resolved d)) s2 in
  let before := default initialState (stateOf (queryKey options) s) in
  stateOf (queryKey options) s3 =
    Some {| data := d; dataUpdatedAt := t; error := None; errorUpdatedAt := 0;
            failureCount := 0; failureReason := None; fetchStatus := Idle;
            isInvalidated := isInvalidated before; status := StatusSuccess |}
  /\ invocations (queryFn options) s3 = (invocations (queryFn options) s + k + 1)%nat
  /\ frames s3 !! fid = None
  /\ promises s3 = promises s ++ [(fid, caller, Resolved d)]
  /\ exists e,
       queue s3 =
         queue s
         ++ (if onSuccess options then [TaskOnSuccess options d] else [])
         ++ (if onSettled options then [TaskOnSettled options e] else []).
Proof.
  intros Hclosed Hbudget Hk fid s1 s2 s3 before.
  destruct (fetchQuery_spec now caller options s Hclosed)
    as (e & c & en0 & Hfr & Hab & Hcache & -> & Hheap & Hcalls).
  cbv zeta in Hfr, Hab, Hcache, Hheap, Hcalls. fold s1 fid in Hfr, Hab, Hcache, Hheap, Hcalls.
  assert (Hin : inflight fid e c options caller 0 AwaitingFn s1).
  { repeat split; [exact Hfr | exact Hab | rewrite Hheap; eexists; reflexivity]. }
  destruct (rejections_retried n options err fid e c caller Hbudget k 0 0%nat s1 now
              Hin ltac:(lia))
    as (now' & s2' & Hrun & (Hfr2 & _ & _) & Hh & Hc & Hl & _ & Hp & Hq & _).
  rewrite Nat.add_0_r in Hrun. cbn [alwaysRejects] in Hrun. fold s2 in Hrun. subst s2'.
  assert (Hen2 : heap s2 !! e = Some (upd_state setFetching
                   (upd_abortController (Some c)
                      match cache s !! getQueryKey (queryKey options) with
                      | Some e0 => default initialEntry (heap s !! e0)
                      | None => initialEntry
                      end))) by (rewrite Hh; exact Hheap).
  assert (Hstep : s3 = exec (fetchSucceeded t fid
                               {| frameEntry := e; frameOptions := options;
                                  frameSignal := c; frameAttempt := 0 + k;
                                  framePhase := AwaitingFn; frameCaller := caller |} d) s2).
  { subst s3. cbn [step]. unfold fnSettles.
    rewrite exec_bind, exec_gets, eval_gets, Hfr2. reflexivity. }
  destruct (fetchSucceeded_run t fid
              {| frameEntry := e; frameOptions := options; frameSignal := c;
                 frameAttempt := 0 + k; framePhase := AwaitingFn; frameCaller := caller |}
              d _ s2 Hen2)
    as (Hst & _ & Hc3 & Hl3 & _ & _ & Hf3 & Hp3 & Hq3 & _).
  cbv zeta in Hst, Hc3, Hl3, Hf3, Hp3, Hq3.
  cbn [frameEntry frameOptions frameCaller] in Hst, Hc3, Hl3, Hf3, Hp3, Hq3.
  rewrite <- Hstep in Hst, Hc3, Hl3, Hf3, Hp3, Hq3.
  assert (Hbefore : isInvalidated before =
            isInvalidated (state match cache s !! getQueryKey (queryKey options) with
                                 | Some e0 => default initialEntry (heap s !! e0)
                                 | None => initialEntry
                                 end)).
  { subst before. unfold stateOf.
    destruct (cache s !! getQueryKey (queryKey options)) as [e0|] eqn:Hk0;
      cbn [mbind option_bind]; [| reflexivity].
    destruct (closed_cache _ Hclosed _ _ Hk0) as [x Hx]. rewrite Hx. reflexivity. }
  split; [| split; [| split; [| split]]].
  - unfold stateOf. rewrite Hc3, Hc, Hcache. cbn [mbind option_bind].
    destruct (heap s3 !! e) as [en3|]; [| discriminate].
    cbn [fmap option_fmap option_map] in Hst. injection Hst as Hst.
    cbn [mbind option_bind]. rewrite Hst, Hbefore. reflexivity.
  - assert (Hall : calls s3 = calls s ++ replicate (S k) (invocationOf options c)).
    { rewrite Hl3, Hl, Hcalls, <- app_assoc. reflexivity. }
    rewrite (invocations_replicate options c (S k) s s3 Hall). lia.
  - rewrite Hf3. apply lookup_delete_eq.
  - rewrite Hp3, Hp. subst s1. rewrite fetchQuery_promises. reflexivity.
  - exists e. rewrite Hq3, Hq. subst s1. rewrite fetchQuery_queue. reflexivity.
Qed.

Lemma retried_fetch_succeeds_witness :
  let k := KeyArray [JStr "posts"] in
  let boom := ErrorObject "Error" "boom" in
  let options := withCallbacks (optionsFor k 7) in
  let fid := eval (fetchQuery 0 External options) newQueryClient in
  let s3 := step 9000 (FnSettles fid (Resolved (Some (JStr "A"))))
              (alwaysRejects 4 0 fid boom
                 (exec (fetchQuery 0 External options) newQueryClient)) in
  closed newQueryClient
  /\ retryBudget (retry options) boom 3
  /\ (2 <= 3)%nat
  /\ status <$> stateOf k s3 = Some StatusSuccess
  /\ failureCount <$> stateOf k s3 = Some 0%nat
  /\ invocations 7 s3 = 3%nat.
Proof.
  intros k boom options fid s3.
  destruct (retried_fetch_succeeds 3 2 0 9000 External options boom (Some (JStr "A"))
              newQueryClient closed_newQueryClient eq_refl ltac:(lia))
    as (Hst & Hi & _).
  split; [apply closed_newQueryClient |].
  split; [reflexivity |].
  split; [lia |].
  change (queryKey options) with k in Hst. fold fid in Hst, Hi.
  change (2 * 2)%nat with 4%nat in Hst, Hi. fold s3 in Hst, Hi.
  rewrite Hst. split; [reflexivity |]. split; [reflexivity | exact Hi].
Defined.

(* ================================================================== *)
(** ** Deferred callbacks *)
(* ================================================================== *)

Lemma runTask_fired (t : Task) (s : System) :
  fired (exec (runTask t) s) = fired s ++ [callOf (heap s) t].
Proof. destruct t; reflexivity. Qed.

Lemma runTask_heap (t : Task) : preserves heap (runTask t).
Proof. frame. Qed.

Lemma runTasks_fired (q : list Task) (s : System) :
  let m := foldr (fun t rest => runTask t ;; rest) (ret tt) q in
  fired (exec m s) = fired s ++ List.map (callOf (heap s)) q
  /\ heap (exec m s) = heap s.
Proof.
  cbv zeta. revert s. induction q as [|t q IH]; intros s; cbn [foldr List.map].
  - rewrite exec_ret, app_nil_r. split; reflexivity.
  - rewrite exec_bind. destruct (IH (exec (runTask t) s)) as [IHf IHh].
    rewrite IHf, IHh, runTask_fired, runTask_heap, <- app_assoc. split; reflexivity.
Qed.

(** The flush, field by field. *)
Lemma microtaskFlush_run (now : Z) (s : System) :
  isPending s = true ->
  let s' := step now MicrotaskFlush s in
  fired s' = fired s ++ List.map (callOf (heap s)) (queue s)
  /\ queue s' = []
  /\ isPending s' = false
  /\ heap s' = heap s /\ cache s' = cache s /\ frames s' = frames s
  /\ timers s' = timers s /\ calls s' = calls s /\ notified s' = notified s.
Proof.
  intros Hp. cbn [step]. unfold microtaskFlush.
  rewrite exec_bind, exec_gets, eval_gets, Hp. cbn [when].
  rewrite !exec_bind, exec_gets, eval_gets, !exec_modify.
  cbn [queue upd_isPending upd_queue isPending].
  set (m := foldr _ _ _).
  destruct (runTasks_fired (queue s) (upd_isPending false s)) as [Hf Hh].
  fold m in Hf, Hh. cbn [fired heap upd_isPending] in Hf, Hh.
  assert (K : forall {A} (f : System -> A),
            (forall t, preserves f (runTask t)) ->
            f (exec m (upd_isPending false s)) = f (upd_isPending false s)).
  { intros A f Hrt. apply (preserves_foldr f runTask (queue s) Hrt). }
  cbn [fired heap cache frames timers calls notified upd_queue].
  rewrite Hf, Hh, !K by (intros; frame).
  repeat split.
Qed.

(** The flush of batching.ts runs every queued callback once, in the order
    in which they were deferred, and leaves the queue empty and no flush
    scheduled; it touches nothing else.  [onSettled] is given the data and
    error the entry has when the flush runs. *)
Theorem flush_runs_queue_in_order (now : Z) (s : System) :
  isPending s = true ->
  let s' := step now MicrotaskFlush s in
  fired s' = fired s ++ List.map (callOf (heap s)) (queue s)
  /\ queue s' = []
  /\ isPending s' = false
  /\ heap s' = heap s /\ cache s' = cache s /\ frames s' = frames s
  /\ timers s' = timers s /\ calls s' = calls s /\ notified s' = notified s.
Proof. exact (microtaskFlush_run now s). Qed.

Lemma flush_runs_queue_in_order_witness :
  let k := KeyArray [JStr "posts"] in
  let options := withCallbacks (optionsFor k 7) in
  let s := run [(0, CallFetchQuery options);
                (10, FnSettles 2 (Resolved (Some (JStr "A"))))] newQueryClient in
  isPending s = true
  /\ fired (step 11 MicrotaskFlush s)
     = [CalledOnSuccess k (Some (JStr "A")); CalledOnSettled k (Some (JStr "A")) None].
Proof.
  intros k options s.
  assert (Hp : isPending s = true) by (vm_compute; reflexivity).
  destruct (flush_runs_queue_in_order 11 s Hp) as (Hf & _).
  split; [exact Hp |]. rewrite Hf. vm_compute. reflexivity.
Defined.

(** Only the flush runs callbacks: no call of the client, no settled
    promise and no timer runs [onSuccess], [onError] or [onSettled] in its
    own turn. *)
Theorem callbacks_never_run_synchronously (now : Z) (ev : Event) (s : System) :
  ev <> MicrotaskFlush ->
  fired (step now ev s) = fired s.
Proof.
  intros Hev. revert s.
  destruct ev; try contradiction; cbn [step];
    match goal with |- forall s, fired (exec ?m s) = fired s => change (preserves fired m) end;
    frame.
Qed.

Lemma callbacks_never_run_synchronously_witness :
  let k := KeyArray [JStr "posts"] in
  let options := withCallbacks (optionsFor k 7) in
  let s := run [(0, CallFetchQuery options)] newQueryClient in
  FnSettles 2 (Resolved (Some (JStr "A"))) <> MicrotaskFlush
  /\ fired (step 10 (FnSettles 2 (Resolved (Some (JStr "A")))) s) = []
  /\ length (queue (step 10 (FnSettles 2 (Resolved (Some (JStr "A")))) s)) = 2%nat.
Proof.
  intros k options s.
  split; [discriminate |]. split.
  - rewrite (callbacks_never_run_synchronously 10 _ s) by discriminate. reflexivity.
  - vm_compute. reflexivity.
Defined.

Ltac scheduled_leaf :=
  idtac;
  lazymatch goal with
  | |- keeps scheduled (defer _) =>
      let s := fresh "s" in
      let H := fresh "H" in
      intros s H; right;
      cbv beta iota delta [defer exec bind modify gets when ret snd negb];
      cbn [isPending upd_queue]; destruct (isPending s) eqn:?; cbn; congruence
  | |- keeps scheduled microtaskFlush =>
      let s := fresh "s" in
      let H := fresh "H" in
      intros s H; destruct (isPending s) eqn:Hp;
      [ left; apply (microtaskFlush_run 0 s Hp)
      | unfold microtaskFlush; rewrite exec_bind, exec_gets, eval_gets, Hp; exact H ]
  | |- keeps scheduled (modify (upd_queue _)) => fail
  | |- keeps scheduled (modify (upd_isPending _)) => fail
  | |- keeps scheduled (modify _) =>
      let s := fresh "s" in
      let H := fresh "H" in
      intros s H; exact H
  | |- keeps scheduled fresh =>
      let s := fresh "s" in
      let H := fresh "H" in
      intros s H; exact H
  end.

Lemma scheduled_step (now : Z) (ev : Event) (s : System) :
  scheduled s -> scheduled (step now ev s).
Proof.
  revert s. destruct ev; cbn [step];
    match goal with |- forall s, scheduled s -> scheduled (exec ?m s) =>
      change (keeps scheduled m) end;
    walk scheduled_leaf.
Qed.

(** Strip from an observation the steps of a method that leave it alone. *)
Ltac peel f :=
  repeat match goal with
         | |- context [f (exec ?m ?x)] =>
             let K := fresh "K" in
             assert (K : preserves f m) by frame;
             rewrite (K x); clear K
         end.

Lemma defer_run (t : Task) (s : System) :
  queue (exec (defer t) s) = queue s ++ [t]
  /\ isPending (exec (defer t) s) = true.
Proof.
  cbv beta iota delta [defer exec bind modify gets when ret snd negb].
  cbn [isPending upd_queue]. destruct (isPending s) eqn:Hp; cbn; split; congruence.
Qed.

(** Whether a flush is scheduled after a fetch has settled. *)
Lemma settled_fetch_isPending (now : Z) (fid : nat) (fr : Frame) (s : System) :
  (forall d,
     isPending (exec (fetchSucceeded now fid fr d) s)
     = isPending s || onSuccess (frameOptions fr) || onSettled (frameOptions fr))
  /\ (forall err, is_AbortError err = false ->
     isPending (exec (fetchFailed now fid fr err) s)
     = isPending s || onError (frameOptions fr) || onSettled (frameOptions fr)
     /\ queue (exec (fetchFailed now fid fr err) s)
        = queue s
          ++ (if onError (frameOptions fr) then [TaskOnError (frameOptions fr) err] else [])
          ++ (if onSettled (frameOptions fr)
              then [TaskOnSettled (frameOptions fr) (frameEntry fr)] else [])
     /\ fired (exec (fetchFailed now fid fr err) s) = fired s).
Proof.
  split.
  - intros d. unfold fetchSucceeded, fetchFinally. rewrite !exec_bind. peel isPending.
    destruct (onSettled (frameOptions fr)), (onSuccess (frameOptions fr)); cbn [when];
      rewrite ?(proj2 (defer_run _ _)), ?exec_ret; peel isPending;
      rewrite ?(proj2 (defer_run _ _)), ?exec_ret; peel isPending;
      rewrite ?orb_true_r, ?orb_false_r; reflexivity.
  - intros err Hab. unfold fetchFailed, fetchFinally. rewrite Hab. cbv zeta.
    rewrite !exec_bind. split; [| split].
    + peel isPending.
      destruct (onSettled (frameOptions fr)), (onError (frameOptions fr)); cbn [when];
        rewrite ?(proj2 (defer_run _ _)), ?exec_ret; peel isPending;
        rewrite ?(proj2 (defer_run _ _)), ?exec_ret; peel isPending;
        rewrite ?orb_true_r, ?orb_false_r; reflexivity.
    + peel queue.
      destruct (onSettled (frameOptions fr)), (onError (frameOptions fr)); cbn [when];
        rewrite ?(proj1 (defer_run _ _)), ?exec_ret; peel queue;
        rewrite ?(proj1 (defer_run _ _)), ?exec_ret; peel queue;
        rewrite ?app_nil_r, <- ?app_assoc; reflexivity.
    + peel fired. reflexivity.
Qed.

Lemma flush_not_scheduled (now : Z) (s : System) :
  isPending s = false -> step now MicrotaskFlush s = s.
Proof.
  intros Hp. cbn [step]. unfold microtaskFlush, exec, bind, gets. rewrite Hp. reflexivity.
Qed.

(** The callbacks of a fetch, once a flush whose callbacks return has run. *)
Lemma settled_fetch_fired
    (now t : Z) (fid : nat) (fr : Frame) (en : QueryCacheEntry) (s : System) :
  frames s !! fid = Some fr ->
  framePhase fr = AwaitingFn ->
  heap s !! frameEntry fr = Some en ->
  queue s = [] ->
  let options := frameOptions fr in
  (forall d,
     fired (step t MicrotaskFlush (step now (FnSettles fid (Resolved d)) s))
     = fired s
       ++ (if onSuccess options then [CalledOnSuccess (queryKey options) d] else [])
       ++ (if onSettled options then [CalledOnSettled (queryKey options) d None] else []))
  /\ (forall err,
        is_AbortError err = false ->
        shouldRetry (default (RetryCount 3) (retry options)) (frameAttempt fr) err = false ->
        fired (step t MicrotaskFlush (step now (FnSettles fid (Rejected err)) s))
        = fired s
          ++ (if onError options then [CalledOnError (queryKey options) err] else [])
          ++ (if onSettled options
              then [CalledOnSettled (queryKey options) (data (state en)) (error_field err)]
              else [])).
Proof.
  intros Hfr Hph Hen Hq options. split.
  - intros d.
    assert (Hstep : step now (FnSettles fid (Resolved d)) s
                    = exec (fetchSucceeded now fid fr d) s).
    { cbn [step]. unfold fnSettles. rewrite exec_bind, exec_gets, eval_gets, Hfr.
      cbn [whenSome]. rewrite Hph. reflexivity. }
    rewrite Hstep.
    destruct (fetchSucceeded_run now fid fr d en s Hen)
      as (Hst & _ & _ & _ & _ & Hf & _ & _ & Hq' & _).
    cbv zeta in Hst, Hf, Hq'.
    pose proof (proj1 (settled_fetch_isPending now fid fr s) d) as Hp.
    set (s' := exec (fetchSucceeded now fid fr d) s) in *.
    fold options in Hq', Hp. rewrite Hq in Hq'. cbn [app] in Hq'.
    destruct (isPending s') eqn:Hp'.
    + destruct (microtaskFlush_run t s' Hp') as (Hfired & _).
      rewrite Hfired, Hf, Hq'. f_equal.
      destruct (heap s' !! frameEntry fr) as [en'|] eqn:Hen'; [| discriminate].
      cbn [fmap option_fmap option_map] in Hst. injection Hst as Hst.
      destruct (onSuccess options), (onSettled options); cbn [app List.map callOf];
        rewrite ?Hen'; cbn [mbind option_bind]; rewrite ?Hst; reflexivity.
    + rewrite (flush_not_scheduled t s' Hp'), Hf.
      symmetry in Hp. apply orb_false_elim in Hp as [Hp Hsettled].
      apply orb_false_elim in Hp as [_ Hsuccess].
      rewrite Hsuccess, Hsettled. cbn [app]. rewrite app_nil_r. reflexivity.
  - intros err Hab Hre.
    rewrite (reject_gives_up now fid fr err s Hfr Hph (or_intror Hre)).
    destruct (fetchFailed_error now fid fr err s Hab) as (Hh & _).
    destruct (proj2 (settled_fetch_isPending now fid fr s) err Hab) as (Hp & Hq' & Hf).
    set (s' := exec (fetchFailed now fid fr err) s) in *.
    fold options in Hq', Hp. rewrite Hq in Hq'. cbn [app] in Hq'.
    destruct (isPending s') eqn:Hp'.
    + destruct (microtaskFlush_run t s' Hp') as (Hfired & _).
      rewrite Hfired, Hf, Hq'. f_equal.
      assert (Hen' : heap s' !! frameEntry fr = Some (upd_state (setError now err) en))
        by (rewrite Hh, lookup_alter_eq, Hen; reflexivity).
      destruct (onError options), (onSettled options); cbn [app List.map callOf];
        rewrite ?Hen'; reflexivity.
    + rewrite (flush_not_scheduled t s' Hp'), Hf.
      symmetry in Hp. apply orb_false_elim in Hp as [Hp Hsettled].
      apply orb_false_elim in Hp as [_ Herror].
      rewrite Herror, Hsettled. cbn [app]. rewrite app_nil_r. reflexivity.
Qed.

(* ================================================================== *)
(** ** Removing entries *)
(* ================================================================== *)

(** [cleanupQuery] aborts the entry's controller and clears its two timers;
    it writes nothing else. *)
Lemma cleanupQuery_run (e : nat) (en : QueryCacheEntry) (s : System) :
  heap s !! e = Some en ->
  let s' := exec (cleanupQuery e) s in
  aborted s' = abortSome (abortController en) (aborted s)
  /\ timers s' = clearSome (entryRefetchInterval en) (clearSome (gcTimeout en) (timers s))
  /\ heap s' = heap s /\ cache s' = cache s /\ frames s' = frames s
  /\ calls s' = calls s /\ notified s' = notified s /\ queue s' = queue s
  /\ promises s' = promises s /\ fired s' = fired s.
Proof.
  intros Hen. cbv zeta. unfold cleanupQuery, deref.
  rewrite exec_bind, exec_gets, eval_gets, Hen. cbn [whenSome].
  destruct (abortController en), (gcTimeout en), (entryRefetchInterval en);
    cbn [whenSome abortSome clearSome]; repeat split.
Qed.

Lemma cleanupQuery_missing (e : nat) (s : System) :
  heap s !! e = None -> exec (cleanupQuery e) s = s.
Proof.
  intros Hen. unfold cleanupQuery, deref.
  rewrite exec_bind, exec_gets, eval_gets, Hen. reflexivity.
Qed.

Lemma abortSome_idem (o : option nat) (ab : gmap nat bool) :
  abortSome o (abortSome o ab) = abortSome o ab.
Proof. destruct o; cbn; [apply insert_insert_eq | reflexivity]. Qed.

Lemma clearSome_lookup (o : option nat) (tm : gmap nat Timer) (t : nat) :
  clearSome o tm !! t = if decide (o = Some t) then None else tm !! t.
Proof.
  destruct o as [t'|]; cbn [clearSome].
  - case_decide as H.
    + injection H as ->. apply lookup_delete_eq.
    + apply lookup_delete_ne. congruence.
  - case_decide; [discriminate | reflexivity].
Qed.

(** [removeQueries] with a key, field by field. *)
Lemma removeQueries_run (k : QueryKey) (s : System) :
  truthy k = true ->
  let s' := exec (removeQueries (Some k)) s in
  cache s' = delete (getQueryKey k) (cache s)
  /\ eval (getQueryData k) s' = None
  /\ heap s' = heap s
  /\ (forall k', getQueryKey k' <> getQueryKey k -> stateOf k' s' = stateOf k' s)
  /\ notified s' = notified s
  /\ calls s' = calls s
  /\ (cache s !! getQueryKey k = None -> s' = s)
  /\ (forall e en, cache s !! getQueryKey k = Some e -> heap s !! e = Some en ->
        aborted s' = abortSome (abortController en) (aborted s)
        /\ (forall t, gcTimeout en = Some t \/ entryRefetchInterval en = Some t ->
                      timers s' !! t = None)).
Proof.
  intros Hk. cbv zeta. unfold removeQueries. rewrite Hk.
  rewrite exec_bind, exec_gets, eval_gets.
  assert (Hget : forall x, cache x = delete (getQueryKey k) (cache s) ->
                           heap x = heap s ->
                           eval (getQueryData k) x = None
                           /\ (forall k', getQueryKey k' <> getQueryKey k ->
                                          stateOf k' x = stateOf k' s)).
  { intros x Hc Hh. split.
    - rewrite getQueryData_eval. unfold stateOf. rewrite Hc, lookup_delete_eq. reflexivity.
    - intros k' Hne. unfold stateOf. rewrite Hc, Hh, lookup_delete_ne by congruence.
      reflexivity. }
  destruct (cache s !! getQueryKey k) as [e|] eqn:Hc; cbn [whenSome].
  - rewrite exec_bind. unfold cacheDelete.
    set (s1 := exec (cleanupQuery e) s).
    assert (H1c : cache s1 = cache s) by (subst s1; peel cache; reflexivity).
    rewrite exec_bind, exec_gets, eval_gets, H1c, Hc. cbn [whenSome].
    rewrite exec_bind, exec_modify.
    set (s2 := exec (cleanupQuery e) s1).
    assert (H2 : cache s2 = cache s /\ heap s2 = heap s /\ notified s2 = notified s
                 /\ calls s2 = calls s).
    { subst s2 s1. repeat split;
        [peel cache | peel heap | peel notified | peel calls]; reflexivity. }
    destruct H2 as (H2c & H2h & H2n & H2l).
    cbn [cache heap notified calls aborted timers upd_cache].
    rewrite H2c, H2h, H2n, H2l.
    destruct (Hget (upd_cache (delete (getQueryKey k)) s2)) as [Hg1 Hg2];
      [cbn; rewrite H2c; reflexivity | cbn; exact H2h |].
    split; [reflexivity |]. split; [exact Hg1 |]. split; [reflexivity |].
    split; [exact Hg2 |]. split; [reflexivity |]. split; [reflexivity |].
    split; [discriminate |].
    intros e' en [= <-] Hen.
    destruct (cleanupQuery_run e en s Hen) as (Ha1 & Ht1 & Hh1 & _).
    fold s1 in Ha1, Ht1, Hh1.
    destruct (cleanupQuery_run e en s1 ltac:(rewrite Hh1; exact Hen)) as (Ha2 & Ht2 & _).
    fold s2 in Ha2, Ht2.
    rewrite Ha2, Ha1, abortSome_idem. split; [reflexivity |].
    intros t Ht. rewrite Ht2, Ht1, !clearSome_lookup.
    destruct Ht as [Ht | Ht]; rewrite Ht; repeat case_decide; congruence.
  - rewrite exec_ret.
    assert (Hdel : cache s = delete (getQueryKey k) (cache s))
      by (symmetry; apply delete_id, Hc).
    destruct (Hget s Hdel eq_refl) as [Hg1 Hg2].
    split; [exact Hdel |]. split; [exact Hg1 |]. split; [reflexivity |].
    split; [exact Hg2 |]. split; [reflexivity |]. split; [reflexivity |].
    split; [reflexivity |]. intros e en [=].
Qed.

(** [removeQueries(key)] drops the entry stored under the key: the key is
    no longer stored and [getQueryData] returns [undefined] for it.  The
    fetch in flight for the entry, if any, has its signal aborted, and the
    entry's garbage-collection and refetch timers are cleared.  Every other
    key keeps its entry and state; no observer is notified and no query
    function is called.  A key that is not stored changes nothing. *)
Theorem removeQueries_drops_entry (k : QueryKey) (s : System) :
  truthy k = true ->
  let s' := exec (removeQueries (Some k)) s in
  cache s' = delete (getQueryKey k) (cache s)
  /\ eval (getQueryData k) s' = None
  /\ heap s' = heap s
  /\ (forall k', getQueryKey k' <> getQueryKey k -> stateOf k' s' = stateOf k' s)
  /\ notified s' = notified s
  /\ calls s' = calls s
  /\ (cache s !! getQueryKey k = None -> s' = s)
  /\ (forall e en, cache s !! getQueryKey k = Some e -> heap s !! e = Some en ->
        aborted s' = abortSome (abortController en) (aborted s)
        /\ (forall t, gcTimeout en = Some t \/ entryRefetchInterval en = Some t ->
                      timers s' !! t = None)).
Proof. exact (removeQueries_run k s). Qed.

Lemma removeQueries_drops_entry_witness :
  let k := KeyArray [JStr "posts"] in
  let options := withRefetchInterval 1000 (optionsFor k 7) in
  let s := run [(0, CallFetchQuery options);
                (10, FnSettles 2 (Resolved (Some (JStr "A"))));
                (20, CallFetchQuery options)] newQueryClient in
  let s' := exec (removeQueries (Some k)) s in
  truthy k = true
  /\ eval (getQueryData k) s = Some (JStr "A")
  /\ eval (getQueryData k) s' = None
  /\ aborted s' !! 5%nat = Some true
  /\ timers s' = ∅.
Proof.
  intros k options s s'.
  destruct (removeQueries_drops_entry k s eq_refl) as (_ & Hget & _).
  split; [reflexivity |]. split; [vm_compute; reflexivity |]. split; [exact Hget |].
  split; vm_compute; reflexivity.
Defined.

(** One [cleanupQuery] never un-aborts a signal and never re-arms a timer. *)
Lemma cleanupQuery_stable (e : nat) (s : System) :
  let s' := exec (cleanupQuery e) s in
  heap s' = heap s /\ cache s' = cache s
  /\ (forall c, aborted s !! c = Some true -> aborted s' !! c = Some true)
  /\ (forall t, timers s !! t = None -> timers s' !! t = None).
Proof.
  cbv zeta. destruct (heap s !! e) as [en|] eqn:Hen.
  - destruct (cleanupQuery_run e en s Hen) as (Ha & Ht & Hh & Hc & _).
    rewrite Ha, Ht, Hh, Hc. repeat split.
    + intros c Hc'. destruct (abortController en) as [c0|]; cbn [abortSome]; [| exact Hc'].
      rewrite lookup_insert. case_decide; [reflexivity | exact Hc'].
    + intros t Ht'. rewrite !clearSome_lookup. repeat case_decide; congruence.
  - rewrite (cleanupQuery_missing e s Hen). repeat split; auto.
Qed.

(** Disposing of a list of entries aborts the controller and clears the
    timers of every one of them. *)
Lemma dispose_all (l : list (string * nat)) :
  forall s,
    let s' := exec (foldr (fun kv rest => cleanupQuery (snd kv) ;; rest) (ret tt) l) s in
    heap s' = heap s /\ cache s' = cache s
    /\ (forall c, aborted s !! c = Some true -> aborted s' !! c = Some true)
    /\ (forall t, timers s !! t = None -> timers s' !! t = None)
    /\ (forall key e en, (key, e) ∈ l -> heap s !! e = Some en ->
          (forall c, abortController en = Some c -> aborted s' !! c = Some true)
          /\ (forall t, gcTimeout en = Some t \/ entryRefetchInterval en = Some t ->
                        timers s' !! t = None)).
Proof.
  induction l as [|[key0 e0] l IH]; intros s; cbn [foldr snd].
  - rewrite exec_ret. do 4 (split; [auto |]). intros key e en Hin. inversion Hin.
  - rewrite exec_bind.
    destruct (cleanupQuery_stable e0 s) as (Hh1 & Hc1 & Ha1 & Ht1).
    set (s1 := exec (cleanupQuery e0) s) in *.
    destruct (IH s1) as (Hh & Hc & Ha & Ht & Hall).
    split; [rewrite Hh; exact Hh1 |]. split; [rewrite Hc; exact Hc1 |].
    split; [intros c Hc'; apply Ha, Ha1, Hc' |].
    split; [intros t Ht'; apply Ht, Ht1, Ht' |].
    intros key e en Hin Hen. apply elem_of_cons in Hin as [[= -> ->] | Hin].
    + destruct (cleanupQuery_run e0 en s Hen) as (Ha0 & Ht0 & _). fold s1 in Ha0, Ht0.
      split.
      * intros c Hc'. apply Ha. rewrite Ha0, Hc'. cbn. apply lookup_insert_eq.
      * intros t Ht'. apply Ht. rewrite Ht0, !clearSome_lookup.
        destruct Ht' as [Ht' | Ht']; rewrite Ht'; repeat case_decide; congruence.
    + apply (Hall key e en Hin). rewrite Hh1. exact Hen.
Qed.

(** [clear], field by field. *)
Lemma cacheClear_run (s : System) :
  let s' := exec clear s in
  exec (removeQueries None) s = s'
  /\ exec (removeQueries (Some (KeyString ""))) s = s'
  /\ cache s' = ∅
  /\ (forall k, eval (getQueryData k) s' = None)
  /\ heap s' = heap s
  /\ notified s' = notified s
  /\ calls s' = calls s
  /\ (forall key e en, cache s !! key = Some e -> heap s !! e = Some en ->
        (forall c, abortController en = Some c -> aborted s' !! c = Some true)
        /\ (forall t, gcTimeout en = Some t \/ entryRefetchInterval en = Some t ->
                      timers s' !! t = None)).
Proof.
  cbv zeta. split; [reflexivity |]. split; [reflexivity |].
  unfold clear, cacheClear. rewrite !exec_bind, exec_gets, eval_gets, exec_modify.
  set (m := foldr _ _ _).
  destruct (dispose_all (map_to_list (cache s)) s) as (Hh & Hc & _ & _ & Hall).
  fold m in Hh, Hc, Hall.
  cbn [cache heap notified calls aborted timers upd_cache].
  split; [reflexivity |].
  split.
  { intros k. rewrite getQueryData_eval. unfold stateOf. cbn [cache upd_cache].
    rewrite lookup_empty. reflexivity. }
  split; [exact Hh |].
  assert (K : forall {A} (f : System -> A),
            (forall e, preserves f (cleanupQuery e)) -> f (exec m s) = f s).
  { intros A f Hp. apply (preserves_foldr f (fun kv => cleanupQuery (snd kv))
                            (map_to_list (cache s))). intros; apply Hp. }
  split; [apply K; intros; frame |]. split; [apply K; intros; frame |].
  intros key e en Hk Hen. apply (Hall key e en); [| exact Hen].
  apply elem_of_map_to_list, Hk.
Qed.

(** [clear()], and [removeQueries()] without a key or with the empty
    string, which is falsy, empty the cache: no key is stored any more, so
    [getQueryData] returns [undefined] for every key; every entry that was
    stored has its in-flight signal aborted and its timers cleared.  The
    entry objects themselves are not written, no observer is notified and
    no query function is called. *)
Theorem clear_disposes_every_entry (s : System) :
  let s' := exec clear s in
  exec (removeQueries None) s = s'
  /\ exec (removeQueries (Some (KeyString ""))) s = s'
  /\ cache s' = ∅
  /\ (forall k, eval (getQueryData k) s' = None)
  /\ heap s' = heap s
  /\ notified s' = notified s
  /\ calls s' = calls s
  /\ (forall key e en, cache s !! key = Some e -> heap s !! e = Some en ->
        (forall c, abortController en = Some c -> aborted s' !! c = Some true)
        /\ (forall t, gcTimeout en = Some t \/ entryRefetchInterval en = Some t ->
                      timers s' !! t = None)).
Proof. exact (cacheClear_run s). Qed.

Lemma clear_disposes_every_entry_witness :
  let posts := KeyArray [JStr "posts"] in
  let users := KeyArray [JStr "users"] in
  let s := run [(0, CallSetQueryData users (Some (JStr "U")));
                (1, CallFetchQuery (optionsFor posts 7))] newQueryClient in
  cache s !! getQueryKey posts = Some 1%nat
  /\ abortController <$> heap s !! 1%nat = Some (Some 2%nat)
  /\ aborted (exec clear s) !! 2%nat = Some true
  /\ eval (getQueryData users) s = Some (JStr "U")
  /\ eval (getQueryData users) (exec clear s) = None.
Proof.
  intros posts users s.
  destruct (clear_disposes_every_entry s) as (_ & _ & _ & Hget & _ & _ & _ & Hall).
  assert (Hk : cache s !! getQueryKey posts = Some 1%nat) by (vm_compute; reflexivity).
  assert (Hen : exists en, heap s !! 1%nat = Some en /\ abortController en = Some 2%nat)
    by (vm_compute; eexists; split; reflexivity).
  destruct Hen as (en & Hen & Hc).
  split; [exact Hk |]. split; [rewrite Hen; cbn; rewrite Hc; reflexivity |].
  split; [apply (proj1 (Hall _ _ _ Hk Hen)), Hc |].
  split; [vm_compute; reflexivity | apply Hget].
Defined.

(** A fetch that settles, and a back-off delay that elapses, never add a
    key to the cache or drop one.  So the late result of a fetch whose entry
    was removed while it was in flight stores nothing under the key: the
    result is written to the entry object the call captured, which the
    cache no longer holds, and a [getQueryData] that follows the late
    result returns [undefined].  The late success arms the timers of that
    object all the same; what their firing does is not part of this
    statement ([late_interval_stores_key_again] below). *)
Theorem late_result_stores_no_key
    (now : Z) (k : QueryKey) (fid : nat) (o : Outcome) (s : System) :
  cache (step now (FnSettles fid o) s) = cache s
  /\ cache (step now (DelayElapses fid) s) = cache s
  /\ (truthy k = true ->
      eval (getQueryData k) (step now (FnSettles fid o) (exec (removeQueries (Some k)) s))
      = None)
  /\ eval (getQueryData k) (step now (FnSettles fid o) (exec clear s)) = None.
Proof.
  assert (K1 : preserves cache (fnSettles now fid o)) by frame.
  assert (K2 : preserves cache (delayElapses fid)) by frame.
  split; [apply K1 |]. split; [apply K2 |]. split.
  - intros Hk. rewrite getQueryData_eval. unfold stateOf. cbn [step]. rewrite K1.
    destruct (removeQueries_run k s Hk) as (Hc & _).
    rewrite Hc, lookup_delete_eq. reflexivity.
  - rewrite getQueryData_eval. unfold stateOf. cbn [step]. rewrite K1.
    destruct (cacheClear_run s) as (_ & _ & Hc & _).
    rewrite Hc, lookup_empty. reflexivity.
Qed.

Lemma late_result_stores_no_key_witness :
  let k := KeyArray [JStr "posts"] in
  let s := run [(0, CallFetchQuery (optionsFor k 7))] newQueryClient in
  let s' := step 50 (FnSettles 2 (Resolved (Some (JStr "late"))))
              (exec (removeQueries (Some k)) s) in
  truthy k = true
  /\ eval (getQueryData k) s' = None
  /\ (heap s' !! 0%nat ≫= fun en => data (state en)) = Some (JStr "late").
Proof.
  intros k s s'.
  split; [reflexivity |]. split.
  - destruct (late_result_stores_no_key 50 k 2 (Resolved (Some (JStr "late"))) s)
      as (_ & _ & H & _).
    exact (H eq_refl).
  - vm_compute. reflexivity.
Defined.

(* ================================================================== *)
(** ** Invalidating every entry *)
(* ================================================================== *)

Lemma setInvalidated_idem (st : QueryState) :
  setInvalidated (setInvalidated st) = setInvalidated st.
Proof. reflexivity. Qed.



(* ================================================================== *)
(** ** Garbage collection *)
(* ================================================================== *)

Lemma cacheDelete_run (key : string) (s : System) :
  let s' := exec (cacheDelete key) s in
  cache s' = delete key (cache s)
  /\ heap s' = heap s
  /\ (forall t, timers s !! t = None -> timers s' !! t = None).
Proof.
  cbv zeta. unfold cacheDelete. rewrite exec_bind, exec_gets, eval_gets.
  destruct (cache s !! key) as [e|] eqn:Hk; cbn [whenSome].
  - rewrite exec_bind, exec_modify. cbn [cache heap timers upd_cache].
    destruct (cleanupQuery_stable e s) as (Hh & Hc & _ & Ht).
    rewrite Hc, Hh. repeat split. exact Ht.
  - rewrite exec_ret. split; [symmetry; apply delete_id, Hk |]. split; auto.
Qed.

(** When the last observer unsubscribes, a timer of [gcTime] milliseconds
    (five minutes by default) is armed and the entry stays stored until it
    fires; when it fires the key is dropped and [getQueryData] returns
    [undefined].  With a [gcTime] of zero or less no timer is armed: the
    entry is never collected by unsubscribing. *)
Theorem last_unsubscribe_arms_collection
    (now later : Z) (e ob : nat) (options : QueryOptions) (en : QueryCacheEntry)
    (s : System) :
  heap s !! e = Some en ->
  filter (fun x => observerId x <> ob) (observers en) = [] ->
  let g := default (5 * 60 * 1000) (gcTime options) in
  let k := queryKey options in
  let s1 := step now (CallUnsubscribe e ob options) s in
  cache s1 = cache s
  /\ observers <$> heap s1 !! e = Some []
  /\ (g <= 0 -> timers s1 = timers s)
  /\ (g > 0 ->
      timers s1 = <[nextId s := GcAfterUnsubscribe options g]> (timers s)
      /\ gcTimeout <$> heap s1 !! e = Some (Some (nextId s))
      /\ let s2 := step later (TimerFires (nextId s)) s1 in
         cache s2 = delete (getQueryKey k) (cache s)
         /\ eval (getQueryData k) s2 = None).
Proof.
  intros Hen Hlast g k s1. subst s1. cbn [step]. unfold unsubscribe.
  rewrite !exec_bind.
  set (s0 := exec (assign e _) s).
  assert (H0 : heap s0 !! e = Some (upd_observers (fun _ => []) en)
               /\ cache s0 = cache s /\ timers s0 = timers s /\ nextId s0 = nextId s).
  { subst s0. unfold assign. rewrite exec_modify. cbn [heap upd_heap cache timers nextId].
    rewrite lookup_alter_eq, Hen. cbn [fmap option_fmap option_map].
    unfold upd_observers at 1. rewrite Hlast. repeat split. }
  destruct H0 as (H0h & H0c & H0t & H0n).
  unfold deref. rewrite exec_gets, eval_gets, H0h. cbn [whenSome upd_observers observers length].
  rewrite bool_decide_eq_true_2 by reflexivity. cbn [when]. fold g.
  clearbody s0.
  destruct (decide (g > 0)) as [Hg | Hg].
  - rewrite (bool_decide_eq_true_2 _ Hg). cbn [when].
    set (s1 := exec (bind (setTimer _) _) s0).
    assert (H1 : heap s1 !! e = Some (upd_gcTimeout (Some (nextId s))
                                        (upd_observers (fun _ => []) en))
                 /\ cache s1 = cache s
                 /\ timers s1 = <[nextId s := GcAfterUnsubscribe options g]> (timers s)).
    { subst s1. cbv beta iota delta [setTimer fresh assign exec bind modify ret snd fst].
      cbn [cache heap timers nextId upd_heap upd_timers upd_nextId].
      rewrite lookup_alter_eq, H0h, H0c, H0t, H0n. repeat split. }
    destruct H1 as (H1h & H1c & H1t). clearbody s1.
    split; [exact H1c |]. split; [rewrite H1h; reflexivity |]. split; [lia |]. intros _.
    split; [exact H1t |]. split; [rewrite H1h; reflexivity |]. cbv zeta.
    cbn [step]. unfold timerFires.
    rewrite exec_bind, exec_gets, eval_gets, H1t, lookup_insert_eq. cbn [whenSome].
    rewrite exec_bind.
    destruct (cacheDelete_run (getQueryKey (queryKey options))
                (exec (clearTimer (nextId s)) s1)) as (Hc & _).
    fold k in Hc |- *.
    assert (Hc1 : cache (exec (clearTimer (nextId s)) s1) = cache s) by exact H1c.
    rewrite Hc1 in Hc. split; [exact Hc |].
    rewrite getQueryData_eval. unfold stateOf. rewrite Hc, lookup_delete_eq. reflexivity.
  - rewrite (bool_decide_eq_false_2 _ Hg). cbn [when]. rewrite exec_ret.
    split; [exact H0c |]. split; [rewrite H0h; reflexivity |].
    split; [intros _; exact H0t | lia].
Qed.

Lemma last_unsubscribe_arms_collection_witness :
  let k := KeyArray [JStr "posts"] in
  let options := optionsFor k 7 in
  let s := run [(0, CallSubscribeToQuery options);
                (10, FnSettles 3 (Resolved (Some (JStr "A"))))] newQueryClient in
  let s1 := step 20 (CallUnsubscribe 0 1 options) s in
  (length <$> (observers <$> heap s !! 0%nat)) = Some 1%nat
  /\ eval (getQueryData k) s1 = Some (JStr "A")
  /\ nextId s = 5%nat
  /\ eval (getQueryData k) (step 300020 (TimerFires 5) s1) = None.
Proof.
  intros k options s s1.
  assert (Hen : exists en, heap s !! 0%nat = Some en
                           /\ filter (fun x => observerId x <> 1%nat) (observers en) = [])
    by (vm_compute; eexists; split; reflexivity).
  destruct Hen as (en & Hen & Hlast).
  destruct (last_unsubscribe_arms_collection 20 300020 0 1 options en s Hen Hlast)
    as (_ & _ & _ & Hgc).
  destruct (Hgc ltac:(vm_compute; reflexivity)) as (_ & _ & _ & Hnone).
  assert (Hn : nextId s = 5%nat) by (vm_compute; reflexivity).
  rewrite Hn in Hnone.
  split; [vm_compute; reflexivity |]. split; [vm_compute; reflexivity |].
  split; [exact Hn | exact Hnone].
Defined.




(** The success path arms the collection timer of the entry: with a
    positive [gcTime] the entry's handle names a pending timer of that
    duration. *)
Lemma fetchSucceeded_collection
    (now : Z) (fid : nat) (fr : Frame) (d : option JSON) (en : QueryCacheEntry)
    (s : System) :
  heap s !! frameEntry fr = Some en ->
  default (5 * 60 * 1000) (gcTime (frameOptions fr)) > 0 ->
  let s' := exec (fetchSucceeded now fid fr d) s in
  exists t,
    timers s' !! t
    = Some (GcAfterFetch (frameEntry fr) (frameOptions fr)
              (default (5 * 60 * 1000) (gcTime (frameOptions fr))))
    /\ gcTimeout <$> heap s' !! frameEntry fr = Some (Some t).
Proof.
  intros Hen Hg. cbv zeta. unfold fetchSucceeded. rewrite !exec_bind.
  set (e := frameEntry fr) in *.
  set (s1 := exec (assign e (upd_state _)) s).
  set (s2 := exec (whenSome (refetchInterval (frameOptions fr)) _) s1).
  assert (H1 : is_Some (heap s1 !! e)).
  { subst s1. unfold assign. rewrite exec_modify. cbn [heap upd_heap].
    rewrite lookup_alter_eq, Hen. eexists; reflexivity. }
  assert (H2 : is_Some (heap s2 !! e)).
  { subst s2. clearbody s1. destruct (refetchInterval (frameOptions fr)) as [ms|]; cbn [whenSome].
    - destruct (bool_decide (ms > 0)); cbn [when]; [| rewrite exec_ret; exact H1].
      cbv beta iota delta [setTimer fresh assign exec eval bind modify ret fst snd].
      cbn [heap upd_heap upd_timers upd_nextId]. rewrite lookup_alter_eq.
      destruct H1 as (y & ->). eexists; reflexivity.
    - rewrite exec_ret. exact H1. }
  clearbody s2. destruct H2 as (y & H2).
  exists (nextId s2). split.
  - peel timers. rewrite (bool_decide_eq_true_2 _ Hg). cbn [when].
    cbv beta iota delta [setTimer fresh assign exec eval bind modify ret fst snd].
    cbn [timers upd_heap upd_timers upd_nextId]. apply lookup_insert_eq.
  - peel heap. rewrite (bool_decide_eq_true_2 _ Hg). cbn [when].
    cbv beta iota delta [setTimer fresh assign exec eval bind modify ret fst snd].
    cbn [heap upd_heap upd_timers upd_nextId]. rewrite lookup_alter_eq, H2. reflexivity.
Qed.

(** The timer armed by a successful fetch evicts only an unobserved entry:
    when it fires while the entry has an observer, the cache and the entry
    are left as they are; when it fires while the entry has none, the key is
    dropped and [getQueryData] returns [undefined].  Either way the timer is
    spent. *)
Theorem fetch_success_arms_collection
    (now later : Z) (fid : nat) (fr : Frame) (d : option JSON) (en : QueryCacheEntry)
    (s : System) :
  frames s !! fid = Some fr ->
  framePhase fr = AwaitingFn ->
  heap s !! frameEntry fr = Some en ->
  let options := frameOptions fr in
  let g := default (5 * 60 * 1000) (gcTime options) in
  let k := queryKey options in
  g > 0 ->
  let s1 := step now (FnSettles fid (Resolved d)) s in
  exists t,
    timers s1 !! t = Some (GcAfterFetch (frameEntry fr) options g)
    /\ gcTimeout <$> heap s1 !! frameEntry fr = Some (Some t)
    /\ cache s1 = cache s
    /\ let s2 := step later (TimerFires t) s1 in
       timers s2 !! t = None
       /\ (observers en <> [] -> cache s2 = cache s /\ heap s2 = heap s1)
       /\ (observers en = [] ->
           cache s2 = delete (getQueryKey k) (cache s)
           /\ eval (getQueryData k) s2 = None).
Proof.
  intros Hfr Hph Hen options g k Hg s1. subst k g options.
  assert (E : s1 = exec (fetchSucceeded now fid fr d) s).
  { subst s1. cbn [step]. unfold fnSettles. rewrite exec_bind, exec_gets, eval_gets, Hfr.
    cbn [whenSome]. rewrite Hph. reflexivity. }
  destruct (fetchSucceeded_collection now fid fr d en s Hen Hg) as (t & Ht & Hh).
  destruct (fetchSucceeded_run now fid fr d en s Hen) as (_ & Hobs & Hc & _).
  rewrite <- E in Ht, Hh, Hobs, Hc. clearbody s1.
  exists t. split; [exact Ht |]. split; [exact Hh |]. split; [exact Hc |].
  cbv zeta. cbn [step]. unfold timerFires.
  rewrite exec_bind, exec_gets, eval_gets, Ht. cbn [whenSome].
  rewrite exec_bind.
  set (s0 := exec (clearTimer t) s1).
  assert (H0 : timers s0 = delete t (timers s1) /\ heap s0 = heap s1 /\ cache s0 = cache s1).
  { subst s0. unfold clearTimer. rewrite exec_modify. repeat split. }
  destruct H0 as (H0t & H0h & H0c).
  rewrite exec_bind. unfold deref. rewrite exec_gets, eval_gets, H0h.
  destruct (heap s1 !! frameEntry fr) as [en1|] eqn:Hen1; [| discriminate Hobs].
  cbn [fmap option_fmap option_map] in Hobs. injection Hobs as Hobs.
  cbn [whenSome]. rewrite Hobs.
  destruct (cacheDelete_run (getQueryKey (queryKey (frameOptions fr))) s0) as (Hdc & Hdh & Hdt).
  clearbody s0.
  destruct (observers en) as [| ob rest] eqn:Ho.
  - rewrite bool_decide_eq_true_2 by reflexivity. cbn [when].
    split; [apply Hdt; rewrite H0t; apply lookup_delete_eq |].
    split; [intros H; contradiction |]. intros _.
    rewrite H0c, Hc in Hdc. split; [exact Hdc |].
    rewrite getQueryData_eval. unfold stateOf. rewrite Hdc, lookup_delete_eq. reflexivity.
  - rewrite bool_decide_eq_false_2 by (cbn [length]; lia). cbn [when]. rewrite exec_ret.
    split; [rewrite H0t; apply lookup_delete_eq |].
    split; [intros _; split; [rewrite H0c; exact Hc | exact H0h] | intros H; discriminate H].
Qed.

Lemma fetch_success_arms_collection_witness :
  let k := KeyArray [JStr "posts"] in
  let options := optionsFor k 7 in
  let s := run [(0, CallFetchQuery options)] newQueryClient in
  let s1 := step 10 (FnSettles 2 (Resolved (Some (JStr "A")))) s in
  eval (getQueryData k) s1 = Some (JStr "A")
  /\ exists t, gcTimeout <$> heap s1 !! 0%nat = Some (Some t)
     /\ eval (getQueryData k) (step 300010 (TimerFires t) s1) = None.
Proof.
  intros k options s s1.
  assert (Hfr : exists fr, frames s !! 2%nat = Some fr /\ framePhase fr = AwaitingFn
                           /\ frameEntry fr = 0%nat /\ frameOptions fr = options)
    by (vm_compute; eexists; repeat split; reflexivity).
  destruct Hfr as (fr & Hfr & Hph & He & Ho).
  assert (Hen : exists en, heap s !! 0%nat = Some en /\ observers en = [])
    by (vm_compute; eexists; split; reflexivity).
  destruct Hen as (en & Hen & Hobs).
  rewrite <- He in Hen.
  destruct (fetch_success_arms_collection 10 300010 2 fr (Some (JStr "A")) en s Hfr Hph Hen
              ltac:(rewrite Ho; vm_compute; reflexivity))
    as (t & _ & Hh & _ & _ & _ & Hgc).
  split; [vm_compute; reflexivity |].
  exists t. rewrite He in Hh. split; [exact Hh |].
  destruct (Hgc Hobs) as (_ & Hnone). rewrite Ho in Hnone. exact Hnone.
Defined.

(* ================================================================== *)
(** ** References are never reused *)
(* ================================================================== *)

Section Neat.
Context (L : list nat) (W : list (nat * QueryOptions)).

(** A step that hands out references, drops keys, rewrites entries without
    touching their controller and their observers (or gives them a
    controller or an observer the method holds), and adds only suspended
    calls on entries the method holds. *)
Lemma neat_transfer (s s' : System) :
  neat L W s ->
  (nextId s <= nextId s')%nat ->
  (forall key e, cache s' !! key = Some e -> cache s !! key = Some e) ->
  (forall e en, heap s' !! e = Some en ->
     exists en0, heap s !! e = Some en0
       /\ (abortController en0 = abortController en
           \/ forall c, abortController en = Some c -> c ∈ L)
       /\ (forall ob, ob ∈ observers en -> ob ∈ observers en0 \/ observerId ob ∈ L)) ->
  (forall fid fr, frames s' !! fid = Some fr ->
     frames s !! fid = Some fr \/ (frameEntry fr, frameOptions fr) ∈ W) ->
  neat L W s'.
Proof.
  intros ([T1 T2 T3 T5 T4] & HL & HW) Hn Hc Hh Hf.
  assert (Ho : forall e o, owned e o s -> owned e o s').
  { intros e o [Hlt Hk]. split; [lia | intros key Hkey; apply Hk, Hc, Hkey]. }
  split; [split |].
  - intros key e He. specialize (T1 key e (Hc _ _ He)). lia.
  - intros k1 k2 e H1 H2. eapply T2; eauto.
  - intros e en c He Hcn. destruct (Hh e en He) as (en0 & He0 & [Hsame | Hin] & _).
    + rewrite <- Hsame in Hcn. specialize (T3 e en0 c He0 Hcn). lia.
    + specialize (HL c (Hin c Hcn)). lia.
  - intros e en ob He Hob. destruct (Hh e en He) as (en0 & He0 & _ & Hobs).
    destruct (Hobs ob Hob) as [Hold | Hnew].
    + specialize (T5 e en0 ob He0 Hold). lia.
    + specialize (HL _ Hnew). lia.
  - intros fid fr Hfr. destruct (Hf fid fr Hfr) as [H | H]; apply Ho; [eapply T4 | apply HW]; eauto.
  - split.
    + intros x Hx. specialize (HL x Hx). lia.
    + intros e o Heo. apply Ho, HW, Heo.
Qed.

(** An entry that a step leaves alone. *)
Lemma entry_kept (h : gmap nat QueryCacheEntry) (e : nat) (en : QueryCacheEntry) :
  h !! e = Some en ->
  exists en0, h !! e = Some en0
    /\ (abortController en0 = abortController en
        \/ forall c, abortController en = Some c -> c ∈ L)
    /\ (forall ob, ob ∈ observers en -> ob ∈ observers en0 \/ observerId ob ∈ L).
Proof. intros H. exists en. split; [exact H |]. split; [left; reflexivity | auto]. Qed.

(** An entry after an assignment to the entry [e0]. *)
Lemma entry_assigned (h : gmap nat QueryCacheEntry) (e0 e : nat)
    (f : QueryCacheEntry -> QueryCacheEntry) (en : QueryCacheEntry) :
  (forall y, abortController (f y) = abortController y
             \/ forall c, abortController (f y) = Some c -> c ∈ L) ->
  (forall y ob, ob ∈ observers (f y) -> ob ∈ observers y \/ observerId ob ∈ L) ->
  alter f e0 h !! e = Some en ->
  exists en0, h !! e = Some en0
    /\ (abortController en0 = abortController en
        \/ forall c, abortController en = Some c -> c ∈ L)
    /\ (forall ob, ob ∈ observers en -> ob ∈ observers en0 \/ observerId ob ∈ L).
Proof.
  intros Hc Ho Hx. destruct (decide (e0 = e)) as [-> | Hne].
  - rewrite lookup_alter_eq in Hx. destruct (h !! e) as [y|]; [| discriminate Hx].
    injection Hx as <-. exists y. split; [reflexivity |]. split.
    + destruct (Hc y) as [H | H]; [left; symmetry; exact H | right; exact H].
    + apply Ho.
  - rewrite lookup_alter_ne in Hx by exact Hne. apply entry_kept, Hx.
Qed.

Lemma neat_fresh : keeps (neat L W) fresh.
Proof.
  intros s H. apply (neat_transfer s); [exact H | cbn; lia | | |]; cbn; eauto.
  intros e en He. apply entry_kept, He.
Qed.

Lemma neat_elsewhere (f : System -> System) :
  (forall s, cache (f s) = cache s) ->
  (forall s, heap (f s) = heap s) ->
  (forall s, frames (f s) = frames s) ->
  (forall s, nextId (f s) = nextId s) ->
  keeps (neat L W) (modify f).
Proof.
  intros Hc Hh Hf Hn s H. rewrite exec_modify.
  apply (neat_transfer s); [exact H | rewrite Hn; lia | | |]; intros *.
  - rewrite Hc. auto.
  - rewrite Hh. apply entry_kept.
  - rewrite Hf. auto.
Qed.

(** An assignment that gives the entry no controller and no observer, or
    one the method holds. *)
Lemma neat_assign (e : nat) (f : QueryCacheEntry -> QueryCacheEntry) :
  (forall y, abortController (f y) = abortController y
             \/ forall c, abortController (f y) = Some c -> c ∈ L) ->
  (forall y ob, ob ∈ observers (f y) -> ob ∈ observers y \/ observerId ob ∈ L) ->
  keeps (neat L W) (assign e f).
Proof.
  intros Hc Ho s H. unfold assign. rewrite exec_modify.
  apply (neat_transfer s); [exact H | cbn; lia | | |]; cbn; eauto.
  intros x en Hx. eapply entry_assigned; eauto.
Qed.

Lemma neat_assign_controller (e c : nat) :
  c ∈ L -> keeps (neat L W) (assign e (upd_abortController (Some c))).
Proof.
  intros Hin. apply neat_assign.
  - intros y. right. cbn. intros c' [= <-]. exact Hin.
  - intros y ob Hob. left. exact Hob.
Qed.

Lemma neat_assign_observer (e ob : nat) (options : QueryOptions) :
  ob ∈ L ->
  keeps (neat L W)
    (assign e (upd_observers (fun obs =>
       obs ++ [{| observerId := ob; observerOptions := options |}]))).
Proof.
  intros Hin. apply neat_assign.
  - intros y. left. reflexivity.
  - intros y x Hx. cbn in Hx. apply elem_of_app in Hx as [Hx | Hx]; [left; exact Hx |].
    apply list_elem_of_singleton in Hx as ->. right. exact Hin.
Qed.

Lemma neat_assign_filter (e : nat) (P : QueryObserver -> Prop)
    `{forall x, Decision (P x)} :
  keeps (neat L W) (assign e (upd_observers (filter P))).
Proof.
  apply neat_assign.
  - intros y. left. reflexivity.
  - intros y x Hx. cbn in Hx. apply list_elem_of_filter in Hx as [_ Hx]. left. exact Hx.
Qed.

Lemma neat_assign_fields (e : nat) (f : QueryCacheEntry -> QueryCacheEntry) :
  (forall y, abortController (f y) = abortController y) ->
  (forall y, observers (f y) = observers y) ->
  keeps (neat L W) (assign e f).
Proof.
  intros Hc Ho. apply neat_assign.
  - intros y. left. apply Hc.
  - intros y ob Hob. left. rewrite Ho in Hob. exact Hob.
Qed.

Lemma neat_cache_delete (key : string) :
  keeps (neat L W) (modify (upd_cache (delete key))).
Proof.
  intros s H. rewrite exec_modify.
  apply (neat_transfer s); [exact H | cbn; lia | | |]; cbn; eauto.
  - intros k e He. apply lookup_delete_Some in He as [_ He]. exact He.
  - intros e en He. apply entry_kept, He.
Qed.

Lemma neat_cache_empty :
  keeps (neat L W) (modify (upd_cache (fun _ => ∅))).
Proof.
  intros s H. rewrite exec_modify.
  apply (neat_transfer s); [exact H | cbn; lia | | |]; cbn; eauto.
  - intros k e He. rewrite lookup_empty in He. discriminate He.
  - intros e en He. apply entry_kept, He.
Qed.

Lemma neat_frames_delete (fid : nat) :
  keeps (neat L W) (modify (upd_frames (delete fid))).
Proof.
  intros s H. rewrite exec_modify.
  apply (neat_transfer s); [exact H | cbn; lia | | |]; cbn; eauto.
  - intros e en He. apply entry_kept, He.
  - intros k fr He. apply lookup_delete_Some in He as [_ He]. left. exact He.
Qed.

Lemma neat_frames_insert (fid : nat) (fr : Frame) :
  (frameEntry fr, frameOptions fr) ∈ W ->
  keeps (neat L W) (modify (upd_frames <[fid := fr]>)).
Proof.
  intros Hin s H. rewrite exec_modify.
  apply (neat_transfer s); [exact H | cbn; lia | | |]; cbn; eauto.
  - intros e en He. apply entry_kept, He.
  - intros k x Hx. destruct (decide (fid = k)) as [-> | Hne].
    + rewrite lookup_insert_eq in Hx. injection Hx as <-. right. exact Hin.
    + rewrite lookup_insert_ne in Hx by exact Hne. left. exact Hx.
Qed.
End Neat.

Lemma neat_weaken (L L' : list nat) (W W' : list (nat * QueryOptions)) (s : System) :
  L' ⊆ L -> W' ⊆ W -> neat L W s -> neat L' W' s.
Proof.
  intros HL HW (T & H1 & H2). split; [exact T |]. split.
  - intros x Hx. apply H1, HL, Hx.
  - intros e o Hx. apply H2, HW, Hx.
Qed.

(** The entry [getQueryEntry] returns is held by the method, and it is
    stored under the key. *)
Lemma neat_after_getQueryEntry
    (L : list nat) (W : list (nat * QueryOptions)) (k : QueryKey) (s : System) :
  neat L W s ->
  neat (eval (getQueryEntry k) s :: L) W (exec (getQueryEntry k) s).
Proof.
  intros H. unfold exec, eval.
  destruct (cache s !! getQueryKey k) as [e|] eqn:Hk.
  - rewrite (getQueryEntry_found _ _ _ Hk). cbn [fst snd].
    destruct H as (T & HL & HW). split; [exact T |]. split; [| exact HW].
    intros x Hx. apply elem_of_cons in Hx as [-> | Hx]; [| apply HL, Hx].
    eapply tidy_cache; eauto.
  - rewrite (getQueryEntry_missing _ _ Hk). cbn [fst snd].
    destruct H as ([T1 T2 T3 T5 T4] & HL & HW).
    assert (Ho : forall e o, owned e o s ->
              owned e o (upd_cache <[getQueryKey k := nextId s]>
                           (upd_heap <[nextId s := initialEntry]> (upd_nextId S s)))).
    { intros e o [Hlt Hkey]. split; [cbn; lia |]. intros key. cbn.
      destruct (decide (getQueryKey k = key)) as [<- | Hne].
      - rewrite lookup_insert_eq. intros [= <-]. lia.
      - rewrite lookup_insert_ne by exact Hne. apply Hkey. }
    split; [split |]; cbn.
    + intros key e. destruct (decide (getQueryKey k = key)) as [<- | Hne].
      * rewrite lookup_insert_eq. intros [= <-]. lia.
      * rewrite lookup_insert_ne by exact Hne. intros He. specialize (T1 _ _ He). lia.
    + intros k1 k2 e.
      destruct (decide (getQueryKey k = k1)) as [<- | Hn1];
        destruct (decide (getQueryKey k = k2)) as [<- | Hn2];
        rewrite ?lookup_insert_eq, ?lookup_insert_ne by assumption.
      * reflexivity.
      * intros [= <-] He. specialize (T1 _ _ He). lia.
      * intros He [= <-]. specialize (T1 _ _ He). lia.
      * apply T2.
    + intros e en c. destruct (decide (nextId s = e)) as [<- | Hne].
      * rewrite lookup_insert_eq. intros [= <-]. cbn. discriminate.
      * rewrite lookup_insert_ne by exact Hne. intros He Hc.
        specialize (T3 _ _ _ He Hc). lia.
    + intros e en ob. destruct (decide (nextId s = e)) as [<- | Hne].
      * rewrite lookup_insert_eq. intros [= <-]. cbn. intros Hob. inversion Hob.
      * rewrite lookup_insert_ne by exact Hne. intros He Hob.
        specialize (T5 _ _ _ He Hob). lia.
    + intros fid fr Hfr. apply Ho, (T4 fid fr Hfr).
    + split.
      * intros x Hx. apply elem_of_cons in Hx as [-> | Hx]; [lia |].
        specialize (HL x Hx). lia.
      * intros e o Heo. apply Ho, HW, Heo.
Qed.

Lemma neat_getQueryEntry {B : Type}
    (L : list nat) (W : list (nat * QueryOptions)) (k : QueryKey) (rest : nat -> M B) :
  (forall e, keeps (neat (e :: L) W) (rest e)) ->
  keeps (neat L W) (bind (getQueryEntry k) rest).
Proof.
  intros Hrest s Hs. rewrite exec_bind.
  apply (neat_weaken (eval (getQueryEntry k) s :: L) L W W); [set_solver | set_solver |].
  apply Hrest, neat_after_getQueryEntry, Hs.
Qed.

(** In a method that works for [options], the entry of their key belongs to
    them. *)
Lemma neat_getQueryEntry_for {B : Type}
    (L : list nat) (W : list (nat * QueryOptions)) (options : QueryOptions)
    (rest : nat -> M B) :
  (forall e, keeps (neat (e :: L) ((e, options) :: W)) (rest e)) ->
  keeps (neat L W) (bind (getQueryEntry (queryKey options)) rest).
Proof.
  intros Hrest s Hs. rewrite exec_bind.
  set (e := eval (getQueryEntry (queryKey options)) s).
  apply (neat_weaken (e :: L) L ((e, options) :: W) W); [set_solver | set_solver |].
  apply Hrest.
  pose proof (neat_after_getQueryEntry L W (queryKey options) s Hs) as (T & HL & HW).
  pose proof (getQueryEntry_stored (queryKey options) s) as Hst. fold e in Hst, HL.
  split; [exact T |]. split; [exact HL |].
  intros x o Hx. apply elem_of_cons in Hx as [[= -> ->] | Hx]; [| apply HW, Hx].
  split; [apply HL; set_solver |].
  intros key Hkey. eapply tidy_apart; eauto.
Qed.

Lemma neat_newAbortController {B : Type}
    (L : list nat) (W : list (nat * QueryOptions)) (rest : nat -> M B) :
  (forall c, keeps (neat (c :: L) W) (rest c)) ->
  keeps (neat L W) (bind newAbortController rest).
Proof.
  intros Hrest s Hs. rewrite exec_bind.
  apply (neat_weaken (eval newAbortController s :: L) L W W); [set_solver | set_solver |].
  apply Hrest.
  assert (E : eval newAbortController s = nextId s) by reflexivity.
  assert (E' : exec newAbortController s
               = upd_aborted <[nextId s := false]> (upd_nextId S s)) by reflexivity.
  rewrite E, E'.
  assert (H1 : neat L W (upd_aborted <[nextId s := false]> (upd_nextId S s))).
  { apply (neat_transfer L W s); [exact Hs | cbn; lia | | |]; cbn; eauto.
    intros e en He. apply entry_kept, He. }
  destruct H1 as (T & HL & HW). split; [exact T |]. split; [| exact HW].
  intros x Hx. apply elem_of_cons in Hx as [-> | Hx]; [cbn; lia | apply HL, Hx].
Qed.

(** The method holds the reference it has just obtained. *)
Lemma neat_bind_fresh {B : Type}
    (L : list nat) (W : list (nat * QueryOptions)) (rest : nat -> M B) :
  (forall id, keeps (neat (id :: L) W) (rest id)) ->
  keeps (neat L W) (bind fresh rest).
Proof.
  intros Hrest s Hs. rewrite exec_bind.
  apply (neat_weaken (eval fresh s :: L) L W W); [set_solver | set_solver |].
  apply Hrest.
  pose proof (neat_fresh L W s Hs) as (T & HL & HW).
  split; [exact T |]. split; [| exact HW].
  intros x Hx. apply elem_of_cons in Hx as [-> | Hx]; [cbn; lia | apply HL, Hx].
Qed.

(** A method that resumes a suspended call works for its options. *)
Lemma neat_frame
    (L : list nat) (W : list (nat * QueryOptions)) (fid : nat) (rest : Frame -> M unit) :
  (forall fr, keeps (neat L ((frameEntry fr, frameOptions fr) :: W)) (rest fr)) ->
  keeps (neat L W)
    (bind (gets (fun s => frames s !! fid)) (fun found => whenSome found rest)).
Proof.
  intros Hrest s Hs. rewrite exec_bind, exec_gets, eval_gets.
  destruct (frames s !! fid) as [fr|] eqn:Hfr; cbn [whenSome]; [| exact Hs].
  apply (neat_weaken L L ((frameEntry fr, frameOptions fr) :: W) W);
    [set_solver | set_solver |].
  apply Hrest. destruct Hs as (T & HL & HW). split; [exact T |]. split; [exact HL |].
  intros x o Hx. apply elem_of_cons in Hx as [[= -> ->] | Hx]; [| apply HW, Hx].
  eapply tidy_frames; eauto.
Qed.

Ltac neat_leaf :=
  idtac;
  lazymatch goal with
  | |- keeps _ fresh => apply neat_fresh
  | |- keeps _ (assign _ (upd_abortController (Some _))) =>
      apply neat_assign_controller; set_solver
  | |- keeps _ (assign _ (upd_observers (filter _))) => apply neat_assign_filter
  | |- keeps _ (assign _ (upd_observers _)) => apply neat_assign_observer; set_solver
  | |- keeps _ (assign _ _) => apply neat_assign_fields; intros; reflexivity
  | |- keeps _ (modify (upd_cache (delete _))) => apply neat_cache_delete
  | |- keeps _ (modify (upd_cache (fun _ => ∅))) => apply neat_cache_empty
  | |- keeps _ (modify (upd_frames (delete _))) => apply neat_frames_delete
  | |- keeps _ (modify (upd_frames (insert _ _))) =>
      apply neat_frames_insert; cbn; set_solver
  | |- keeps _ (modify _) => apply neat_elsewhere; intros; reflexivity
  end.

(** Decompose along the structure of the method, keeping track of the
    references it obtains. *)
Ltac neaten :=
  lazymatch goal with
  | |- keeps _ (bind (getQueryEntry (queryKey _)) _) =>
      apply neat_getQueryEntry_for; intros; neaten
  | |- keeps _ (bind (getQueryEntry _) _) => apply neat_getQueryEntry; intros; neaten
  | |- keeps _ (bind newAbortController _) =>
      apply neat_newAbortController; intros; neaten
  | |- keeps _ (bind (gets (fun s => frames s !! _)) _) =>
      apply neat_frame; intros; neaten
  | |- keeps _ (bind fresh _) => apply neat_bind_fresh; intros; neaten
  | |- keeps _ (bind _ _) => apply keeps_bind; [neaten | intros; neaten]
  | |- keeps _ (ret _) => apply keeps_ret
  | |- keeps _ (gets _) => apply keeps_gets
  | |- keeps _ (when _ _) => apply keeps_when; neaten
  | |- keeps _ (whenSome _ _) => apply keeps_whenSome; intros; neaten
  | |- keeps _ (foldr _ _ _) => apply keeps_foldr; intros; neaten
  | |- keeps _ (match ?x with _ => _ end) => destruct x; neaten
  | |- keeps _ ?m =>
      first [ solve [neat_leaf] | let h := head_of m in unfold h; neaten ]
  end.

Lemma tidy_neat (s : System) : tidy s <-> neat [] [] s.
Proof.
  split; [| intros [H _]; exact H].
  intros H. split; [exact H |]. split; intros *; intros Hx; inversion Hx.
Qed.

Lemma tidy_newQueryClient : tidy newQueryClient.
Proof.
  split; intros *; cbn; rewrite lookup_empty; discriminate.
Qed.

(** Every event keeps the references apart. *)
Lemma tidy_step (now : Z) (ev : Event) (s : System) :
  tidy s -> tidy (step now ev s).
Proof.
  rewrite !tidy_neat. revert s.
  destruct ev; cbn [step];
    match goal with
    | |- forall s, neat [] [] s -> neat [] [] (exec ?m s) => change (keeps (neat [] []) m)
    end; neaten.
Qed.

Lemma reachable_tidy (s : System) : reachable s -> tidy s.
Proof.
  intros [trace ->]. generalize tidy_newQueryClient. generalize newQueryClient.
  induction trace as [| [now ev] rest IH]; intros s Hs; cbn [run]; [exact Hs |].
  apply IH, tidy_step, Hs.
Qed.

(* ================================================================== *)
(** ** Keys are independent *)
(* ================================================================== *)

Section Aside.
Context (c0 : gmap string nat) (e e' : nat) (h0 : option QueryCacheEntry).
Hypothesis apart : e <> e'.

Lemma aside_fresh : keeps (aside c0 e' h0) fresh.
Proof. intros s H. exact H. Qed.

Lemma aside_elsewhere (f : System -> System) :
  (forall s, cache (f s) = cache s) ->
  (forall s, heap (f s) = heap s) ->
  keeps (aside c0 e' h0) (modify f).
Proof. intros Hc Hh s [H1 H2]. rewrite exec_modify. split; rewrite ?Hc, ?Hh; assumption. Qed.

Lemma aside_assign (f : QueryCacheEntry -> QueryCacheEntry) :
  keeps (aside c0 e' h0) (assign e f).
Proof.
  intros s [H1 H2]. unfold assign. rewrite exec_modify. split; [exact H1 |].
  cbn. rewrite lookup_alter_ne by exact apart. exact H2.
Qed.

(** While the key is stored, [getQueryEntry] only reads. *)
Lemma aside_getQueryEntry {B : Type} (k : QueryKey) (rest : nat -> M B) :
  c0 !! getQueryKey k = Some e ->
  keeps (aside c0 e' h0) (rest e) ->
  keeps (aside c0 e' h0) (bind (getQueryEntry k) rest).
Proof.
  intros Hk Hrest s H. rewrite exec_bind.
  assert (Hs : cache s !! getQueryKey k = Some e) by (destruct H as [-> _]; exact Hk).
  unfold exec at 2, eval. rewrite (getQueryEntry_found _ _ _ Hs). cbn [fst snd].
  apply Hrest, H.
Qed.
End Aside.

Ltac aside_leaf :=
  idtac;
  lazymatch goal with
  | |- keeps _ fresh => apply aside_fresh
  | |- keeps _ (assign _ _) => apply aside_assign; assumption
  | |- keeps _ (modify _) => apply aside_elsewhere; intros; reflexivity
  end.

Ltac set_aside :=
  lazymatch goal with
  | |- keeps _ (bind (getQueryEntry _) _) =>
      eapply aside_getQueryEntry; [eassumption | set_aside]
  | |- keeps _ (bind _ _) => apply keeps_bind; [set_aside | intros; set_aside]
  | |- keeps _ (ret _) => apply keeps_ret
  | |- keeps _ (gets _) => apply keeps_gets
  | |- keeps _ (when _ _) => apply keeps_when; set_aside
  | |- keeps _ (whenSome _ _) => apply keeps_whenSome; intros; set_aside
  | |- keeps _ (foldr _ _ _) => apply keeps_foldr; intros; set_aside
  | |- keeps _ (match ?x with _ => _ end) => destruct x; set_aside
  | |- keeps _ ?m =>
      first [ solve [aside_leaf] | let h := head_of m in unfold h; set_aside ]
  end.

(** A method that writes to the entry object [e] alone, and not to the
    cache, leaves the entry of a key that is not bound to [e] as it was. *)
Lemma untouched_by {B : Type} (m : M B) (e : nat) (key : string) (s : System) :
  (forall e', e <> e' -> keeps (aside (cache s) e' (heap s !! e')) m) ->
  cache s !! key <> Some e ->
  entryOf key (exec m s) = entryOf key s.
Proof.
  intros Hm Hkey. unfold entryOf.
  destruct (cache s !! key) as [e'|] eqn:Hk.
  - assert (Hne : e <> e') by congruence.
    destruct (Hm e' Hne s) as [Hc Hh]; [split; reflexivity |].
    rewrite Hc, Hk. cbn. exact Hh.
  - destruct (Hm (S e) (n_Sn e) s) as [Hc _]; [split; reflexivity |].
    rewrite Hc, Hk. reflexivity.
Qed.

(** A method that gets the entry of a key and then writes to that entry
    alone leaves the entries of the other keys as they were. *)
Lemma untouched_getQueryEntry {B : Type}
    (k : QueryKey) (rest : nat -> M B) (key : string) (s : System) :
  tidy s ->
  key <> getQueryKey k ->
  (forall c0 e e' h0, c0 !! getQueryKey k = Some e -> e <> e' ->
     keeps (aside c0 e' h0) (rest e)) ->
  entryOf key (exec (bind (getQueryEntry k) rest) s) = entryOf key s.
Proof.
  intros T Hne Hrest. rewrite exec_bind.
  pose proof (getQueryEntry_stored k s) as Hst.
  set (e := eval (getQueryEntry k) s) in *.
  set (s1 := exec (getQueryEntry k) s) in *.
  assert (H1 : entryOf key s1 = entryOf key s /\ cache s1 !! key <> Some e).
  { subst s1 e. unfold exec, eval in *.
    destruct (cache s !! getQueryKey k) as [e0|] eqn:Hk.
    - rewrite (getQueryEntry_found _ _ _ Hk) in *. cbn [fst snd] in *.
      split; [reflexivity |]. intros Hkey. apply Hne. eapply tidy_apart; eauto.
    - rewrite (getQueryEntry_missing _ _ Hk) in *. cbn [fst snd] in *.
      unfold entryOf. cbn. rewrite lookup_insert_ne by congruence.
      destruct (cache s !! key) as [e'|] eqn:Hkey; cbn.
      + pose proof (tidy_cache s T _ _ Hkey) as Hlt.
        split; [apply lookup_insert_ne; lia | intros [= ->]; lia].
      + split; [reflexivity | discriminate]. }
  destruct H1 as [H1 H2]. rewrite <- H1.
  apply (untouched_by (rest e) e key s1); [| exact H2].
  intros e' He'. apply (Hrest (cache s1) e e' _ Hst He').
Qed.

Lemma entryOf_same (key : string) (s s' : System) :
  cache s' = cache s -> heap s' = heap s -> entryOf key s' = entryOf key s.
Proof. intros Hc Hh. unfold entryOf. rewrite Hc, Hh. reflexivity. Qed.

Lemma entryOf_delete (key key' : string) (s s' : System) :
  key <> key' -> cache s' = delete key' (cache s) -> heap s' = heap s ->
  entryOf key s' = entryOf key s.
Proof.
  intros Hne Hc Hh. unfold entryOf. rewrite Hc, Hh, lookup_delete_ne by congruence.
  reflexivity.
Qed.

Lemma fetchQuery_untouched
    (now : Z) (caller : Caller) (options : QueryOptions) (key : string) (s : System) :
  tidy s -> key <> getQueryKey (queryKey options) ->
  entryOf key (exec (fetchQuery now caller options) s) = entryOf key s.
Proof.
  intros T Hne. unfold fetchQuery. apply untouched_getQueryEntry; [exact T | exact Hne |].
  intros c0 e e' h0 Hk He. cbv beta. set_aside.
Qed.

(** While the cache holds fewer keys than its maximum, so that storing a
    key evicts none, an event changes the entries of the keys it is about
    and no other: whatever is stored under another key, its state,
    observers, controller and timer handles, is the same object with the
    same fields afterwards. *)
Theorem other_keys_untouched (now : Z) (ev : Event) (key : string) (s : System) :
  reachable s ->
  (size (cache s) < cacheMax)%nat ->
  concerns ev s key = false ->
  entryOf key (step now ev s) = entryOf key s.
Proof.
  intros Hr _ Hcon. pose proof (reachable_tidy s Hr) as T.
  destruct ev as [o | o | o | e ob o | k | k d | k | k | | fid out | fid | t |];
    cbn [step concerns] in *.
  - apply bool_decide_eq_false in Hcon. apply fetchQuery_untouched; assumption.
  - apply bool_decide_eq_false in Hcon. apply fetchQuery_untouched; assumption.
  - apply bool_decide_eq_false in Hcon. unfold subscribeToQuery.
    apply untouched_getQueryEntry; [exact T | exact Hcon |].
    intros c0 e e' h0 Hk He. cbv beta. set_aside.
  - apply bool_decide_eq_false in Hcon.
    apply (untouched_by _ e); [| exact Hcon]. intros e' He. cbv beta. set_aside.
  - destruct k as [qk|]; [| discriminate Hcon].
    destruct (truthy qk) eqn:Htr; [| discriminate Hcon].
    apply bool_decide_eq_false in Hcon. unfold invalidateQueries. rewrite Htr.
    rewrite exec_bind, exec_gets, eval_gets.
    destruct (cache s !! getQueryKey qk) as [e|] eqn:Hk; cbn [whenSome]; [| reflexivity].
    apply (untouched_by _ e).
    + intros e' He. cbv beta. set_aside.
    + intros Hkey. apply Hcon. eapply tidy_apart; eauto.
  - apply bool_decide_eq_false in Hcon. unfold setQueryData.
    apply untouched_getQueryEntry; [exact T | exact Hcon |].
    intros c0 e e' h0 Hk He. cbv beta. set_aside.
  - rewrite getQueryData_exec. reflexivity.
  - destruct k as [qk|]; [| discriminate Hcon].
    destruct (truthy qk) eqn:Htr; [| discriminate Hcon].
    apply bool_decide_eq_false in Hcon. unfold removeQueries. rewrite Htr.
    rewrite exec_bind, exec_gets, eval_gets.
    destruct (cache s !! getQueryKey qk) as [e|] eqn:Hk; cbn [whenSome]; [| reflexivity].
    rewrite exec_bind.
    destruct (cleanupQuery_stable e s) as (Hh & Hc & _).
    destruct (cacheDelete_run (getQueryKey qk) (exec (cleanupQuery e) s)) as (Hc' & Hh' & _).
    apply (entryOf_delete key (getQueryKey qk)); [exact Hcon | |]; congruence.
  - discriminate Hcon.
  - unfold fnSettles. rewrite exec_bind, exec_gets, eval_gets.
    destruct (frames s !! fid) as [fr|] eqn:Hfr; cbn [whenSome]; [| reflexivity].
    apply bool_decide_eq_false in Hcon.
    apply (untouched_by _ (frameEntry fr)).
    + intros e' He. cbv beta. set_aside.
    + intros Hkey. apply Hcon.
      destruct (tidy_frames s T fid fr Hfr) as [_ Hown]. apply Hown, Hkey.
  - apply entryOf_same.
    + assert (K : preserves cache (delayElapses fid)) by frame. apply K.
    + assert (K : preserves heap (delayElapses fid)) by frame. apply K.
  - unfold timerFires. rewrite exec_bind, exec_gets, eval_gets.
    destruct (timers s !! t) as [[o ms | e o ms | o ms]|] eqn:Ht; cbn [whenSome];
      [| | | reflexivity]; apply bool_decide_eq_false in Hcon.
    + rewrite exec_bind, exec_ret. apply fetchQuery_untouched; assumption.
    + rewrite !exec_bind. unfold deref. rewrite exec_gets, eval_gets.
      set (s0 := exec (clearTimer t) s).
      assert (H0 : cache s0 = cache s /\ heap s0 = heap s) by (split; reflexivity).
      destruct H0 as [H0c H0h]. clearbody s0.
      destruct (heap s0 !! e) as [en|]; cbn [whenSome];
        [| rewrite exec_ret; apply entryOf_same; assumption].
      destruct (bool_decide (length (observers en) = 0%nat)); cbn [when];
        [| rewrite exec_ret; apply entryOf_same; assumption].
      destruct (cacheDelete_run (getQueryKey (queryKey o)) s0) as (Hc' & Hh' & _).
      apply (entryOf_delete key (getQueryKey (queryKey o))); [exact Hcon | |]; congruence.
    + rewrite exec_bind.
      set (s0 := exec (clearTimer t) s).
      assert (H0 : cache s0 = cache s /\ heap s0 = heap s) by (split; reflexivity).
      destruct H0 as [H0c H0h]. clearbody s0.
      destruct (cacheDelete_run (getQueryKey (queryKey o)) s0) as (Hc' & Hh' & _).
      apply (entryOf_delete key (getQueryKey (queryKey o))); [exact Hcon | |]; congruence.
  - apply entryOf_same.
    + assert (K : preserves cache microtaskFlush) by frame. apply K.
    + assert (K : preserves heap microtaskFlush) by frame. apply K.
Qed.

Lemma other_keys_untouched_witness :
  let posts := KeyArray [JStr "posts"] in
  let users := KeyArray [JStr "users"] in
  let s := run [(0, CallFetchQuery (optionsFor posts 7));
                (1, CallFetchQuery (optionsFor users 8))] newQueryClient in
  let ev := FnSettles 5 (Resolved (Some (JStr "U"))) in
  concerns ev s (getQueryKey users) = true
  /\ size (cache s) = 2%nat
  /\ entryOf (getQueryKey posts) (step 9 ev s) = entryOf (getQueryKey posts) s.
Proof.
  intros posts users s ev.
  assert (Hr : reachable s) by (eexists; reflexivity).
  assert (Hsize : size (cache s) = 2%nat) by (vm_compute; reflexivity).
  assert (Hmax : (size (cache s) < cacheMax)%nat) by (rewrite Hsize; unfold cacheMax; lia).
  assert (Hcon : concerns ev s (getQueryKey posts) = false) by (vm_compute; reflexivity).
  split; [vm_compute; reflexivity |].
  split; [exact Hsize |].
  exact (other_keys_untouched 9 ev (getQueryKey posts) s Hr Hmax Hcon).
Defined.

(* ================================================================== *)
(** ** A new fetch cancels the previous one *)
(* ================================================================== *)

(** [fetchQuery] aborts the controller the entry holds, whether or not its
    fetch is still in flight, and gives the entry a new controller, another
    object, whose signal is not aborted; the new call of the query function
    gets the new signal. *)
Theorem fetchQuery_aborts_previous_controller
    (now : Z) (options : QueryOptions) (e c : nat) (en : QueryCacheEntry) (s : System) :
  reachable s ->
  cache s !! getQueryKey (queryKey options) = Some e ->
  heap s !! e = Some en ->
  abortController en = Some c ->
  let s' := step now (CallFetchQuery options) s in
  exists c',
    c' <> c
    /\ aborted s' !! c = Some true
    /\ aborted s' !! c' = Some false
    /\ abortController <$> heap s' !! e = Some (Some c')
    /\ calls s' = calls s ++ [invocationOf options c'].
Proof.
  intros Hr Hk Hen Hc s'. pose proof (reachable_tidy s Hr) as T.
  assert (Hlt : (c < nextId s)%nat) by (eapply tidy_controllers; eauto).
  exists (nextId s). split; [lia |].
  subst s'. cbn [step]. unfold fetchQuery. rewrite !exec_bind, ?eval_bind.
  assert (E1 : exec (getQueryEntry (queryKey options)) s = s)
    by (unfold exec; rewrite (getQueryEntry_found _ _ _ Hk); reflexivity).
  assert (E2 : eval (getQueryEntry (queryKey options)) s = e)
    by (unfold eval; rewrite (getQueryEntry_found _ _ _ Hk); reflexivity).
  rewrite !E1, !E2.
  assert (D1 : forall x, exec (deref e) x = x) by reflexivity.
  assert (D2 : eval (deref e) s = Some en) by exact Hen.
  rewrite !D1, !D2. cbn [mbind option_bind]. rewrite Hc. cbn [whenSome].
  set (sA := exec (abort c) s).
  assert (HA : aborted sA = <[c := true]> (aborted s) /\ heap sA = heap s
               /\ calls sA = calls s /\ nextId sA = nextId s) by (repeat split).
  destruct HA as (HAa & HAh & HAc & HAn). clearbody sA.
  assert (Ec : eval newAbortController sA = nextId s) by (rewrite <- HAn; reflexivity).
  rewrite !Ec.
  set (sB := exec newAbortController sA).
  assert (HB : aborted sB = <[nextId s := false]> (<[c := true]> (aborted s))
               /\ heap sB = heap s /\ calls sB = calls s).
  { subst sB. cbv beta iota delta [newAbortController fresh exec eval bind modify ret fst snd].
    cbn [aborted heap calls upd_aborted upd_nextId]. rewrite HAa, HAh, HAc, HAn.
    repeat split. }
  destruct HB as (HBa & HBh & HBc). clearbody sB.
  split; [| split; [| split]].
  - peel aborted. rewrite HBa, lookup_insert_ne by lia. apply lookup_insert_eq.
  - peel aborted. rewrite HBa. apply lookup_insert_eq.
  - peel heap. unfold assign at 1. rewrite exec_modify. cbn [heap upd_heap].
    rewrite lookup_alter_eq. unfold assign. rewrite exec_modify. cbn [heap upd_heap].
    rewrite lookup_alter_eq, HBh, Hen. reflexivity.
  - rewrite exec_ret, exec_modify. cbn [calls upd_frames].
    unfold invokeQueryFn at 1. rewrite exec_modify. cbn [calls upd_calls].
    peel calls. rewrite HBc. reflexivity.
Qed.

Lemma fetchQuery_aborts_previous_controller_witness :
  let k := KeyArray [JStr "posts"] in
  let options := optionsFor k 7 in
  let s := run [(0, CallFetchQuery options)] newQueryClient in
  let s' := step 5 (CallFetchQuery options) s in
  aborted s !! 1%nat = Some false
  /\ aborted s' !! 1%nat = Some true
  /\ exists c', c' <> 1%nat /\ aborted s' !! c' = Some false
     /\ calls s' = calls s ++ [invocationOf options c'].
Proof.
  intros k options s s'.
  assert (Hr : reachable s) by (eexists; reflexivity).
  assert (Hen : exists en, heap s !! 0%nat = Some en /\ abortController en = Some 1%nat)
    by (vm_compute; eexists; split; reflexivity).
  destruct Hen as (en & Hen & Hc).
  assert (Hk : cache s !! getQueryKey (queryKey options) = Some 0%nat)
    by (vm_compute; reflexivity).
  destruct (fetchQuery_aborts_previous_controller 5 options 0 1 en s Hr Hk Hen Hc)
    as (c' & Hne & Hold & Hnew & _ & Hcalls).
  split; [vm_compute; reflexivity |]. split; [exact Hold |].
  exists c'. split; [exact Hne |]. split; [exact Hnew | exact Hcalls].
Defined.

(* ================================================================== *)
(** ** What observers are told on success *)
(* ================================================================== *)

Lemma fnSettles_resolved (now : Z) (fid : nat) (fr : Frame) (d : option JSON) (s : System) :
  frames s !! fid = Some fr ->
  framePhase fr = AwaitingFn ->
  step now (FnSettles fid (Resolved d)) s = exec (fetchSucceeded now fid fr d) s.
Proof.
  intros Hfr Hph. cbn [step]. unfold fnSettles.
  rewrite exec_bind, exec_gets, eval_gets, Hfr. cbn [whenSome]. rewrite Hph. reflexivity.
Qed.

(** When a fetch succeeds, every observer of the entry is notified once, in
    the order of subscription, with a result that is successful and neither
    loading nor fetching, that carries no error and a failure count of zero,
    and whose data went through the observer's own [select]. *)
Theorem success_notifies_every_observer
    (now : Z) (fid : nat) (fr : Frame) (d : option JSON) (en : QueryCacheEntry)
    (s : System) :
  frames s !! fid = Some fr ->
  framePhase fr = AwaitingFn ->
  heap s !! frameEntry fr = Some en ->
  let s' := step now (FnSettles fid (Resolved d)) s in
  exists told,
    notified s' = notified s ++ told
    /\ fst <$> told = observerId <$> observers en
    /\ Forall2 (fun ob r =>
         isSuccess r = true /\ isError r = false /\ isPending_ r = false
         /\ isLoading r = false /\ isFetching r = false /\ isRefetching r = false
         /\ error (resultState r) = None /\ failureCount (resultState r) = 0%nat
         /\ dataUpdatedAt (resultState r) = now
         /\ data (resultState r)
            = match select (observerOptions ob), d with
              | Some f, Some v => Some (f v)
              | _, _ => d
              end)
         (observers en) (snd <$> told).
Proof.
  intros Hfr Hph Hen s'. subst s'. rewrite (fnSettles_resolved now fid fr d s Hfr Hph).
  destruct (fetchSucceeded_run now fid fr d en s Hen) as (_ & _ & _ & _ & _ & _ & _ & _ & _ & Hn).
  eexists. split; [exact Hn |]. split.
  - rewrite <- list_fmap_compose. reflexivity.
  - rewrite <- list_fmap_compose. clear Hn Hen.
    induction (observers en) as [| ob rest IH]; cbn [fmap list_fmap].
    + constructor.
    + constructor; [| exact IH]. cbn.
      repeat split.
Qed.

Lemma success_notifies_every_observer_witness :
  let k := KeyArray [JStr "posts"] in
  let options := optionsFor k 7 in
  let s := run [(0, CallSubscribeToQuery options)] newQueryClient in
  let s' := step 10 (FnSettles 3 (Resolved (Some (JStr "A")))) s in
  exists r, notified s' = notified s ++ [(1%nat, r)]
            /\ isSuccess r = true
            /\ data (resultState r) = Some (JStr "A").
Proof.
  intros k options s s'.
  assert (Hfr : exists fr, frames s !! 3%nat = Some fr /\ framePhase fr = AwaitingFn
                           /\ frameEntry fr = 0%nat)
    by (vm_compute; eexists; repeat split; reflexivity).
  destruct Hfr as (fr & Hfr & Hph & He).
  assert (Hen : exists en, heap s !! 0%nat = Some en
                           /\ observers en = [{| observerId := 1; observerOptions := options |}])
    by (vm_compute; eexists; split; reflexivity).
  destruct Hen as (en & Hen & Hobs). rewrite <- He in Hen.
  destruct (success_notifies_every_observer 10 3 fr (Some (JStr "A")) en s Hfr Hph Hen)
    as (told & Hn & Hids & Hall).
  rewrite Hobs in Hids, Hall.
  destruct told as [| [i r] [| x rest]]; try discriminate Hids.
  cbn in Hids. injection Hids as ->.
  cbn [fmap list_fmap snd] in Hall.
  apply Forall2_cons_1 in Hall as [Hr _].
  destruct Hr as (H1 & _ & _ & _ & _ & _ & _ & _ & _ & H2).
  exists r. split; [exact Hn |]. split; [exact H1 | exact H2].
Defined.

(* ================================================================== *)
(** ** Refetching on an interval *)
(* ================================================================== *)




(* ================================================================== *)
(** ** The mutation executor *)
(* ================================================================== *)

Lemma settledFlags_initial : Mutation.settledFlags Mutation.initialState.
Proof.
  unfold Mutation.settledFlags. cbn. repeat split; intros; congruence.
Qed.

Lemma settledFlags_toPending (now : Z) (v ctx : option JSON) (st : Mutation.MutationState) :
  Mutation.settledFlags (Mutation.toPending now v ctx st).
Proof.
  unfold Mutation.settledFlags. cbn. repeat split; intros; congruence.
Qed.

Lemma settledFlags_toSuccess (d : option JSON) (st : Mutation.MutationState) :
  Mutation.settledFlags (Mutation.toSuccess d st).
Proof.
  unfold Mutation.settledFlags. cbn. repeat split; intros; congruence.
Qed.

Lemma settledFlags_toError (err : Thrown) (st : Mutation.MutationState) :
  Mutation.settledFlags (Mutation.toError err st).
Proof.
  unfold Mutation.settledFlags. cbn. repeat split; intros; try congruence; lia.
Qed.

Lemma settledFlags_whenMounted
    (f : Mutation.MutationState -> Mutation.MutationState) (h : Mutation.Hook) :
  (forall st, Mutation.settledFlags (f st)) ->
  Mutation.settledFlags (Mutation.state h) ->
  Mutation.settledFlags (Mutation.state (Mutation.whenMounted f h)).
Proof.
  intros Hf Hh. unfold Mutation.whenMounted. destruct (Mutation.isMounted h); [apply Hf | exact Hh].
Qed.

Lemma settledFlags_step (now : Z) (ev : Mutation.Event) (h : Mutation.Hook) :
  Mutation.settledFlags (Mutation.state h) ->
  Mutation.settledFlags (Mutation.state (Mutation.step now ev h)).
Proof.
  intros Hh. destruct ev as [kind options v mo | fid o | fid o | fid | | |]; cbn [Mutation.step].
  - unfold Mutation.call.
    destruct (Mutation.isMounted h); cbn [negb]; [| exact Hh].
    destruct (Mutation.onMutate options); [exact Hh |].
    apply settledFlags_toPending.
  - unfold Mutation.onMutateSettles.
    destruct (Mutation.frames h !! fid) as [fr|]; [| exact Hh].
    destruct (Mutation.framePhase fr); try exact Hh.
    destruct o as [ctx | err]; [apply settledFlags_toPending | exact Hh].
  - unfold Mutation.fnSettles.
    destruct (Mutation.frames h !! fid) as [fr|]; [| exact Hh].
    destruct (Mutation.framePhase fr); try exact Hh.
    destruct o as [d | err].
    + apply (settledFlags_whenMounted (Mutation.toSuccess d) h);
        [apply settledFlags_toSuccess | exact Hh].
    + destruct (shouldRetry _ _ _); [exact Hh |].
      apply (settledFlags_whenMounted (Mutation.toError err) h);
        [apply settledFlags_toError | exact Hh].
  - unfold Mutation.delayElapses.
    destruct (Mutation.frames h !! fid) as [fr|]; [| exact Hh].
    destruct (Mutation.framePhase fr); exact Hh.
  - apply settledFlags_initial.
  - exact Hh.
  - exact Hh.
Qed.

(** Whatever the component did, with calls overlapping, resets and
    unmounts in any order, the flags of the mutation state follow its
    status: [isPending] holds exactly in status pending; a state with status
    success has [isSuccess], no error and a failure count of zero; a state
    with status error has [isError] and a positive failure count; and status
    idle is the initial state.  ([isSuccess] and [isError] may be left over
    from the mutation before while the status is pending.) *)
Theorem mutation_flags_follow_status (h : Mutation.Hook) :
  Mutation.reachable h -> Mutation.settledFlags (Mutation.state h).
Proof.
  intros [trace ->].
  assert (G : forall h0, Mutation.settledFlags (Mutation.state h0) ->
                         Mutation.settledFlags (Mutation.state (Mutation.run trace h0))).
  { induction trace as [| [now ev] rest IH]; intros h0 H0; cbn [Mutation.run]; [exact H0 |].
    apply IH, settledFlags_step, H0. }
  apply G, settledFlags_initial.
Qed.

Lemma mutation_flags_follow_status_witness :
  let options :=
    {| Mutation.mutationFn := 7; Mutation.onMutate := false; Mutation.onSuccess := false;
       Mutation.onError := false; Mutation.onSettled := false;
       Mutation.retry := None; Mutation.retryDelay := None |} in
  let h := Mutation.run
             [(0, Mutation.Call Mutation.Mutate options (Some (JNum 1)) None);
              (5, Mutation.FnSettles 0 (Resolved (Some (JStr "A"))));
              (9, Mutation.Call Mutation.Mutate options (Some (JNum 2)) None)]
             Mutation.useMutation in
  Mutation.status (Mutation.state h) = Mutation.MutationPending
  /\ Mutation.isSuccess (Mutation.state h) = true
  /\ Mutation.settledFlags (Mutation.state h).
Proof.
  intros options h. split; [reflexivity |]. split; [reflexivity |].
  apply (mutation_flags_follow_status h). eexists; reflexivity.
Defined.

Lemma mutation_invocations_app (fn : nat) (h h' : Mutation.Hook) (l : list (nat * option JSON)) :
  Mutation.calls h' = Mutation.calls h ++ l ->
  Mutation.invocations fn h'
  = (Mutation.invocations fn h + length (filter (fun c => fst c = fn) l))%nat.
Proof.
  intros H. unfold Mutation.invocations. rewrite H, filter_app, length_app. reflexivity.
Qed.

Lemma mutation_alwaysRejects_S
    (fuel fid : nat) (err : Thrown) (h : Mutation.Hook) (fr : Mutation.Frame) :
  Mutation.frames h !! fid = Some fr ->
  Mutation.alwaysRejects (S fuel) fid err h =
    match Mutation.framePhase fr with
    | Mutation.AwaitingOnMutate => h
    | Mutation.AwaitingFn =>
        Mutation.alwaysRejects fuel fid err (Mutation.fnSettles fid (Rejected err) h)
    | Mutation.AwaitingDelay _ =>
        Mutation.alwaysRejects fuel fid err (Mutation.delayElapses fid h)
    end.
Proof. intros H. cbn [Mutation.alwaysRejects]. rewrite H. reflexivity. Qed.

Lemma mutation_alwaysRejects_over (fuel fid : nat) (err : Thrown) (h : Mutation.Hook) :
  Mutation.frames h !! fid = None -> Mutation.alwaysRejects fuel fid err h = h.
Proof. intros H. destruct fuel; [reflexivity |]. cbn [Mutation.alwaysRejects]. rewrite H. reflexivity. Qed.

Lemma mutation_reject (fid : nat) (err : Thrown) (h : Mutation.Hook) (fr : Mutation.Frame) :
  Mutation.frames h !! fid = Some fr ->
  Mutation.framePhase fr = Mutation.AwaitingFn ->
  Mutation.fnSettles fid (Rejected err) h =
    if shouldRetry (default (RetryBool false) (Mutation.retry (Mutation.frameOptions fr)))
         (Mutation.frameAttempt fr) err
    then Mutation.setFrames <[fid :=
           {| Mutation.frameOptions := Mutation.frameOptions fr;
              Mutation.frameMutateOptions := Mutation.frameMutateOptions fr;
              Mutation.frameVariables := Mutation.frameVariables fr;
              Mutation.frameContext := Mutation.frameContext fr;
              Mutation.frameAttempt := Mutation.frameAttempt fr;
              Mutation.framePhase :=
                Mutation.AwaitingDelay
                  (retryDelayOf (Mutation.retryDelay (Mutation.frameOptions fr))
                     (Mutation.frameAttempt fr) err);
              Mutation.frameKind := Mutation.frameKind fr |}]> h
    else Mutation.failed fid fr err h.
Proof. intros H Hph. unfold Mutation.fnSettles. rewrite H, Hph. reflexivity. Qed.

Lemma mutation_delay_over (fid : nat) (h : Mutation.Hook) (fr : Mutation.Frame) (ms : Z) :
  Mutation.frames h !! fid = Some fr ->
  Mutation.framePhase fr = Mutation.AwaitingDelay ms ->
  Mutation.delayElapses fid h =
    Mutation.setFrames <[fid :=
      {| Mutation.frameOptions := Mutation.frameOptions fr;
         Mutation.frameMutateOptions := Mutation.frameMutateOptions fr;
         Mutation.frameVariables := Mutation.frameVariables fr;
         Mutation.frameContext := Mutation.frameContext fr;
         Mutation.frameAttempt := S (Mutation.frameAttempt fr);
         Mutation.framePhase := Mutation.AwaitingFn;
         Mutation.frameKind := Mutation.frameKind fr |}]>
      (Mutation.callMutationFn (Mutation.frameOptions fr) (Mutation.frameVariables fr) h).
Proof. intros H Hph. unfold Mutation.delayElapses. rewrite H, Hph. reflexivity. Qed.

Section MutationPolicy.
Context (n : nat) (options : Mutation.MutationOptions) (err : Thrown).
Context (fid : nat) (mo : option Mutation.MutateOptions) (v ctx : option JSON)
        (kind : Mutation.Kind).
Hypothesis Hbudget :
  retryBudget (Some (default (RetryBool false) (Mutation.retry options))) err n.

Lemma mutation_shouldRetry (a : nat) :
  shouldRetry (default (RetryBool false) (Mutation.retry options)) a err
  = bool_decide (a < n)%nat.
Proof. exact (retryBudget_shouldRetry _ err n a Hbudget). Qed.

(** The first [n] rejections are retried. *)
Lemma mutation_rejections_retried (k m : nat) :
  forall (a : nat) (h : Mutation.Hook),
    Mutation.frames h !! fid = Some (Mutation.frameAt options mo v ctx kind a Mutation.AwaitingFn) ->
    (a + k <= n)%nat ->
    exists h',
      Mutation.alwaysRejects (2 * k + m) fid err h = Mutation.alwaysRejects m fid err h'
      /\ Mutation.frames h' !! fid = Some (Mutation.frameAt options mo v ctx kind (a + k) Mutation.AwaitingFn)
      /\ Mutation.calls h'
         = Mutation.calls h ++ replicate k (Mutation.mutationFn options, v)
      /\ Mutation.state h' = Mutation.state h
      /\ Mutation.isMounted h' = Mutation.isMounted h
      /\ Mutation.deferred h' = Mutation.deferred h
      /\ Mutation.promises h' = Mutation.promises h.
Proof.
  induction k as [| k IH]; intros a h Hfr Hle.
  - exists h. rewrite Nat.add_0_r, app_nil_r. repeat split. exact Hfr.
  - replace (2 * S k + m)%nat with (S (S (2 * k + m))) by lia.
    rewrite (mutation_alwaysRejects_S _ fid err h _ Hfr). cbn [Mutation.framePhase Mutation.frameAt].
    rewrite (mutation_reject fid err h _ Hfr eq_refl).
    cbn [Mutation.framePhase Mutation.frameOptions Mutation.frameAttempt Mutation.frameAt
         Mutation.frameMutateOptions Mutation.frameVariables Mutation.frameContext
         Mutation.frameKind].
    rewrite mutation_shouldRetry, bool_decide_eq_true_2 by lia.
    set (ms := retryDelayOf _ _ _).
    set (h1 := Mutation.setFrames _ h).
    assert (H1 : Mutation.frames h1 !! fid = Some (Mutation.frameAt options mo v ctx kind a (Mutation.AwaitingDelay ms)))
      by (subst h1; apply lookup_insert_eq).
    rewrite (mutation_alwaysRejects_S _ fid err h1 _ H1). cbn [Mutation.framePhase Mutation.frameAt].
    rewrite (mutation_delay_over fid h1 _ ms H1 eq_refl).
    cbn [Mutation.framePhase Mutation.frameOptions Mutation.frameAttempt Mutation.frameAt
         Mutation.frameMutateOptions Mutation.frameVariables Mutation.frameContext
         Mutation.frameKind].
    set (h2 := Mutation.setFrames _ _).
    assert (H2 : Mutation.frames h2 !! fid = Some (Mutation.frameAt options mo v ctx kind (S a) Mutation.AwaitingFn))
      by (subst h2; apply lookup_insert_eq).
    destruct (IH (S a) h2 H2 ltac:(lia)) as (h' & Hrun & Hfr' & Hc & Hs & Hm & Hd & Hp).
    exists h'. rewrite Hrun. replace (a + S k)%nat with (S a + k)%nat by lia.
    split; [reflexivity |]. split; [exact Hfr' |].
    rewrite Hc, Hs, Hm, Hd, Hp. subst h2 h1. cbn. rewrite <- app_assoc. repeat split.
Qed.

(** Once the budget is used up the rejection ends the call. *)
Lemma mutation_exhausted (fuel : nat) (h : Mutation.Hook) :
  Mutation.frames h !! fid = Some (Mutation.frameAt options mo v ctx kind 0 Mutation.AwaitingFn) ->
  (2 * n + 1 <= fuel)%nat ->
  let h' := Mutation.alwaysRejects fuel fid err h in
  Mutation.frames h' !! fid = None
  /\ Mutation.calls h' = Mutation.calls h ++ replicate n (Mutation.mutationFn options, v)
  /\ Mutation.state h'
     = (if Mutation.isMounted h then Mutation.toError err (Mutation.state h)
        else Mutation.state h)
  /\ Mutation.deferred h' = Mutation.deferred h ++ [Mutation.TaskFailed options mo err v ctx]
  /\ Mutation.promises h' = Mutation.promises h ++ [(fid, kind, Rejected err)].
Proof.
  intros Hfr Hfuel.
  destruct (Nat.le_exists_sub _ _ Hfuel) as (m & -> & _).
  replace (m + (2 * n + 1))%nat with (2 * n + S m)%nat by lia.
  destruct (mutation_rejections_retried n (S m) 0 h Hfr ltac:(lia))
    as (h1 & Hrun & Hfr1 & Hc & Hs & Hm & Hd & Hp).
  cbv zeta. rewrite Hrun. cbn [Nat.add] in Hfr1.
  rewrite (mutation_alwaysRejects_S _ fid err h1 _ Hfr1). cbn [Mutation.framePhase Mutation.frameAt].
  rewrite (mutation_reject fid err h1 _ Hfr1 eq_refl).
  cbn [Mutation.framePhase Mutation.frameOptions Mutation.frameAttempt Mutation.frameAt].
  rewrite mutation_shouldRetry, bool_decide_eq_false_2 by lia.
  set (h2 := Mutation.failed fid _ err h1).
  assert (H2 : Mutation.frames h2 !! fid = None
               /\ Mutation.calls h2 = Mutation.calls h1
               /\ Mutation.state h2
                  = (if Mutation.isMounted h1 then Mutation.toError err (Mutation.state h1)
                     else Mutation.state h1)
               /\ Mutation.deferred h2
                  = Mutation.deferred h1 ++ [Mutation.TaskFailed options mo err v ctx]
               /\ Mutation.promises h2 = Mutation.promises h1 ++ [(fid, kind, Rejected err)]).
  { subst h2. unfold Mutation.failed, Mutation.whenMounted.
    destruct (Mutation.isMounted h1); cbn; rewrite lookup_delete_eq; repeat split. }
  destruct H2 as (H2f & H2c & H2s & H2d & H2p). clearbody h2.
  assert (E : Mutation.alwaysRejects m fid err h2 = h2)
    by (apply mutation_alwaysRejects_over, H2f).
  rewrite E, H2f, H2c, H2s, H2d, H2p, Hc, Hs, Hm, Hd, Hp. repeat split.
Qed.
End MutationPolicy.

(** A mutation whose policy allows [n] retries ([retry] defaults to
    [false]: none) and whose function always rejects calls the function
    [n + 1] times.  Then the state is the error state built on the pending
    one, the failure is handed to [defer] once, and the promise is rejected
    with the error; the caller of [mutate] sees no rejection. *)
Theorem mutation_retry_policy
    (n : nat) (now : Z) (kind : Mutation.Kind) (options : Mutation.MutationOptions)
    (v : option JSON) (mo : option Mutation.MutateOptions) (err : Thrown)
    (fuel : nat) (h : Mutation.Hook) :
  Mutation.isMounted h = true ->
  Mutation.onMutate options = false ->
  retryBudget (Some (default (RetryBool false) (Mutation.retry options))) err n ->
  (2 * n + 1 <= fuel)%nat ->
  let fid := Mutation.nextId h in
  let h' := Mutation.alwaysRejects fuel fid err
              (Mutation.step now (Mutation.Call kind options v mo) h) in
  Mutation.invocations (Mutation.mutationFn options) h'
  = (Mutation.invocations (Mutation.mutationFn options) h + S n)%nat
  /\ Mutation.state h' = Mutation.toError err (Mutation.toPending now v None (Mutation.state h))
  /\ Mutation.deferred h' = Mutation.deferred h ++ [Mutation.TaskFailed options mo err v None]
  /\ Mutation.promises h' = Mutation.promises h ++ [(fid, kind, Rejected err)]
  /\ Mutation.frames h' !! fid = None
  /\ (kind = Mutation.Mutate -> Mutation.rejections h' = Mutation.rejections h).
Proof.
  intros Hm Hom Hb Hfuel fid h'.
  set (h1 := Mutation.step now (Mutation.Call kind options v mo) h) in *.
  assert (H1 : Mutation.frames h1 !! fid
               = Some {| Mutation.frameOptions := options; Mutation.frameMutateOptions := mo;
                         Mutation.frameVariables := v; Mutation.frameContext := None;
                         Mutation.frameAttempt := 0; Mutation.framePhase := Mutation.AwaitingFn;
                         Mutation.frameKind := kind |}
               /\ Mutation.calls h1 = Mutation.calls h ++ [(Mutation.mutationFn options, v)]
               /\ Mutation.state h1 = Mutation.toPending now v None (Mutation.state h)
               /\ Mutation.isMounted h1 = true
               /\ Mutation.deferred h1 = Mutation.deferred h
               /\ Mutation.promises h1 = Mutation.promises h).
  { subst h1. cbn [Mutation.step]. unfold Mutation.call. rewrite Hm, Hom. cbn.
    rewrite lookup_insert_eq. repeat split. }
  destruct H1 as (H1f & H1c & H1s & H1m & H1d & H1p). clearbody h1.
  destruct (mutation_exhausted n options err fid mo v None kind Hb fuel h1 H1f Hfuel)
    as (Hf & Hc & Hs & Hd & Hp).
  fold h' in Hf, Hc, Hs, Hd, Hp. clearbody h'.
  rewrite H1m, H1s in Hs. rewrite H1d in Hd. rewrite H1p in Hp. rewrite H1c in Hc.
  split; [| split; [exact Hs | split; [exact Hd | split; [exact Hp | split; [exact Hf |]]]]].
  - rewrite <- app_assoc in Hc.
    rewrite (mutation_invocations_app _ h h' _ Hc).
    f_equal. change ([(Mutation.mutationFn options, v)] ++ replicate n (Mutation.mutationFn options, v))
      with (replicate (S n) (Mutation.mutationFn options, v)).
    generalize (S n). intros k. induction k as [| k IH]; [reflexivity |].
    cbn [replicate]. rewrite filter_cons_True by reflexivity. cbn [length]. rewrite IH.
    reflexivity.
  - intros ->. unfold Mutation.rejections. rewrite Hp, omap_app. cbn. apply app_nil_r.
Qed.

Lemma mutation_retry_policy_witness :
  let options :=
    {| Mutation.mutationFn := 7; Mutation.onMutate := false; Mutation.onSuccess := false;
       Mutation.onError := true; Mutation.onSettled := false;
       Mutation.retry := None; Mutation.retryDelay := None |} in
  let err := ErrorObject "Error" "boom" in
  let h' := Mutation.alwaysRejects 5 0 err
              (Mutation.step 0 (Mutation.Call Mutation.Mutate options None None)
                 Mutation.useMutation) in
  Mutation.invocations 7 h' = 1%nat
  /\ Mutation.status (Mutation.state h') = Mutation.MutationError
  /\ Mutation.rejections h' = [].
Proof.
  intros options err h'.
  pose proof (mutation_retry_policy 0 0 Mutation.Mutate options None None err 5
                Mutation.useMutation eq_refl eq_refl eq_refl ltac:(lia)) as H.
  cbv zeta in H. change (Mutation.nextId Mutation.useMutation) with 0%nat in H.
  fold h' in H. destruct H as (Hi & Hs & _ & _ & _ & Hr).
  split; [exact Hi |]. split; [rewrite Hs; reflexivity |]. exact (Hr eq_refl).
Defined.

(** The context a callback call is given. *)
Lemma chainOf_context (t : Mutation.Task) (c : Mutation.CallbackCall) :
  c ∈ Mutation.chainOf t ->
  match t, c with
  | Mutation.TaskSucceeded _ _ d v ctx, Mutation.CalledOnSuccess _ d' v' ctx' =>
      d' = d /\ v' = v /\ ctx' = ctx
  | Mutation.TaskSucceeded _ _ d v ctx, Mutation.CalledOnSettled _ d' e' v' ctx' =>
      d' = d /\ e' = None /\ v' = v /\ ctx' = ctx
  | Mutation.TaskFailed _ _ err v ctx, Mutation.CalledOnError _ err' v' ctx' =>
      err' = err /\ v' = v /\ ctx' = ctx
  | Mutation.TaskFailed _ _ err v ctx, Mutation.CalledOnSettled _ d' e' v' ctx' =>
      d' = None /\ e' = error_field err /\ v' = v /\ ctx' = ctx
  | _, _ => False
  end.
Proof.
  destruct t as [options mo d v ctx | options mo err v ctx]; cbn [Mutation.chainOf];
    rewrite !elem_of_app;
    destruct (Mutation.onSuccess options), (Mutation.onError options),
             (Mutation.onSettled options), (Mutation.given Mutation.mutateOnSuccess mo),
             (Mutation.given Mutation.mutateOnError mo),
             (Mutation.given Mutation.mutateOnSettled mo);
    rewrite ?elem_of_cons, ?elem_of_nil; intros H; destruct_or?; subst;
    try contradiction; repeat split.
Qed.

Lemma upToThrow_subset
    (throws : Mutation.CallbackCall -> bool) (l : list Mutation.CallbackCall)
    (c : Mutation.CallbackCall) :
  c ∈ Mutation.upToThrow throws l -> c ∈ l.
Proof.
  induction l as [| x l IH]; cbn [Mutation.upToThrow]; intros Hc; [exact Hc |].
  apply elem_of_cons in Hc as [-> | Hc]; [apply elem_of_cons; left; reflexivity |].
  apply elem_of_cons; right. destruct (throws x); [inversion Hc | apply IH, Hc].
Qed.

(** With an [onMutate] callback, [mutate] calls it and nothing else: the
    state is not pending yet and the mutation function has not been called.
    If its promise is rejected the mutation is over: the state is as before
    the call, the mutation function is never called, nothing is handed to
    [defer], so neither [onError] nor [onSettled] runs, and the promise is
    rejected with the error.  If it is fulfilled with a context, the state
    becomes pending with that context and the function is called; when the
    function succeeds, the state is the success state and every callback of
    the deferred function is given that context. *)
Theorem onMutate_threads_context
    (t1 t2 : Z) (kind : Mutation.Kind) (options : Mutation.MutationOptions)
    (v : option JSON) (mo : option Mutation.MutateOptions) (h : Mutation.Hook) :
  Mutation.isMounted h = true ->
  Mutation.onMutate options = true ->
  let fid := Mutation.nextId h in
  let h1 := Mutation.step t1 (Mutation.Call kind options v mo) h in
  (Mutation.state h1 = Mutation.state h
   /\ Mutation.onMutateCalls h1 = Mutation.onMutateCalls h ++ [v]
   /\ Mutation.calls h1 = Mutation.calls h)
  /\ (forall err,
        let h2 := Mutation.step t2 (Mutation.OnMutateSettles fid (Rejected err)) h1 in
        Mutation.state h2 = Mutation.state h
        /\ Mutation.calls h2 = Mutation.calls h
        /\ Mutation.deferred h2 = Mutation.deferred h
        /\ Mutation.promises h2 = Mutation.promises h ++ [(fid, kind, Rejected err)]
        /\ Mutation.frames h2 !! fid = None)
  /\ (forall ctx d t3,
        let h2 := Mutation.step t2 (Mutation.OnMutateSettles fid (Resolved ctx)) h1 in
        let h3 := Mutation.step t3 (Mutation.FnSettles fid (Resolved d)) h2 in
        let task := Mutation.TaskSucceeded options mo d v ctx in
        Mutation.state h2 = Mutation.toPending t2 v ctx (Mutation.state h)
        /\ Mutation.calls h2 = Mutation.calls h ++ [(Mutation.mutationFn options, v)]
        /\ Mutation.state h3
           = Mutation.toSuccess d (Mutation.toPending t2 v ctx (Mutation.state h))
        /\ Mutation.context (Mutation.state h3) = ctx
        /\ Mutation.deferred h3 = Mutation.deferred h ++ [task]
        /\ Mutation.promises h3 = Mutation.promises h ++ [(fid, kind, Resolved d)]
        /\ forall throws c, c ∈ Mutation.callsOf throws task ->
             match c with
             | Mutation.CalledOnSuccess _ d' v' ctx' => d' = d /\ v' = v /\ ctx' = ctx
             | Mutation.CalledOnSettled _ d' e' v' ctx' =>
                 d' = d /\ e' = None /\ v' = v /\ ctx' = ctx
             | Mutation.CalledOnError _ _ _ _ => False
             end).
Proof.
  intros Hm Hom fid h1.
  assert (H1 : h1 = Mutation.setFrames <[fid :=
                 {| Mutation.frameOptions := options; Mutation.frameMutateOptions := mo;
                    Mutation.frameVariables := v; Mutation.frameContext := None;
                    Mutation.frameAttempt := 0;
                    Mutation.framePhase := Mutation.AwaitingOnMutate;
                    Mutation.frameKind := kind |}]>
                 (Mutation.callOnMutate v
                    {| Mutation.state := Mutation.state h;
                       Mutation.isMounted := Mutation.isMounted h;
                       Mutation.frames := Mutation.frames h;
                       Mutation.nextId := S (Mutation.nextId h);
                       Mutation.onMutateCalls := Mutation.onMutateCalls h;
                       Mutation.calls := Mutation.calls h;
                       Mutation.deferred := Mutation.deferred h;
                       Mutation.promises := Mutation.promises h |})).
  { subst h1. cbn [Mutation.step]. unfold Mutation.call. rewrite Hm, Hom. reflexivity. }
  clearbody h1. subst h1.
  split; [repeat split |]. split.
  - intros err. cbn [Mutation.step]. unfold Mutation.onMutateSettles.
    cbn [Mutation.frames Mutation.setFrames Mutation.callOnMutate].
    rewrite lookup_insert_eq. cbn. rewrite lookup_delete_eq. repeat split.
  - intros ctx d t3 h2 h3 task.
    set (h1 := Mutation.setFrames _ _) in *.
    set (fr1 := {| Mutation.frameOptions := options; Mutation.frameMutateOptions := mo;
                   Mutation.frameVariables := v; Mutation.frameContext := None;
                   Mutation.frameAttempt := 0;
                   Mutation.framePhase := Mutation.AwaitingOnMutate;
                   Mutation.frameKind := kind |}) in *.
    assert (Hf1 : Mutation.frames h1 !! fid = Some fr1) by (subst h1; apply lookup_insert_eq).
    assert (E2 : h2 = Mutation.start t2 fid fr1 ctx h1).
    { subst h2. cbn [Mutation.step]. unfold Mutation.onMutateSettles. rewrite Hf1.
      reflexivity. }
    set (fr2 := {| Mutation.frameOptions := options; Mutation.frameMutateOptions := mo;
                   Mutation.frameVariables := v; Mutation.frameContext := ctx;
                   Mutation.frameAttempt := 0;
                   Mutation.framePhase := Mutation.AwaitingFn;
                   Mutation.frameKind := kind |}).
    assert (Hf2 : Mutation.frames h2 !! fid = Some fr2)
      by (rewrite E2; unfold Mutation.start; cbn; apply lookup_insert_eq).
    assert (E3 : h3 = Mutation.succeeded fid fr2 d h2).
    { subst h3. cbn [Mutation.step]. unfold Mutation.fnSettles. rewrite Hf2. reflexivity. }
    clearbody h3 h2.
    assert (Hm2 : Mutation.isMounted h2 = true) by (rewrite E2; exact Hm).
    assert (Hs2 : Mutation.state h2 = Mutation.toPending t2 v ctx (Mutation.state h))
      by (rewrite E2; reflexivity).
    assert (Hs3 : Mutation.state h3
                  = Mutation.toSuccess d (Mutation.toPending t2 v ctx (Mutation.state h))).
    { rewrite E3. unfold Mutation.succeeded, Mutation.whenMounted. rewrite Hm2.
      cbn. rewrite Hs2. reflexivity. }
    split; [exact Hs2 |]. split; [rewrite E2; reflexivity |]. split; [exact Hs3 |].
    split; [rewrite Hs3; reflexivity |].
    split; [rewrite E3; unfold Mutation.succeeded, Mutation.whenMounted; rewrite Hm2;
            cbn; rewrite E2; reflexivity |].
    split; [rewrite E3; unfold Mutation.succeeded, Mutation.whenMounted; rewrite Hm2;
            cbn; rewrite E2; reflexivity |].
    intros throws c Hc.
    assert (Hin : c ∈ Mutation.chainOf (Mutation.TaskSucceeded options mo d v ctx))
      by (apply (upToThrow_subset throws), Hc).
    pose proof (chainOf_context _ _ Hin) as Hctx. cbn in Hctx.
    destruct c; exact Hctx.
Qed.

Lemma onMutate_threads_context_witness :
  let options :=
    {| Mutation.mutationFn := 7; Mutation.onMutate := true; Mutation.onSuccess := true;
       Mutation.onError := false; Mutation.onSettled := true;
       Mutation.retry := None; Mutation.retryDelay := None |} in
  let v := Some (JNum 1) in
  let ctx := Some (JStr "snapshot") in
  let d := Some (JStr "saved") in
  let h3 := Mutation.run
              [(0, Mutation.Call Mutation.MutateAsync options v None);
               (1, Mutation.OnMutateSettles 0 (Resolved ctx));
               (2, Mutation.FnSettles 0 (Resolved d))] Mutation.useMutation in
  Mutation.context (Mutation.state h3) = ctx
  /\ Mutation.callsOf (fun _ => false) (Mutation.TaskSucceeded options None d v ctx)
     = [Mutation.CalledOnSuccess Mutation.OfHook d v ctx;
        Mutation.CalledOnSettled Mutation.OfHook d None v ctx].
Proof.
  intros options v ctx d h3.
  destruct (onMutate_threads_context 0 1 Mutation.MutateAsync options v None
              Mutation.useMutation eq_refl eq_refl) as (_ & _ & H).
  destruct (H ctx d 2) as (_ & _ & _ & Hctx & _).
  split; [exact Hctx | reflexivity].
Defined.

(** Once the component is unmounted, [mutate] does nothing but reject its
    promise with [Error('Component unmounted')], which [mutate] swallows:
    neither [onMutate] nor the mutation function is called and nothing is
    deferred.  A mutation that was in flight when the component unmounted
    still settles: the state is left as it is, but the callbacks are handed
    to [defer] all the same. *)
Theorem unmounted_component
    (now : Z) (h : Mutation.Hook) :
  Mutation.isMounted h = false ->
  (forall kind options v mo,
     let h' := Mutation.step now (Mutation.Call kind options v mo) h in
     Mutation.state h' = Mutation.state h
     /\ Mutation.onMutateCalls h' = Mutation.onMutateCalls h
     /\ Mutation.calls h' = Mutation.calls h
     /\ Mutation.deferred h' = Mutation.deferred h
     /\ Mutation.promises h'
        = Mutation.promises h
          ++ [(Mutation.nextId h, kind,
               Rejected (ErrorObject "Error" "Component unmounted"))]
     /\ (kind = Mutation.Mutate -> Mutation.rejections h' = Mutation.rejections h))
  /\ (forall fid fr o,
        Mutation.frames h !! fid = Some fr ->
        Mutation.framePhase fr = Mutation.AwaitingFn ->
        let h' := Mutation.step now (Mutation.FnSettles fid o) h in
        Mutation.state h' = Mutation.state h
        /\ match o with
           | Resolved d =>
               Mutation.deferred h'
               = Mutation.deferred h
                 ++ [Mutation.TaskSucceeded (Mutation.frameOptions fr)
                       (Mutation.frameMutateOptions fr) d
                       (Mutation.frameVariables fr) (Mutation.frameContext fr)]
           | Rejected err =>
               shouldRetry (default (RetryBool false)
                              (Mutation.retry (Mutation.frameOptions fr)))
                 (Mutation.frameAttempt fr) err = false ->
               Mutation.deferred h'
               = Mutation.deferred h
                 ++ [Mutation.TaskFailed (Mutation.frameOptions fr)
                       (Mutation.frameMutateOptions fr) err
                       (Mutation.frameVariables fr) (Mutation.frameContext fr)]
           end).
Proof.
  intros Hm. split.
  - intros kind options v mo. cbn [Mutation.step]. unfold Mutation.call. rewrite Hm.
    cbn. repeat split. intros ->. unfold Mutation.rejections. cbn.
    rewrite omap_app. cbn. apply app_nil_r.
  - intros fid fr o Hfr Hph. cbn [Mutation.step]. unfold Mutation.fnSettles.
    rewrite Hfr, Hph. destruct o as [d | err].
    + unfold Mutation.succeeded, Mutation.whenMounted. rewrite Hm. split; reflexivity.
    + destruct (shouldRetry _ _ _) eqn:Hr.
      * split; [reflexivity | intros; discriminate].
      * unfold Mutation.failed, Mutation.whenMounted. rewrite Hm. split; reflexivity.
Qed.

Lemma unmounted_component_witness :
  let options :=
    {| Mutation.mutationFn := 7; Mutation.onMutate := false; Mutation.onSuccess := true;
       Mutation.onError := false; Mutation.onSettled := false;
       Mutation.retry := None; Mutation.retryDelay := None |} in
  let h := Mutation.run
             [(0, Mutation.Call Mutation.Mutate options None None);
              (1, Mutation.Unmount)] Mutation.useMutation in
  let h' := Mutation.step 2 (Mutation.FnSettles 0 (Resolved (Some (JStr "A")))) h in
  Mutation.status (Mutation.state h') = Mutation.MutationPending
  /\ length (Mutation.deferred h') = 1%nat
  /\ Mutation.invocations 7 (Mutation.step 3 (Mutation.Call Mutation.Mutate options None None) h)
     = 1%nat.
Proof.
  intros options h h'.
  destruct (unmounted_component 2 h eq_refl) as (_ & Hsettle).
  destruct (unmounted_component 3 h eq_refl) as (Hcall & _).
  assert (Hfr : exists fr, Mutation.frames h !! 0%nat = Some fr
                           /\ Mutation.framePhase fr = Mutation.AwaitingFn)
    by (vm_compute; eexists; split; reflexivity).
  destruct Hfr as (fr & Hfr & Hph).
  destruct (Hsettle 0%nat fr (Resolved (Some (JStr "A"))) Hfr Hph) as (Hs & Hd).
  fold h' in Hs, Hd.
  split; [rewrite Hs; reflexivity |]. split; [rewrite Hd; reflexivity |].
  destruct (Hcall Mutation.Mutate options None None) as (_ & _ & Hc & _).
  unfold Mutation.invocations. rewrite Hc. reflexivity.
Defined.

(** Suspended calls have references older than the next one. *)
Lemma mutation_frames_bound (h : Mutation.Hook) :
  Mutation.reachable h ->
  forall fid, is_Some (Mutation.frames h !! fid) -> (fid < Mutation.nextId h)%nat.
Proof.
  intros [trace ->].
  assert (G : forall h0,
             (forall fid, is_Some (Mutation.frames h0 !! fid) -> (fid < Mutation.nextId h0)%nat) ->
             forall fid, is_Some (Mutation.frames (Mutation.run trace h0) !! fid) ->
                         (fid < Mutation.nextId (Mutation.run trace h0))%nat).
  { induction trace as [| [now ev] rest IH]; intros h0 H0; cbn [Mutation.run]; [exact H0 |].
    apply IH. clear IH rest.
    assert (Hins : forall (fr : Mutation.Frame) (x : nat) (h1 : Mutation.Hook) fid,
               (forall fid, is_Some (Mutation.frames h1 !! fid) -> (fid < Mutation.nextId h1)%nat) ->
               (x < Mutation.nextId h1)%nat ->
               is_Some (<[x := fr]> (Mutation.frames h1) !! fid) ->
               (fid < Mutation.nextId h1)%nat).
    { intros fr x h1 fid H1 Hx Hf. destruct (decide (x = fid)) as [<- | Hne]; [exact Hx |].
      rewrite lookup_insert_ne in Hf by exact Hne. apply H1, Hf. }
    assert (Hdel : forall (x : nat) (h1 : Mutation.Hook) fid,
               (forall fid, is_Some (Mutation.frames h1 !! fid) -> (fid < Mutation.nextId h1)%nat) ->
               is_Some (delete x (Mutation.frames h1) !! fid) ->
               (fid < Mutation.nextId h1)%nat).
    { intros x h1 fid H1 [fr Hf]. apply lookup_delete_Some in Hf as [_ Hf]. apply H1. eauto. }
    destruct ev as [kind options v mo | fid0 o | fid0 o | fid0 | | |]; cbn [Mutation.step];
      try exact H0.
    - unfold Mutation.call. intros fid.
      destruct (Mutation.isMounted h0); cbn [negb].
      + destruct (Mutation.onMutate options); cbn; intros Hf;
          (destruct (decide (Mutation.nextId h0 = fid)) as [<- | Hne]; [lia |]);
          rewrite lookup_insert_ne in Hf by exact Hne; specialize (H0 _ Hf); lia.
      + cbn. intros [fr Hf]. apply lookup_delete_Some in Hf as [_ Hf].
        assert (Hs : is_Some (Mutation.frames h0 !! fid)) by eauto.
        specialize (H0 _ Hs). lia.
    - unfold Mutation.onMutateSettles.
      destruct (Mutation.frames h0 !! fid0) as [fr|] eqn:Hfr; [| exact H0].
      assert (Hlt : (fid0 < Mutation.nextId h0)%nat) by (apply H0; eauto).
      destruct (Mutation.framePhase fr); try exact H0.
      destruct o as [ctx | err]; cbn; intros fid Hf.
      + eapply Hins; eauto.
      + eapply Hdel; eauto.
    - unfold Mutation.fnSettles.
      destruct (Mutation.frames h0 !! fid0) as [fr|] eqn:Hfr; [| exact H0].
      assert (Hlt : (fid0 < Mutation.nextId h0)%nat) by (apply H0; eauto).
      destruct (Mutation.framePhase fr); try exact H0.
      destruct o as [d | err].
      + unfold Mutation.succeeded, Mutation.whenMounted.
        destruct (Mutation.isMounted h0); cbn; intros fid Hf; eapply Hdel; eauto.
      + destruct (shouldRetry _ _ _).
        * cbn. intros fid Hf. eapply Hins; eauto.
        * unfold Mutation.failed, Mutation.whenMounted.
          destruct (Mutation.isMounted h0); cbn; intros fid Hf; eapply Hdel; eauto.
    - unfold Mutation.delayElapses.
      destruct (Mutation.frames h0 !! fid0) as [fr|] eqn:Hfr; [| exact H0].
      assert (Hlt : (fid0 < Mutation.nextId h0)%nat) by (apply H0; eauto).
      destruct (Mutation.framePhase fr); try exact H0.
      cbn. intros fid Hf. eapply (Hins _ fid0 h0); eauto. }
  apply G. intros fid [fr Hf]. cbn in Hf. rewrite lookup_empty in Hf. discriminate Hf.
Qed.

(** Mutations are not de-duplicated: while the component is mounted, a call
    without [onMutate] calls the mutation function at once, however many
    mutations are in flight and whatever their variables, and it leaves the
    suspended calls as they are. *)
Theorem mutations_are_independent
    (now : Z) (kind : Mutation.Kind) (options : Mutation.MutationOptions)
    (v : option JSON) (mo : option Mutation.MutateOptions) (h : Mutation.Hook) :
  Mutation.reachable h ->
  Mutation.isMounted h = true ->
  Mutation.onMutate options = false ->
  let h' := Mutation.step now (Mutation.Call kind options v mo) h in
  Mutation.calls h' = Mutation.calls h ++ [(Mutation.mutationFn options, v)]
  /\ Mutation.invocations (Mutation.mutationFn options) h'
     = S (Mutation.invocations (Mutation.mutationFn options) h)
  /\ (forall fid fr, Mutation.frames h !! fid = Some fr -> Mutation.frames h' !! fid = Some fr)
  /\ is_Some (Mutation.frames h' !! Mutation.nextId h)
  /\ Mutation.frames h !! Mutation.nextId h = None.
Proof.
  intros Hr Hm Hom h'.
  pose proof (mutation_frames_bound h Hr) as Hb.
  assert (Hc : Mutation.calls h' = Mutation.calls h ++ [(Mutation.mutationFn options, v)]).
  { subst h'. cbn [Mutation.step]. unfold Mutation.call. rewrite Hm, Hom. reflexivity. }
  split; [exact Hc |]. split; [| split; [| split]].
  - rewrite (mutation_invocations_app _ h h' _ Hc). cbn [filter].
    rewrite filter_cons_True by reflexivity. cbn. lia.
  - intros fid fr Hfr. subst h'. cbn [Mutation.step]. unfold Mutation.call.
    rewrite Hm, Hom. cbn.
    assert (Hlt : (fid < Mutation.nextId h)%nat) by (apply Hb; eauto).
    rewrite lookup_insert_ne by lia. exact Hfr.
  - subst h'. cbn [Mutation.step]. unfold Mutation.call. rewrite Hm, Hom. cbn.
    rewrite lookup_insert_eq. eexists; reflexivity.
  - destruct (Mutation.frames h !! Mutation.nextId h) as [fr|] eqn:Hfr; [| reflexivity].
    assert (Hlt : (Mutation.nextId h < Mutation.nextId h)%nat) by (apply Hb; eauto). lia.
Qed.

Lemma mutations_are_independent_witness :
  let options :=
    {| Mutation.mutationFn := 7; Mutation.onMutate := false; Mutation.onSuccess := false;
       Mutation.onError := false; Mutation.onSettled := false;
       Mutation.retry := None; Mutation.retryDelay := None |} in
  let h := Mutation.run [(0, Mutation.Call Mutation.Mutate options (Some (JNum 1)) None)]
             Mutation.useMutation in
  let h' := Mutation.step 1 (Mutation.Call Mutation.Mutate options (Some (JNum 1)) None) h in
  Mutation.invocations 7 h' = 2%nat
  /\ is_Some (Mutation.frames h' !! 0%nat) /\ is_Some (Mutation.frames h' !! 1%nat).
Proof.
  intros options h h'.
  assert (Hr : Mutation.reachable h) by (eexists; reflexivity).
  destruct (mutations_are_independent 1 Mutation.Mutate options (Some (JNum 1)) None h
              Hr eq_refl eq_refl) as (_ & Hi & Hold & Hnew & _).
  fold h' in Hi, Hold, Hnew. change (Mutation.mutationFn options) with 7%nat in Hi.
  split; [rewrite Hi; reflexivity |]. split.
  - assert (H0 : exists fr, Mutation.frames h !! 0%nat = Some fr)
      by (vm_compute; eexists; reflexivity).
    destruct H0 as (fr & H0). rewrite (Hold _ _ H0). eexists; reflexivity.
  - exact Hnew.
Defined.

(* ================================================================== *)
(** ** Key factories *)
(* ================================================================== *)

Lemma append_cons (x : ascii) (a b : string) : String x a +:+ b = String x (a +:+ b).
Proof. reflexivity. Qed.

Lemma append_nil (b : string) : EmptyString +:+ b = b.
Proof. reflexivity. Qed.

Lemma append_inv_head (a b c : string) : a +:+ b = a +:+ c -> b = c.
Proof.
  induction a as [| x a IH]; rewrite ?append_nil, ?append_cons; intros H; [exact H |].
  injection H as H. apply IH, H.
Qed.

Lemma append_assoc (a b c : string) : (a +:+ b) +:+ c = a +:+ (b +:+ c).
Proof.
  induction a as [| x a IH]; [reflexivity |]. rewrite !append_cons. f_equal. exact IH.
Qed.

Lemma join_cons2 (sep p q : string) (l : list string) :
  Json.join sep (p :: q :: l) = p +:+ sep +:+ Json.join sep (q :: l).
Proof. reflexivity. Qed.

(** The serialization of an array key that starts with a string: the
    quoted string, then what the rest of the array adds. *)
Lemma stringify_resource_key (resource : string) (rest : list JSON) :
  getQueryKey (KeyArray (JStr resource :: rest))
  = String "[" (String Json.quote_char
      (Json.escape resource +:+
       String Json.quote_char
         match rest with
         | [] => "]"
         | _ => "," +:+ Json.join "," (List.map Json.stringify rest) +:+ "]"
         end)).
Proof.
  unfold getQueryKey, JSON_stringify.
  destruct rest as [| x rest].
  - cbn [Json.stringify List.map Json.join]. unfold Json.quote.
    rewrite !append_cons, !append_nil, append_assoc, append_cons, append_nil.
    reflexivity.
  - cbn [Json.stringify]. cbn [List.map].
    rewrite (join_cons2 "," (Json.stringify (JStr resource))).
    change (Json.stringify (JStr resource)) with (Json.quote resource).
    unfold Json.quote.
    rewrite !append_cons, !append_nil, !append_assoc, !append_cons, !append_nil.
    reflexivity.
Qed.

(** The keys of a factory never collide: for every resource, filters and
    id, the six keys have six different serializations, so each one names
    an entry of its own; in particular the entry of [lists()] is not the
    entry of any [list(filters)]. *)
Theorem createQueryKeys_keys_distinct (resource : string) (filters id filters' : JSON) :
  NoDup (Keys.serialized (Keys.createQueryKeys resource) filters id filters')
  /\ Keys.serialized Keys.queryKeys filters id filters'
     = Keys.serialized (Keys.createQueryKeys "queries") filters id filters'.
Proof.
  split; [| reflexivity].
  unfold Keys.serialized, Keys.createQueryKeys.
  cbn [Keys.all Keys.lists Keys.list Keys.details Keys.detail Keys.infinite].
  rewrite !stringify_resource_key.
  cbn [List.map Json.join Json.stringify].
  repeat (apply NoDup_cons; split;
          [rewrite ?elem_of_cons, elem_of_nil; intros H; destruct_or?; try contradiction;
           injection H as H; apply append_inv_head in H; discriminate H |]).
  apply NoDup_nil. exact I.
Qed.

(* ================================================================== *)
(** ** The first render of [useQuery] *)
(* ================================================================== *)



(* ================================================================== *)
(** ** The start of a fetch, and a failure after an abort *)
(* ================================================================== *)

(** A rejection that arrives after the signal was aborted is never retried,
    whatever the retry policy.  When the error is not an AbortError the
    catch block of [fetchQuery] records it: the entry the call captured gets
    the error and status error, with its data as it was, also when a later
    fetch for the key has started or finished in the meantime; the promise
    is rejected with the error. *)
Theorem aborted_fetch_failure_is_recorded
    (now : Z) (fid : nat) (fr : Frame) (err : Thrown) (en : QueryCacheEntry) (s : System) :
  frames s !! fid = Some fr ->
  framePhase fr = AwaitingFn ->
  aborted s !! frameSignal fr = Some true ->
  is_AbortError err = false ->
  heap s !! frameEntry fr = Some en ->
  let s' := step now (FnSettles fid (Rejected err)) s in
  calls s' = calls s
  /\ frames s' !! fid = None
  /\ cache s' = cache s
  /\ state <$> heap s' !! frameEntry fr = Some (setError now err (state en))
  /\ (forall k, cache s !! getQueryKey k = Some (frameEntry fr) ->
        stateOf k s' = Some (setError now err (state en))
        /\ eval (getQueryData k) s' = data (state en))
  /\ promises s' = promises s ++ [(fid, frameCaller fr, Rejected err)].
Proof.
  intros Hfr Hph Hab Hne Hen s'.
  assert (E : s' = exec (fetchFailed now fid fr err) s).
  { subst s'. apply (reject_gives_up now fid fr err s Hfr Hph). left. exact Hab. }
  destruct (fetchFailed_error now fid fr err s Hne) as (Hh & Hc & Hl & _ & Hf & Hp).
  rewrite <- E in Hh, Hc, Hl, Hf, Hp. clearbody s'.
  assert (Hst : state <$> heap s' !! frameEntry fr = Some (setError now err (state en))).
  { rewrite Hh, lookup_alter_eq, Hen. reflexivity. }
  split; [exact Hl |]. split; [rewrite Hf; apply lookup_delete_eq |].
  split; [exact Hc |]. split; [exact Hst |]. split; [| exact Hp].
  intros k Hk.
  assert (Hs : stateOf k s' = Some (setError now err (state en))).
  { unfold stateOf. rewrite Hc, Hk. cbn [mbind option_bind].
    destruct (heap s' !! frameEntry fr) as [en'|]; [| discriminate Hst].
    cbn in Hst |- *. exact Hst. }
  split; [exact Hs |]. rewrite getQueryData_eval, Hs. reflexivity.
Qed.

Lemma aborted_fetch_failure_is_recorded_witness :
  let k := KeyArray [JStr "posts"] in
  let options := optionsFor k 7 in
  let boom := ErrorObject "Error" "boom" in
  let s := run [(0, CallFetchQuery options);
                (1, CallFetchQuery options);
                (2, FnSettles 4 (Resolved (Some (JStr "new"))))] newQueryClient in
  let s' := step 3 (FnSettles 2 (Rejected boom)) s in
  status <$> stateOf k s = Some StatusSuccess
  /\ status <$> stateOf k s' = Some StatusError
  /\ invocations 7 s' = 2%nat.
Proof.
  intros k options boom s s'.
  assert (Hfr : exists fr, frames s !! 2%nat = Some fr /\ framePhase fr = AwaitingFn
                           /\ aborted s !! frameSignal fr = Some true
                           /\ frameEntry fr = 0%nat)
    by (vm_compute; eexists; repeat split; reflexivity).
  destruct Hfr as (fr & Hfr & Hph & Hab & He).
  assert (Hen : exists en, heap s !! 0%nat = Some en)
    by (vm_compute; eexists; reflexivity).
  destruct Hen as (en & Hen). rewrite <- He in Hen.
  destruct (aborted_fetch_failure_is_recorded 3 2 fr boom en s Hfr Hph Hab eq_refl Hen)
    as (Hcalls & _ & _ & _ & Hkey & _).
  fold s' in Hcalls, Hkey.
  split; [vm_compute; reflexivity |]. split.
  - destruct (Hkey k) as (Hs & _); [rewrite He; vm_compute; reflexivity |].
    rewrite Hs. reflexivity.
  - unfold invocations. rewrite Hcalls. vm_compute. reflexivity.
Defined.



(* ================================================================== *)
(** ** Subscribing and unsubscribing *)
(* ================================================================== *)





(* ================================================================== *)
(** ** Invalidation by key *)
(* ================================================================== *)



(* ================================================================== *)
(** ** Reading the cache, with its age limit *)
(* ================================================================== *)

Lemma Lru_getQueryData_fresh
    (ttl : Z) (starts : gmap string Z) (now : Z) (k : QueryKey) (s : System) :
  Lru.isStale ttl starts now (getQueryKey k) = false ->
  Lru.getQueryData ttl starts now k s = getQueryData k s.
Proof.
  intros Hs. unfold Lru.getQueryData, Lru.get, getQueryData, bind, gets.
  cbn [fst snd]. rewrite Hs. destruct (cache s !! getQueryKey k); reflexivity.
Qed.

Lemma Lru_getQueryData_absent
    (ttl : Z) (starts : gmap string Z) (now : Z) (k : QueryKey) (s : System) :
  cache s !! getQueryKey k = None ->
  Lru.getQueryData ttl starts now k s = (None, s).
Proof.
  intros Hk. unfold Lru.getQueryData, Lru.get, bind, gets.
  cbn [fst snd]. rewrite Hk. reflexivity.
Qed.

Lemma Lru_getQueryData_stale
    (ttl : Z) (starts : gmap string Z) (now : Z) (k : QueryKey) (e : nat) (s : System) :
  cache s !! getQueryKey k = Some e ->
  Lru.isStale ttl starts now (getQueryKey k) = true ->
  Lru.getQueryData ttl starts now k s = (None, exec (cacheDelete (getQueryKey k)) s).
Proof.
  intros Hk Hs. unfold Lru.getQueryData, Lru.get, bind, gets, exec.
  cbn [fst snd]. rewrite Hk, Hs.
  destruct (cacheDelete (getQueryKey k) s) as [[] s']. reflexivity.
Qed.

(** C9, as the code has it: [getQueryData] never stores a key, unlike
    [fetchQuery], [setQueryData] and [subscribeToQuery], which store a key
    that was missing, and it never writes to an entry.  It looks the key up
    with the cache's [get]: for a key that is not stored it returns
    [undefined] and nothing changes; for a key that has not outlived the
    age limit of the cache it returns the entry's data and nothing changes;
    a key that has outlived the limit is deleted by the lookup, its entry is
    disposed of, its controller aborted and its timers cleared, and
    [undefined] is returned.  The other keys stay stored as they were. *)
Theorem getQueryData_read_only_within_ttl
    (ttl : Z) (starts : gmap string Z) (now : Z) (k : QueryKey) (s : System) :
  let key := getQueryKey k in
  let s' := exec (Lru.getQueryData ttl starts now k) s in
  let r := eval (Lru.getQueryData ttl starts now k) s in
  (forall key' e, cache s' !! key' = Some e -> cache s !! key' = Some e)
  /\ heap s' = heap s
  /\ (forall key', key' <> key -> cache s' !! key' = cache s !! key')
  /\ (cache s !! key = None ->
      r = None /\ s' = s
      /\ (forall t c options, queryKey options = k ->
            stores key (exec (fetchQuery t c options) s))
      /\ (forall t d, stores key (exec (setQueryData t k d) s))
      /\ (forall t options, queryKey options = k ->
            stores key (exec (subscribeToQuery t options) s)))
  /\ (Lru.isStale ttl starts now key = false ->
      s' = s /\ r = stateOf k s ≫= data)
  /\ (forall e en,
        cache s !! key = Some e -> heap s !! e = Some en ->
        Lru.isStale ttl starts now key = true ->
        r = None
        /\ cache s' = delete key (cache s)
        /\ aborted s' = abortSome (abortController en) (aborted s)
        /\ timers s' =
             clearSome (entryRefetchInterval en) (clearSome (gcTimeout en) (timers s))).
Proof.
  intros key s' r. subst key s' r. unfold exec, eval.
  destruct (cache s !! getQueryKey k) as [e|] eqn:Hk.
  - destruct (Lru.isStale ttl starts now (getQueryKey k)) eqn:Hs.
    + rewrite (Lru_getQueryData_stale ttl starts now k e s Hk Hs). cbn [fst snd].
      destruct (cacheDelete_run (getQueryKey k) s) as (Hc & Hh & _).
      split; [| split; [exact Hh | split; [| split; [discriminate | split; [discriminate |]]]]].
      * intros key' e'. rewrite Hc. intros H. apply lookup_delete_Some in H. apply H.
      * intros key' Hne. rewrite Hc. apply lookup_delete_ne. congruence.
      * intros e0 en [= <-] Hen _. split; [reflexivity |]. split; [exact Hc |].
        unfold cacheDelete. rewrite exec_bind, exec_gets, eval_gets, Hk. cbn [whenSome].
        rewrite exec_bind, exec_modify.
        destruct (cleanupQuery_run e en s Hen) as (Ha & Ht & _).
        cbn [aborted timers upd_cache]. split; assumption.
    + rewrite (Lru_getQueryData_fresh ttl starts now k s Hs).
      change (snd (getQueryData k s)) with (exec (getQueryData k) s).
      change (fst (getQueryData k s)) with (eval (getQueryData k) s).
      rewrite getQueryData_exec, getQueryData_eval.
      split; [auto |]. split; [reflexivity |]. split; [reflexivity |].
      split; [discriminate |].
      split; [intros _; split; reflexivity |].
      intros e0 en _ _ [=].
  - rewrite (Lru_getQueryData_absent ttl starts now k s Hk). cbn [fst snd].
    split; [auto |]. split; [reflexivity |]. split; [reflexivity |].
    split.
    + intros _. split; [reflexivity |]. split; [reflexivity |].
      split; [intros t c options <-; apply fetchQuery_stores |].
      split; [intros t d; apply setQueryData_stores |].
      intros t options <-. apply subscribeToQuery_stores.
    + split.
      * intros _. split; [reflexivity |]. unfold stateOf. rewrite Hk. reflexivity.
      * intros e0 en [=].
Qed.

Lemma getQueryData_read_only_within_ttl_witness :
  let posts := KeyArray [JStr "posts"] in
  let users := KeyArray [JStr "users"] in
  let s := run [(0, CallSetQueryData posts (Some (JStr "A")))] newQueryClient in
  let starts : gmap string Z := {[ getQueryKey posts := 0 ]} in
  cache s !! getQueryKey users = None
  /\ Lru.isStale defaultTtl starts defaultTtl (getQueryKey posts) = false
  /\ Lru.isStale defaultTtl starts (defaultTtl + 1) (getQueryKey posts) = true
  /\ eval (Lru.getQueryData defaultTtl starts 10 users) s = None
  /\ exec (Lru.getQueryData defaultTtl starts 10 users) s = s
  /\ exec (Lru.getQueryData defaultTtl starts defaultTtl posts) s = s
  /\ eval (Lru.getQueryData defaultTtl starts defaultTtl posts) s = Some (JStr "A")
  /\ eval (Lru.getQueryData defaultTtl starts (defaultTtl + 1) posts) s = None
  /\ cache (exec (Lru.getQueryData defaultTtl starts (defaultTtl + 1) posts) s)
     = delete (getQueryKey posts) (cache s).
Proof.
  intros posts users s starts.
  assert (Hu : cache s !! getQueryKey users = None) by (vm_compute; reflexivity).
  assert (Hf : Lru.isStale defaultTtl starts defaultTtl (getQueryKey posts) = false)
    by (vm_compute; reflexivity).
  assert (Hs : Lru.isStale defaultTtl starts (defaultTtl + 1) (getQueryKey posts) = true)
    by (vm_compute; reflexivity).
  assert (Hk : cache s !! getQueryKey posts = Some 0%nat) by (vm_compute; reflexivity).
  assert (Hen : exists en, heap s !! 0%nat = Some en) by (vm_compute; eexists; reflexivity).
  destruct Hen as [en Hen].
  destruct (getQueryData_read_only_within_ttl defaultTtl starts 10 users s)
    as (_ & _ & _ & Habsent & _).
  destruct (Habsent Hu) as (Hr & Hsame & _).
  destruct (getQueryData_read_only_within_ttl defaultTtl starts defaultTtl posts s)
    as (_ & _ & _ & _ & Hfresh & _).
  destruct (Hfresh Hf) as (Hsame' & Hr').
  destruct (getQueryData_read_only_within_ttl defaultTtl starts (defaultTtl + 1) posts s)
    as (_ & _ & _ & _ & _ & Hstale).
  destruct (Hstale 0%nat en Hk Hen Hs) as (Hr'' & Hc'' & _).
  split; [exact Hu |]. split; [exact Hf |]. split; [exact Hs |].
  split; [exact Hr |]. split; [exact Hsame |]. split; [exact Hsame' |].
  split; [rewrite Hr'; vm_compute; reflexivity |].
  split; [exact Hr'' | exact Hc''].
Defined.

(** C9, as the spec states it, fails: the cache's [get] is not a read for a
    key that has outlived the age limit.  Data set at time 0 and read one
    millisecond after the default limit of five minutes: [getQueryData]
    returns [undefined] and the key is no longer stored, so the stored keys
    and the state of the key's entry are not as they were before the
    call. *)
Lemma getQueryData_drops_expired_key :
  let posts := KeyArray [JStr "posts"] in
  let s := run [(0, CallSetQueryData posts (Some (JStr "A")))] newQueryClient in
  let starts : gmap string Z := {[ getQueryKey posts := 0 ]} in
  let s' := exec (Lru.getQueryData defaultTtl starts (defaultTtl + 1) posts) s in
  stateOf posts s ≫= data = Some (JStr "A")
  /\ ~ (cache s' = cache s /\ forall k, stateOf k s' = stateOf k s)
  /\ cache s' !! getQueryKey posts = None
  /\ stateOf posts s' = None
  /\ eval (Lru.getQueryData defaultTtl starts (defaultTtl + 1) posts) s = None.
Proof.
  intros posts s starts s'.
  assert (Hb : stateOf posts s ≫= data = Some (JStr "A")) by (vm_compute; reflexivity).
  assert (Ha : stateOf posts s' = None) by (vm_compute; reflexivity).
  split; [exact Hb |].
  split; [intros [_ H]; rewrite <- (H posts), Ha in Hb; discriminate |].
  split; [vm_compute; reflexivity |].
  split; [exact Ha | vm_compute; reflexivity].
Qed.

(* ================================================================== *)
(** ** Deferred callbacks that throw *)
(* ================================================================== *)

Lemma queueForEach_returns (throws : Task -> bool) (q : list Task) (s : System) :
  (forall task, task ∈ q -> throws task = false) ->
  queueForEach throws q s
  = (true, exec (foldr (fun t rest => runTask t ;; rest) (ret tt) q) s).
Proof.
  revert s. induction q as [|t q IH]; intros s Hq; cbn [queueForEach foldr].
  - reflexivity.
  - rewrite exec_bind. unfold bind at 1.
    destruct (runTask t s) as [[] s1] eqn:E1.
    assert (Es : exec (runTask t) s = s1) by (unfold exec; rewrite E1; reflexivity).
    rewrite Es, (Hq t) by (apply elem_of_cons; left; reflexivity).
    apply IH. intros task Ht. apply Hq, elem_of_cons. right. exact Ht.
Qed.

(** A flush whose callbacks all return is the flush of the runs. *)
Lemma microtaskFlushWith_returns (throws : Task -> bool) (now : Z) (s : System) :
  returns throws s ->
  exec (microtaskFlushWith throws) s = step now MicrotaskFlush s.
Proof.
  intros Hr. cbn [step]. unfold microtaskFlushWith, microtaskFlush.
  rewrite !exec_bind, !exec_gets, !eval_gets.
  destruct (isPending s); cbn [when]; [| reflexivity].
  rewrite !exec_bind, !exec_gets, !eval_gets, !exec_modify.
  cbn [queue upd_isPending].
  pose proof (queueForEach_returns throws (queue s) (upd_isPending false s) Hr) as E.
  assert (Ee : exec (queueForEach throws (queue s)) (upd_isPending false s)
               = exec (foldr (fun t rest => runTask t ;; rest) (ret tt) (queue s))
                   (upd_isPending false s))
    by (unfold exec at 1; rewrite E; reflexivity).
  assert (Ev : eval (queueForEach throws (queue s)) (upd_isPending false s) = true)
    by (unfold eval; rewrite E; reflexivity).
  rewrite Ee, Ev. cbn [when]. rewrite exec_modify. reflexivity.
Qed.

(** What [forEach] does when callbacks throw. *)
Lemma queueForEach_run (throws : Task -> bool) (q : list Task) (s : System) :
  let s' := exec (queueForEach throws q) s in
  eval (queueForEach throws q) s = forallb (fun t => negb (throws t)) q
  /\ fired s' = fired s ++ List.map (callOf (heap s)) (calledUpToThrow throws q)
  /\ heap s' = heap s /\ queue s' = queue s /\ isPending s' = isPending s
  /\ cache s' = cache s /\ frames s' = frames s /\ timers s' = timers s.
Proof.
  cbv zeta. revert s.
  induction q as [|t q IH]; intros s; cbn [queueForEach forallb calledUpToThrow List.map].
  - rewrite app_nil_r. repeat split.
  - rewrite exec_bind, eval_bind.
    assert (K : heap (exec (runTask t) s) = heap s /\ queue (exec (runTask t) s) = queue s
                /\ isPending (exec (runTask t) s) = isPending s
                /\ cache (exec (runTask t) s) = cache s
                /\ frames (exec (runTask t) s) = frames s
                /\ timers (exec (runTask t) s) = timers s).
    { repeat split;
        match goal with |- ?f (exec ?m ?x) = _ =>
          let P := fresh in assert (P : preserves f m) by frame; apply P end. }
    destruct K as (Kh & Kq & Kp & Kc & Kf & Kt).
    pose proof (runTask_fired t s) as Hf.
    destruct (throws t); cbn [negb andb].
    + rewrite exec_ret. cbn [List.map]. rewrite Hf. repeat split; assumption.
    + destruct (IH (exec (runTask t) s)) as (I1 & I2 & I3 & I4 & I5 & I6 & I7 & I8).
      rewrite I1, I2, I3, I4, I5, I6, I7, I8, Hf, Kh, <- app_assoc.
      repeat split; assumption.
Qed.

Lemma scheduled_turns (ts : list Turn) (s : System) :
  scheduled s -> calm ts s -> scheduled (turns ts s).
Proof.
  revert s. induction ts as [|t ts IH]; intros s Hs Hc; cbn [turns]; [exact Hs |].
  destruct Hc as [Ht Hc]. apply IH; [| exact Hc].
  destruct t as [now ev | throws]; cbn [turn].
  - apply scheduled_step, Hs.
  - rewrite (microtaskFlushWith_returns throws 0 s Ht). apply scheduled_step, Hs.
Qed.

(** As long as no callback throws, no deferred callback is stranded: in
    every state a new client reaches through turns in which every callback
    called returns, a callback that waits in the queue has a flush
    scheduled, and that flush, if its callbacks return, runs the queued
    callbacks in order and leaves the queue empty. *)
Theorem queued_callbacks_are_flushed (ts : list Turn) :
  calm ts newQueryClient ->
  let s := turns ts newQueryClient in
  scheduled s
  /\ (queue s <> [] ->
      isPending s = true
      /\ forall throws,
           returns throws s ->
           fired (exec (microtaskFlushWith throws) s)
           = fired s ++ List.map (callOf (heap s)) (queue s)
           /\ queue (exec (microtaskFlushWith throws) s) = []).
Proof.
  intros Hc s.
  assert (H : scheduled s)
    by (apply scheduled_turns; [left; reflexivity | exact Hc]).
  split; [exact H |]. intros Hq.
  destruct H as [H | H]; [contradiction |].
  split; [exact H |]. intros throws Hr.
  rewrite (microtaskFlushWith_returns throws 0 s Hr).
  destruct (microtaskFlush_run 0 s H) as (Hf & Hq' & _). split; assumption.
Qed.

Lemma queued_callbacks_are_flushed_witness :
  let k := KeyArray [JStr "posts"] in
  let options := withCallbacks (withRetry (RetryCount 0) (optionsFor k 7)) in
  let boom := ErrorObject "Error" "boom" in
  let ts := [Plain 0 (CallFetchQuery options);
             Plain 10 (FnSettles 2 (Resolved (Some (JStr "A"))));
             Flush (fun _ => false);
             Plain 20 (CallFetchQuery options);
             Plain 30 (FnSettles 5 (Rejected boom))] in
  let s := turns ts newQueryClient in
  calm ts newQueryClient
  /\ queue s <> []
  /\ isPending s = true
  /\ fired (exec (microtaskFlushWith (fun _ => false)) s)
     = [CalledOnSuccess k (Some (JStr "A")); CalledOnSettled k (Some (JStr "A")) None;
        CalledOnError k boom; CalledOnSettled k (Some (JStr "A")) (Some boom)].
Proof.
  intros k options boom ts s.
  assert (Hc : calm ts newQueryClient).
  { cbn [calm ts]. repeat split. }
  assert (Hq : queue s <> []) by (vm_compute; discriminate).
  destruct (queued_callbacks_are_flushed ts Hc) as (_ & H).
  destruct (H Hq) as (Hp & Hf).
  destruct (Hf (fun _ => false) (fun _ _ => eq_refl)) as (Hfired & _).
  split; [exact Hc |]. split; [exact Hq |]. split; [exact Hp |].
  fold s in Hfired. rewrite Hfired. vm_compute. reflexivity.
Defined.

(** The callbacks of a fetch, once the flush after it has run and as long
    as none of them throws.  After a success [onSuccess] is called with the
    new data and then [onSettled] with the new data and a null error; after
    a failure that is not retried [onError] is called with the error and
    then [onSettled] with the data the entry had and the error; a callback
    that was not given is skipped. *)
Theorem callbacks_of_settled_fetch
    (now : Z) (fid : nat) (fr : Frame) (en : QueryCacheEntry) (s : System)
    (throws : Task -> bool) :
  frames s !! fid = Some fr ->
  framePhase fr = AwaitingFn ->
  heap s !! frameEntry fr = Some en ->
  queue s = [] ->
  let options := frameOptions fr in
  (forall d,
     let s1 := step now (FnSettles fid (Resolved d)) s in
     returns throws s1 ->
     fired (exec (microtaskFlushWith throws) s1)
     = fired s
       ++ (if onSuccess options then [CalledOnSuccess (queryKey options) d] else [])
       ++ (if onSettled options then [CalledOnSettled (queryKey options) d None] else []))
  /\ (forall err,
        is_AbortError err = false ->
        shouldRetry (default (RetryCount 3) (retry options)) (frameAttempt fr) err = false ->
        let s1 := step now (FnSettles fid (Rejected err)) s in
        returns throws s1 ->
        fired (exec (microtaskFlushWith throws) s1)
        = fired s
          ++ (if onError options then [CalledOnError (queryKey options) err] else [])
          ++ (if onSettled options
              then [CalledOnSettled (queryKey options) (data (state en)) (error_field err)]
              else [])).
Proof.
  intros Hfr Hph Hen Hq options.
  destruct (settled_fetch_fired now 0 fid fr en s Hfr Hph Hen Hq) as (Hok & Hko).
  split.
  - intros d s1 Hr. rewrite (microtaskFlushWith_returns throws 0 s1 Hr). apply Hok.
  - intros err Hab Hre s1 Hr. rewrite (microtaskFlushWith_returns throws 0 s1 Hr).
    apply Hko; assumption.
Qed.

Lemma callbacks_of_settled_fetch_witness :
  let k := KeyArray [JStr "posts"] in
  let options := withCallbacks (optionsFor k 7) in
  let s := run [(0, CallFetchQuery options)] newQueryClient in
  let throws := fun t : Task => match t with TaskOnError _ _ => true | _ => false end in
  queue s = []
  /\ returns throws (step 10 (FnSettles 2 (Resolved (Some (JStr "A")))) s)
  /\ fired (exec (microtaskFlushWith throws)
              (step 10 (FnSettles 2 (Resolved (Some (JStr "A")))) s))
     = [CalledOnSuccess k (Some (JStr "A")); CalledOnSettled k (Some (JStr "A")) None].
Proof.
  intros k options s throws.
  assert (Hfr : frames s !! 2%nat =
                Some {| frameEntry := 0; frameOptions := options; frameSignal := 1;
                        frameAttempt := 0; framePhase := AwaitingFn;
                        frameCaller := External |}) by (vm_compute; reflexivity).
  assert (Hen : exists en, heap s !! 0%nat = Some en) by (vm_compute; eexists; reflexivity).
  destruct Hen as [en Hen].
  assert (Hq : queue s = []) by (vm_compute; reflexivity).
  assert (Hr : returns throws (step 10 (FnSettles 2 (Resolved (Some (JStr "A")))) s)).
  { intros task Ht.
    assert (Hqs : queue (step 10 (FnSettles 2 (Resolved (Some (JStr "A")))) s)
                  = [TaskOnSuccess options (Some (JStr "A")); TaskOnSettled options 0])
      by (vm_compute; reflexivity).
    rewrite Hqs in Ht.
    apply elem_of_cons in Ht as [-> | Ht]; [reflexivity |].
    apply list_elem_of_singleton in Ht as ->. reflexivity. }
  destruct (callbacks_of_settled_fetch 10 2 _ en s throws Hfr eq_refl Hen Hq) as (Hok & _).
  split; [exact Hq |]. split; [exact Hr |].
  rewrite (Hok _ Hr). vm_compute. reflexivity.
Defined.

(** A deferred callback that throws strands the queue.  The flush calls the
    callbacks up to the one that throws and stops there: the exception
    leaves the microtask before [queue.clear()], so the queue keeps every
    callback, those already called included, while no flush is scheduled
    any more.  The next [defer] schedules one, which calls them all
    again. *)
Theorem throwing_callback_strands_queue (throws : Task -> bool) (s : System) :
  isPending s = true ->
  (exists task, task ∈ queue s /\ throws task = true) ->
  let s' := exec (microtaskFlushWith throws) s in
  queue s' = queue s
  /\ isPending s' = false
  /\ ~ scheduled s'
  /\ fired s' = fired s ++ List.map (callOf (heap s)) (calledUpToThrow throws (queue s))
  /\ heap s' = heap s /\ cache s' = cache s /\ frames s' = frames s
  /\ timers s' = timers s
  /\ forall t, queue (exec (defer t) s') = queue s ++ [t]
               /\ isPending (exec (defer t) s') = true.
Proof.
  intros Hp (task & Hin & Hth). cbv zeta.
  unfold microtaskFlushWith.
  rewrite exec_bind, exec_gets, eval_gets, Hp. cbn [when].
  rewrite !exec_bind, exec_gets, eval_gets, !exec_modify, ?eval_bind.
  cbn [queue upd_isPending].
  destruct (queueForEach_run throws (queue s) (upd_isPending false s))
    as (Hr & Hf & Hh & Hq & Hpe & Hc & Hfr & Ht).
  cbn [fired heap queue isPending cache frames timers upd_isPending] in Hf, Hh, Hq, Hpe, Hc, Hfr, Ht.
  assert (Hfalse : forallb (fun t => negb (throws t)) (queue s) = false).
  { apply not_true_is_false. intros Hall. rewrite forallb_forall in Hall.
    assert (Hin' : In task (queue s)) by (apply list_elem_of_In, Hin).
    specialize (Hall task Hin'). rewrite Hth in Hall. discriminate. }
  rewrite Hr, Hfalse. cbn [when]. rewrite exec_ret.
  set (s1 := exec (queueForEach throws (queue s)) (upd_isPending false s)) in *.
  assert (Hne : queue s <> []).
  { intros E. rewrite E in Hin. apply elem_of_nil in Hin. exact Hin. }
  split; [exact Hq |]. split; [exact Hpe |].
  split; [intros [E | E]; [rewrite Hq in E; contradiction | congruence] |].
  split; [exact Hf |]. split; [exact Hh |]. split; [exact Hc |].
  split; [exact Hfr |]. split; [exact Ht |].
  intros t. destruct (defer_run t s1) as (D1 & D2). rewrite D1, Hq. split; [reflexivity | exact D2].
Qed.

Lemma throwing_callback_strands_queue_witness :
  let k := KeyArray [JStr "posts"] in
  let options := withCallbacks (optionsFor k 7) in
  let s := run [(0, CallFetchQuery options);
                (10, FnSettles 2 (Resolved (Some (JStr "A"))))] newQueryClient in
  let throws := fun t : Task => match t with TaskOnSuccess _ _ => true | _ => false end in
  let s' := exec (microtaskFlushWith throws) s in
  isPending s = true
  /\ queue s = [TaskOnSuccess options (Some (JStr "A")); TaskOnSettled options 0]
  /\ queue s' = queue s
  /\ isPending s' = false
  /\ fired s' = [CalledOnSuccess k (Some (JStr "A"))].
Proof.
  intros k options s throws s'.
  assert (Hp : isPending s = true) by (vm_compute; reflexivity).
  assert (Hq : queue s = [TaskOnSuccess options (Some (JStr "A")); TaskOnSettled options 0])
    by (vm_compute; reflexivity).
  assert (Hex : exists task, task ∈ queue s /\ throws task = true).
  { exists (TaskOnSuccess options (Some (JStr "A"))). split; [| reflexivity].
    rewrite Hq. apply elem_of_cons. left. reflexivity. }
  destruct (throwing_callback_strands_queue throws s Hp Hex) as (H1 & H2 & _ & H3 & _).
  split; [exact Hp |]. split; [exact Hq |]. split; [exact H1 |]. split; [exact H2 |].
  fold s' in H3. rewrite H3. vm_compute. reflexivity.
Defined.

(** The interval a late success arms on a removed entry fetches again when
    it fires, and that fetch stores a new entry under the key: the key a
    [removeQueries] dropped is stored again, and the next result is served
    by [getQueryData]. *)
Example late_interval_stores_key_again :
  let k := KeyArray [JStr "posts"] in
  let options := withRefetchInterval 1000 (optionsFor k 7) in
  let s := run [(0, CallFetchQuery options);
                (5, CallRemoveQueries (Some k));
                (50, FnSettles 2 (Resolved (Some (JStr "late"))))] newQueryClient in
  let s1 := step 1050 (TimerFires 3) s in
  let s2 := step 1060 (FnSettles 7 (Resolved (Some (JStr "again")))) s1 in
  eval (getQueryData k) s = None
  /\ cache s !! getQueryKey k = None
  /\ timers s !! 3%nat = Some (RefetchTimer options 1000)
  /\ is_Some (cache s1 !! getQueryKey k)
  /\ invocations 7 s1 = 2%nat
  /\ eval (getQueryData k) s2 = Some (JStr "again").
Proof. vm_compute. repeat split. eexists; reflexivity. Qed.
